(** * china-food-composition-data: the vision-LLM extraction pipeline

    A shallow embedding of [index_vision_llm_processor.py] and the properties
    its specification states about it.

    Conventions of the model.
    - A Python [str] is a [string]; each character stands for the Unicode code
      point with the same number, so the model covers the code points below
      U+0100 and the character tables below are the exact restrictions of
      CPython's ([str.isdigit], [str.isspace], the [re] classes).
    - A row (a Python [dict] from field name to cell text) is a
      [gmap string string].
    - Python integers are [Z].
    - Exceptions are values of [exn]; a call that may raise returns [result].
    - Files are entries of finite maps from file name to content; operations
      on them succeed, so the handlers of the source that only log a failed
      file operation have no counterpart here. *)

From Stdlib Require Import ZArith Lia Bool Ascii.
From Stdlib Require String.
From stdpp Require Import base option list gmap strings sorting pretty.

(** ** Python strings *)

Module Py.

Definition code (c : ascii) : N := N_of_ascii c.

Definition in_range (lo hi : N) (c : ascii) : bool :=
  ((lo <=? code c) && (code c <=? hi))%N.

(** [\d] of [re] on [str] patterns, and what [int] accepts as a digit:
    the decimal digits (category Nd). *)
Definition is_decimal (c : ascii) : bool := in_range 48 57 c.

(** One character of [str.isdigit]: the decimal digits and, below U+0100,
    the superscripts U+00B2, U+00B3 and U+00B9. *)
Definition is_digit (c : ascii) : bool :=
  is_decimal c || (code c =? 178)%N || (code c =? 179)%N || (code c =? 185)%N.

(** [str.isspace], [\s], and what [str.strip()] removes. *)
Definition is_space (c : ascii) : bool :=
  in_range 9 13 c || in_range 28 32 c || (code c =? 133)%N || (code c =? 160)%N.

(** The class [[a-zA-Z]]. *)
Definition is_ascii_letter (c : ascii) : bool :=
  in_range 65 90 c || in_range 97 122 c.

Definition newline : ascii := ascii_of_nat 10.

Fixpoint all (p : ascii -> bool) (s : string) : bool :=
  match s with
  | EmptyString => true
  | String c s' => p c && all p s'
  end.

Definition nonempty (s : string) : bool :=
  match s with EmptyString => false | String _ _ => true end.

(** [s.isdigit()]: at least one character, and every character a digit. *)
Definition isdigit (s : string) : bool := nonempty s && all is_digit s.

Fixpoint take_while (p : ascii -> bool) (s : string) : string :=
  match s with
  | String c s' => if p c then String c (take_while p s') else EmptyString
  | EmptyString => EmptyString
  end.

Fixpoint drop_while (p : ascii -> bool) (s : string) : string :=
  match s with
  | String c s' => if p c then drop_while p s' else s
  | EmptyString => EmptyString
  end.

Definition lstrip (s : string) : string := drop_while is_space s.

(** Removing the trailing run of the characters of a class: a character is
    dropped when it is in the class and nothing is kept after it. *)
Fixpoint drop_while_end (p : ascii -> bool) (s : string) : string :=
  match s with
  | EmptyString => EmptyString
  | String c s' =>
      match drop_while_end p s' with
      | EmptyString => if p c then EmptyString else String c EmptyString
      | t => String c t
      end
  end.

Definition rstrip (s : string) : string := drop_while_end is_space s.

(** [s.strip()] *)
Definition strip (s : string) : string := rstrip (lstrip s).

(** [s.startswith(p)] and [s.endswith(p)] *)
Definition startswith (p s : string) : bool := String.prefix p s.

Fixpoint endswith (p s : string) : bool :=
  String.eqb p s ||
  match s with
  | EmptyString => false
  | String _ s' => endswith p s'
  end.

(** The slice [s[n:]]. *)
Fixpoint drop (n : nat) (s : string) : string :=
  match n, s with
  | S n', String _ s' => drop n' s'
  | _, _ => s
  end.

(** [s.replace(old, new)] for a non-empty [old]: every occurrence, scanning
    from the left, occurrences not overlapping. *)
Fixpoint replace_go (fuel : nat) (old new s : string) : string :=
  match fuel with
  | O => s
  | S fuel' =>
      if startswith old s
      then new +:+ replace_go fuel' old new (drop (String.length old) s)
      else match s with
           | EmptyString => EmptyString
           | String c s' => String c (replace_go fuel' old new s')
           end
  end.

Definition replace (old new s : string) : string :=
  replace_go (S (String.length s)) old new s.

(** [s.split(sep)] for a one-character separator. *)
Fixpoint split (sep : ascii) (s : string) : list string :=
  match s with
  | EmptyString => [EmptyString]
  | String c s' =>
      if Ascii.eqb c sep then EmptyString :: split sep s'
      else match split sep s' with
           | w :: ws => String c w :: ws
           | [] => [String c EmptyString]
           end
  end.

(** [sub in s] *)
Fixpoint contains (sub s : string) : bool :=
  String.prefix sub s ||
  match s with
  | EmptyString => false
  | String _ s' => contains sub s'
  end.

(** [any(p(c) for c in s)] *)
Fixpoint any (p : ascii -> bool) (s : string) : bool :=
  match s with
  | EmptyString => false
  | String c s' => p c || any p s'
  end.

(** One character of [str.isalpha]: the letters below U+0100. *)
Definition is_alpha (c : ascii) : bool :=
  in_range 65 90 c || in_range 97 122 c ||
  (code c =? 170)%N || (code c =? 181)%N || (code c =? 186)%N ||
  in_range 192 214 c || in_range 216 246 c || in_range 248 255 c.

(** [sep.join(parts)] *)
Fixpoint join (sep : string) (parts : list string) : string :=
  match parts with
  | [] => EmptyString
  | [w] => w
  | w :: ws => w +:+ sep +:+ join sep ws
  end.

(** [s.replace(old, "", 1)] for a one-character [old]: the first occurrence
    is removed. *)
Fixpoint remove_first (old : ascii) (s : string) : string :=
  match s with
  | EmptyString => EmptyString
  | String c s' => if Ascii.eqb c old then s' else String c (remove_first old s')
  end.

(** The last character, [s[-1]], and the slice [s[:-1]]. *)
Fixpoint last_char (s : string) : option ascii :=
  match s with
  | EmptyString => None
  | String c EmptyString => Some c
  | String _ s' => last_char s'
  end.

Fixpoint but_last (s : string) : string :=
  match s with
  | EmptyString => EmptyString
  | String c EmptyString => EmptyString
  | String c s' => String c (but_last s')
  end.

(** The value of a run of decimal digits, most significant first. *)
Definition digit_value (c : ascii) : Z := Z.of_N (code c) - 48.

Fixpoint int_acc (acc : Z) (s : string) : Z :=
  match s with
  | EmptyString => acc
  | String c s' => int_acc (10 * acc + digit_value c) s'
  end.

(** The limit of the interpreter on the digits of a decimal string that is
    turned into an integer, [sys.get_int_max_str_digits()]: 4300 unless it
    is changed, which the program does not do. *)
Definition int_max_str_digits : Z := 4300.

(** [int] counts the decimal digits at the start of the string first and
    refuses a string that has more of them than the limit, whatever comes
    after them. *)
Definition over_limit (s : string) : bool :=
  (int_max_str_digits <? Z.of_nat (String.length (take_while is_decimal s)))%Z.

(** [int(s)] for a string that passed [isdigit] or was matched by [\d+]:
    the value when every character is a decimal digit and there are no more
    of them than the limit, [ValueError] ([None]) otherwise. *)
Definition int (s : string) : option Z :=
  if over_limit s then None
  else if nonempty s && all is_decimal s then Some (int_acc 0 s) else None.

(** Order of [str]: lexicographic on code points. *)
Definition str_ltb (a b : string) : bool := String.ltb a b.

End Py.

(** ** Regular expressions

    The patterns of the program are matched by a backtracking matcher that
    tries alternatives in the order [re] does: the left branch of [|] first,
    one more iteration first for a greedy repetition, the continuation first
    for a lazy one. A repetition stops at an iteration that consumes nothing;
    every repetition body of the program's patterns consumes a character. *)

Module Re.

Inductive regex : Type :=
| Eps
| Chr (p : ascii -> bool)
| Seq (r1 r2 : regex)
| Alt (r1 r2 : regex)
| Star (greedy : bool) (r : regex)
| Group (i : nat) (r : regex)
| Bol
| Eol
| Ahead (r : regex).

(** Where the matcher stands: the offset in the subject, the text still
    ahead, and the spans of the groups closed so far. *)
Record mstate := MState {
  pos : nat;
  rest : string;
  caps : list (nat * (nat * nat))
}.

Definition advance (st : mstate) (s' : string) : mstate :=
  MState (S (pos st)) s' (caps st).

Definition close_group (i : nat) (from : mstate) (st : mstate) : mstate :=
  MState (pos st) (rest st) ((i, (pos from, pos st)) :: caps st).

(** The repetition of [body]: [fuel] bounds the number of iterations, and
    an iteration has to move on in the text. The greedy form tries one more
    iteration before the continuation, the lazy form the continuation
    first. *)
Fixpoint star_loop (body : mstate -> (mstate -> option mstate) -> option mstate)
  (greedy : bool) (k : mstate -> option mstate) (fuel : nat) (st : mstate)
  {struct fuel} : option mstate :=
  if greedy then
    match
      match fuel with
      | O => None
      | S fuel' =>
          body st (fun st' =>
            if (pos st <? pos st')%nat
            then star_loop body greedy k fuel' st' else None)
      end
    with
    | Some m => Some m
    | None => k st
    end
  else
    match k st with
    | Some m => Some m
    | None =>
        match fuel with
        | O => None
        | S fuel' =>
            body st (fun st' =>
              if (pos st <? pos st')%nat
              then star_loop body greedy k fuel' st' else None)
        end
    end.

Fixpoint run (r : regex) (st : mstate) (k : mstate -> option mstate)
  {struct r} : option mstate :=
  match r with
  | Eps => k st
  | Chr p =>
      match rest st with
      | String c s' => if p c then k (advance st s') else None
      | EmptyString => None
      end
  | Seq a b => run a st (fun st' => run b st' k)
  | Alt a b =>
      match run a st k with
      | Some m => Some m
      | None => run b st k
      end
  | Star g a => star_loop (run a) g k (S (String.length (rest st))) st
  | Group i a => run a st (fun st' => k (close_group i st st'))
  | Bol => if (pos st =? 0)%nat then k st else None
  | Eol =>
      match rest st with
      | EmptyString => k st
      | String c EmptyString => if Ascii.eqb c Py.newline then k st else None
      | _ => None
      end
  | Ahead a =>
      match run a st Some with
      | Some st' => k (MState (pos st) (rest st) (caps st'))
      | None => None
      end
  end.

(** Derived forms. *)
Definition Plus (greedy : bool) (r : regex) : regex := Seq r (Star greedy r).
Definition Opt (r : regex) : regex := Alt r Eps.

Fixpoint Lit (s : string) : regex :=
  match s with
  | EmptyString => Eps
  | String c s' => Seq (Chr (Ascii.eqb c)) (Lit s')
  end.

Definition digit : regex := Chr Py.is_decimal.                 (* \d *)
Definition space : regex := Chr Py.is_space.                   (* \s *)
Definition letter : regex := Chr Py.is_ascii_letter.           (* [a-zA-Z] *)
Definition dot : regex := Chr (fun c => negb (Ascii.eqb c Py.newline)). (* . *)
Definition dotall : regex := Chr (fun _ => true).              (* . under DOTALL *)

(** A match object: the subject and the final matcher state. Group 0 is the
    whole match. *)
Record match_obj := Match { subject : string; final : mstate }.

Fixpoint span_of (i : nat) (cs : list (nat * (nat * nat))) : option (nat * nat) :=
  match cs with
  | [] => None
  | (j, sp) :: cs' => if (i =? j)%nat then Some sp else span_of i cs'
  end.

(** [m.group(i)]; [None] for a group that took no part in the match. *)
Definition group (m : match_obj) (i : nat) : option string :=
  match span_of i (caps (final m)) with
  | Some (a, b) => Some (String.substring a (b - a) (subject m))
  | None => None
  end.

(** [m.group(i)] for a group that every match of the pattern sets. *)
Definition group_text (m : match_obj) (i : nat) : string :=
  default EmptyString (group m i).

(** [m.end()] *)
Definition match_end (m : match_obj) : nat := pos (final m).

Definition start (s : string) : mstate := MState 0 s [].

(** [re.match(r, s)]: a match anchored at the start only. *)
Definition re_match (r : regex) (s : string) : option match_obj :=
  Match s <$> run (Group 0 r) (start s) Some.

(** [re.fullmatch(r, s)]: the match has to end at the end of [s]. *)
Definition re_fullmatch (r : regex) (s : string) : option match_obj :=
  Match s <$> run (Group 0 r) (start s)
    (fun st => match rest st with EmptyString => Some st | _ => None end).

(** The repetition of a one-character class, by recursion on the text: what
    [run (Star g (Chr p))] computes (lemma [run_star_chr]). *)
Fixpoint star_chr (g : bool) (p : ascii -> bool) (n : nat) (s : string)
  (cs : list (nat * (nat * nat))) (k : mstate -> option mstate) : option mstate :=
  match s with
  | String c s' =>
      if p c then
        if g then
          match star_chr g p (S n) s' cs k with
          | Some m => Some m
          | None => k (MState n s cs)
          end
        else
          match k (MState n s cs) with
          | Some m => Some m
          | None => star_chr g p (S n) s' cs k
          end
      else k (MState n s cs)
  | EmptyString => k (MState n s cs)
  end.

(** [u] is what is left of [s] after some of its characters. *)
Definition is_suffix (u s : string) : Prop := ∃ pre, s = pre +:+ u.

(** A sequence of more than two parts. *)
Definition Cat (rs : list regex) : regex := foldr Seq Eps rs.

(** [re.search(r, s)]: the first offset, from the left, at which [r]
    matches. [subject] is the whole text and [st] the offset tried. *)
Fixpoint search_from (r : regex) (fuel : nat) (st : mstate) : option mstate :=
  match run (Group 0 r) st Some with
  | Some m => Some m
  | None =>
      match fuel, rest st with
      | S fuel', String _ s' => search_from r fuel' (MState (S (pos st)) s' [])
      | _, _ => None
      end
  end.

Definition re_search (r : regex) (s : string) : option match_obj :=
  Match s <$> search_from r (String.length s) (start s).

(** [re.findall(r, s)] for a pattern with one group whose matches are never
    empty: group 1 of each match, the search resuming where the last match
    ended. *)
Fixpoint findall_from (r : regex) (fuel : nat) (s : string) (st : mstate)
  : list string :=
  match fuel with
  | O => []
  | S fuel' =>
      match search_from r (String.length (rest st)) st with
      | Some m =>
          if (pos st <? pos m)%nat
          then group_text (Match s m) 1
                 :: findall_from r fuel' s (MState (pos m) (rest m) [])
          else []
      | None => []
      end
  end.

Definition re_findall (r : regex) (s : string) : list string :=
  findall_from r (String.length s) s (start s).

End Re.

(** ** Exceptions and rows *)

Inductive exn : Type :=
| ValueError (msg : string)
| TypeError (msg : string)
| ServiceError (msg : string).

Inductive result (A : Type) : Type :=
| Ok (a : A)
| Raise (e : exn).
Arguments Ok {A} a.
Arguments Raise {A} e.

(** Sequencing: the first exception raised ends the computation. *)
Global Instance result_bind : MBind result := λ A B f x,
  match x with
  | Ok a => f a
  | Raise e => Raise e
  end.

Definition is_ok {A : Type} (x : result A) : bool :=
  match x with Ok _ => true | Raise _ => false end.

(** A row of a table: field name to cell text. *)
Abbreviation Row := (gmap string string).

(** [int(s)] as a call that may raise: the [ValueError] names the limit
    when the string has too many digits, and the literal otherwise. The
    messages are cut short: the interpreter adds the number of digits to
    the first and the string to the second. *)
Definition py_int (s : string) : result Z :=
  match Py.int s with
  | Some n => Ok n
  | None =>
      Raise (ValueError
               (if Py.over_limit s
                then "Exceeds the limit (4300 digits) for integer string conversion"
                else "invalid literal for int() with base 10"))
  end.

(** ** [sort_food_data_by_code] *)

Module Sort.
Import Re.

(** A sort key: the tuple [(int, str)]. *)
Definition sort_key : Type := Z * string.

(** The pattern of [get_sort_key], as the source writes it and as a term. *)
Definition food_code_pattern_source : string := "(\d+)([a-zA-Z]*)".

Definition food_code_pattern : regex :=
  Seq (Group 1 (Plus true digit)) (Group 2 (Star true letter)).

(** [get_sort_key(item)]. Both groups of the pattern take part in each of
    its matches, so the branch that finds one of them unset (where Python
    would raise a [TypeError]) is never taken. *)
Definition get_sort_key (item : Row) : result sort_key :=
  let food_code := default "0" (item !! "foodCode") in
  if Py.isdigit food_code then
    n ← py_int food_code; Ok (n, "")
  else
    match re_match food_code_pattern food_code with
    | Some m =>
        match group m 1, group m 2 with
        | Some digits, Some letters => n ← py_int digits; Ok (n, letters)
        | _, _ => Raise (TypeError "group is None")
        end
    | None => Ok (0%Z, food_code)
    end.

(** [k1 < k2] on tuples: the first components decide unless they are equal. *)
Definition key_ltb (k1 k2 : sort_key) : bool :=
  if (k1.1 =? k2.1)%Z then Py.str_ltb k1.2 k2.2 else (k1.1 <? k2.1)%Z.

Definition key_leb (k1 k2 : sort_key) : bool := negb (key_ltb k2 k1).

(** [sorted(data, key=...)] computes the key of every element first, in
    order, and raises what the first failing key raises. *)
Fixpoint decorate (data : list Row) : result (list (sort_key * Row)) :=
  match data with
  | [] => Ok []
  | item :: data' =>
      k ← get_sort_key item;
      l ← decorate data';
      Ok ((k, item) :: l)
  end.

(** [sorted] is a stable sort that compares keys with [<] only. On a total
    order its result is determined: ascending keys, equal keys in the order
    of the input. Insertion from the right computes that list: an element
    is put before the first element that is not smaller than it. *)
Fixpoint insert_keyed {A : Type} (x : sort_key * A) (l : list (sort_key * A))
  : list (sort_key * A) :=
  match l with
  | [] => [x]
  | y :: l' => if key_ltb y.1 x.1 then y :: insert_keyed x l' else x :: y :: l'
  end.

Definition sorted_keyed {A : Type} (l : list (sort_key * A)) : list (sort_key * A) :=
  foldr insert_keyed [] l.

Definition sort_food_data_by_code (data : list Row) : result (list Row) :=
  l ← decorate data; Ok ((sorted_keyed l).*2).

End Sort.

(** *** What the sort is measured against *)

Module SortSpec.
Import Sort.

(** The food code [get_sort_key] reads: ["0"] for a row without one. *)
Definition food_code (item : Row) : string :=
  default "0" (item !! "foodCode").

(** A row that has a food code and nothing else. *)
Definition row_of_code (c : string) : Row := {["foodCode" := c]}.

Definition leading_digits (s : string) : string :=
  Py.take_while Py.is_decimal s.

Definition letters_after (s : string) : string :=
  Py.take_while Py.is_ascii_letter (Py.drop_while Py.is_decimal s).

(** The key as the specification words it: the number for a purely numeric
    code; the digit run and the letters for a code that is, as a whole, a
    digit run followed by letters; [(0, code)] for every other code. *)
Definition claimed_key (s : string) : sort_key :=
  if Py.nonempty s && Py.all Py.is_decimal s then (Py.int_acc 0 s, EmptyString)
  else if Py.nonempty (leading_digits s)
          && String.eqb (leading_digits s +:+ letters_after s) s
       then (Py.int_acc 0 (leading_digits s), letters_after s)
       else (0%Z, s).

(** The key with the second case read as a match of the start of the code:
    the leading digit run and the letters that follow it at once, whatever
    comes after them. *)
Definition prefix_key (s : string) : sort_key :=
  if Py.nonempty s && Py.all Py.is_decimal s then (Py.int_acc 0 s, EmptyString)
  else if Py.nonempty (leading_digits s)
       then (Py.int_acc 0 (leading_digits s), letters_after s)
       else (0%Z, s).

(** A code is safe when [int] accepts what [get_sort_key] hands to it:
    [isdigit] accepts the code only if it is made of decimal digits, as
    holds for every code of ASCII characters, and the decimal digits at the
    start of the code are no more than the limit of [int]. *)
Definition safe_code (s : string) : bool :=
  implb (Py.isdigit s) (Py.all Py.is_decimal s) && negb (Py.over_limit s).

(** The two exceptions of [int]: a string that is no decimal literal, and
    a string with more digits than the limit. *)
Definition int_error : exn := ValueError "invalid literal for int() with base 10".
Definition limit_error : exn :=
  ValueError "Exceeds the limit (4300 digits) for integer string conversion".

Definition key_le (k1 k2 : sort_key) : Prop := key_leb k1 k2 = true.

Definition keyed_le {A : Type} (x y : sort_key * A) : Prop := key_le x.1 y.1.

(** Ascending by key: every row is at most every later row. *)
Definition ascending (out : list Row) : Prop :=
  StronglySorted
    (λ a b, key_le (prefix_key (food_code a)) (prefix_key (food_code b))) out.

(** A code that [isdigit] accepts and [int] refuses: ["121101"] followed by
    the superscript one, U+00B9. *)
Definition superscript_code : string :=
  "121101" +:+ String (ascii_of_nat 185) EmptyString.

(** The example of the specification. *)
Definition example_codes : list string := ["121102"; "121101"; "124201x"; "124200"].
Definition example_sorted : list string := ["121101"; "121102"; "124200"; "124201x"].

End SortSpec.

(** ** [merge_data] *)

Module Merge.

Definition energy_cols : list string :=
  ["foodCode"; "foodName"; "edible"; "water"; "energyKCal"; "energyKJ";
   "protein"; "fat"; "CHO"; "dietaryFiber"; "cholesterol"; "ash";
   "vitaminA"; "carotene"; "retinol"; "thiamin"; "riboflavin"].

Definition nutrient_cols : list string :=
  ["foodCode"; "foodName"; "niacin"; "vitaminC"; "vitaminETotal";
   "vitaminE1"; "vitaminE2"; "vitaminE3"; "Ca"; "P"; "K"; "Na"; "Mg"; "Fe";
   "Zn"; "Se"; "Cu"; "Mn"; "remark"].

(** [key in item] *)
Definition has_key (key : string) (item : Row) : bool :=
  bool_decide (is_Some (item !! key)).

(** The truth value of [item.get("foodCode")]: present and not empty. *)
Definition has_food_code (item : Row) : bool :=
  match item !! "foodCode" with
  | Some c => Py.nonempty c
  | None => false
  end.

(** The comprehension
    [{item.get("foodCode", ""): item for item in data if item.get("foodCode")}]:
    rows are entered in order, a later row replaces an earlier one of the
    same code. *)
Definition index_by_code (data : list Row) : gmap string Row :=
  foldl (λ d item,
           if has_food_code item
           then <[default EmptyString (item !! "foodCode") := item]> d
           else d) ∅ data.

(** [for key in energy_cols: if key in energy_item: ...] *)
Definition add_energy (energy_item merged_item : Row) : Row :=
  foldl (λ m key,
           match energy_item !! key with
           | Some v => <[key := v]> m
           | None => m
           end) merged_item energy_cols.

(** [for key in nutrient_cols:
       if key not in ["foodCode", "foodName"] and key in nutrient_item: ...] *)
Definition add_nutrient (nutrient_item merged_item : Row) : Row :=
  foldl (λ m key,
           if bool_decide (key ∉ ["foodCode"; "foodName"])
           then match nutrient_item !! key with
                | Some v => <[key := v]> m
                | None => m
                end
           else m) merged_item nutrient_cols.

(** [if key not in merged_item and key in nutrient_item:
       merged_item[key] = nutrient_item[key]] *)
Definition backfill (key : string) (nutrient_item merged_item : Row) : Row :=
  if negb (has_key key merged_item) && has_key key nutrient_item
  then match nutrient_item !! key with
       | Some v => <[key := v]> merged_item
       | None => merged_item
       end
  else merged_item.

Definition complete (merged_item : Row) : bool :=
  has_key "foodCode" merged_item && has_key "foodName" merged_item.

(** What one pass of the loop over [all_codes] does for [code]: the record
    and whether it is appended ([true]) or dropped with a warning ([false]). *)
Definition merge_code (energy_dict nutrient_dict : gmap string Row)
  (code : string) : Row * bool :=
  let energy_item := default ∅ (energy_dict !! code) in
  let nutrient_item := default ∅ (nutrient_dict !! code) in
  let merged_item := add_nutrient nutrient_item (add_energy energy_item ∅) in
  if complete merged_item then (merged_item, true)
  else
    let merged_item := backfill "foodCode" nutrient_item merged_item in
    let merged_item := backfill "foodName" nutrient_item merged_item in
    if complete merged_item then (merged_item, true) else (merged_item, false).

(** The result of [merge_data] and the records its warnings report. *)
Record merged := Merged {
  records : list Row;
  warned : list Row
}.

Definition merge_step (energy_dict nutrient_dict : gmap string Row)
  (acc : merged) (code : string) : merged :=
  match merge_code energy_dict nutrient_dict code with
  | (item, true) => Merged (records acc ++ [item]) (warned acc)
  | (item, false) => Merged (records acc) (warned acc ++ [item])
  end.

(** [merge_data(energy_data, nutrient_data)]. A Python set is iterated in an
    order of its own; [elements] fixes one, and the properties proved of the
    result do not depend on it. *)
Definition merge_data (energy_data nutrient_data : list Row) : merged :=
  match energy_data, nutrient_data with
  | [], [] => Merged [] []
  | _, _ =>
      let energy_dict := index_by_code energy_data in
      let nutrient_dict := index_by_code nutrient_data in
      let all_codes : gset string := dom energy_dict ∪ dom nutrient_dict in
      foldl (merge_step energy_dict nutrient_dict) (Merged [] []) (elements all_codes)
  end.

End Merge.

(** *** What the merge is measured against *)

Module MergeSpec.
Import Merge.

(** The key set of one side: the non-empty food codes of its rows. *)
Definition keys (data : list Row) : gset string :=
  list_to_set
    (omap (λ item : Row, if has_food_code item then item !! "foodCode" else None) data).

(** The row a side holds for a code: the last of its rows with that code. *)
Definition row_for (code : string) (data : list Row) : option Row :=
  last (filter (λ item : Row, item !! "foodCode" = Some code) data).

(** A row restricted to the fields of a schema. *)
Definition restrict (cols : list string) (row : Row) : Row :=
  filter (λ kv : string * string, kv.1 ∈ cols) row.

Definition identity_fields : list string := ["foodCode"; "foodName"].

(** A missing field is taken from the nutrient-side row, if it has it. *)
Definition fill (key : string) (nutrient_row record : Row) : Row :=
  match record !! key, nutrient_row !! key with
  | None, Some v => <[key := v]> record
  | _, _ => record
  end.

(** The record of a code, as the specification builds it. *)
Definition spec_record (energy_data nutrient_data : list Row) (code : string) : Row :=
  let energy_row := default ∅ (row_for code energy_data) in
  let nutrient_row := default ∅ (row_for code nutrient_data) in
  let overlay :=
    restrict (filter (λ key, key ∉ identity_fields) nutrient_cols) nutrient_row in
  fill "foodName" nutrient_row
    (fill "foodCode" nutrient_row (overlay ∪ restrict energy_cols energy_row)).

Definition is_complete (record : Row) : Prop :=
  is_Some (record !! "foodCode") ∧ is_Some (record !! "foodName").

Global Instance is_complete_dec record : Decision (is_complete record).
Proof. unfold is_complete. apply _. Defined.

(** What holds of every record [merge_data] returns: a food code that is
    not empty, and a [foodName] field, whatever its value. *)
Definition identified (record : Row) : Prop :=
  (∃ c, record !! "foodCode" = Some c ∧ c ≠ EmptyString)
  ∧ is_Some (record !! "foodName").

(** A row with a code and an empty name, and a table that has it. *)
Definition nameless_row : Row :=
  <["foodName" := EmptyString]> (<["foodCode" := "121102"]> ∅).

Definition nameless_table : string :=
  "| foodCode | foodName |" +:+ String Py.newline
  ("| --- | --- |" +:+ String Py.newline "| 121102 |  |").

(** A pair of sides that share one code. *)
Definition sample_energy : list Row :=
  [<["water" := "77.3"]> (<["foodName" := "carp"]> (<["foodCode" := "121102"]> ∅))].
Definition sample_nutrient : list Row :=
  [<["Ca" := "38"]> (<["foodName" := "other"]> (<["foodCode" := "121102"]> ∅));
   <["Ca" := "5"]> (<["foodCode" := "121103"]> ∅)].

End MergeSpec.

(** ** Categories of pairs: [extract_category_from_filename] and the scan of
    [process_directory] *)

Module Discover.
Import Re.

Definition suffix_alt : regex := Alt (Lit "-energy") (Lit "-nutrient").

(** The first pattern of [extract_category_from_filename]. *)
Definition numbered_pattern_source : string := "(.+?)-\d+(?:-energy|-nutrient)".

Definition numbered_pattern : regex :=
  Seq (Group 1 (Plus false dot))
      (Seq (Lit "-") (Seq (Plus true digit) suffix_alt)).

(** Its second, looser pattern. *)
Definition plain_pattern_source : string := "(.+?)(?:-energy|-nutrient)".

Definition plain_pattern : regex :=
  Seq (Group 1 (Plus false dot)) suffix_alt.

(** [s.rfind(c)] *)
Fixpoint rfind (c : ascii) (s : string) : option nat :=
  match s with
  | EmptyString => None
  | String a s' =>
      match rfind c s' with
      | Some i => Some (S i)
      | None => if Ascii.eqb a c then Some 0 else None
      end
  end.

(** [Path(s).name] on a POSIX system: the last component of [s] that is
    neither empty nor ["."]. *)
Definition path_name (s : string) : string :=
  List.last
    (List.filter (λ c, negb (String.eqb c "" || String.eqb c "."))
       (Py.split "/" s))
    EmptyString.

(** [Path(s).stem]: the name without its last suffix; a dot that starts or
    ends the name begins no suffix (CPython up to 3.13). *)
Definition path_stem (s : string) : string :=
  let name := path_name s in
  match rfind "." name with
  | Some i =>
      if (0 <? i)%nat && (i <? String.length name - 1)%nat
      then String.substring 0 i name
      else name
  | None => name
  end.

Definition extract_category_from_filename (filename : string) : string :=
  match re_match numbered_pattern filename with
  | Some m => group_text m 1
  | None =>
      match re_match plain_pattern filename with
      | Some m => group_text m 1
      | None => path_stem filename
      end
  end.

(** The image files found so far: base name to (directory, file name). *)
Record found := Found {
  energy_files : gmap string (string * string);
  nutrient_files : gmap string (string * string)
}.

(** The body of the two loops over [os.walk]. *)
Definition scan_file (root : string) (acc : found) (file : string) : found :=
  if Py.endswith "-energy.png" file then
    Found (<[Py.replace "-energy.png" "" file := (root, file)]> (energy_files acc))
          (nutrient_files acc)
  else if Py.endswith "-nutrient.png" file then
    Found (energy_files acc)
          (<[Py.replace "-nutrient.png" "" file := (root, file)]> (nutrient_files acc))
  else acc.

(** [walk] lists what [os.walk] yields: each directory with its files. *)
Definition scan (walk : list (string * list string)) : found :=
  foldl (λ acc dir, foldl (scan_file dir.1) acc dir.2) (Found ∅ ∅) walk.

(** The base names that have both images. *)
Definition pair_names (walk : list (string * list string)) : gset string :=
  dom (energy_files (scan walk)) ∩ dom (nutrient_files (scan walk)).

(** [category_map]: the category of every pair, computed from its base
    name. *)
Definition category_map (walk : list (string * list string)) : gmap string string :=
  set_to_map (λ base_name, (base_name, extract_category_from_filename base_name))
             (pair_names walk).

End Discover.

(** ** The second pass: [extract_base_category] and
    [merge_similar_categories] *)

Module SecondPass.
Import Re.

Definition base_pattern_source : string := "(.+?)\d+$".

Definition base_pattern : regex :=
  Seq (Group 1 (Plus false dot)) (Seq (Plus true digit) Eol).

Definition extract_base_category (category : string) : string :=
  match re_match base_pattern category with
  | Some m => group_text m 1
  | None => category
  end.

(** A JSON file of the intermediate directory: its stem and the rows it
    holds. *)
Record json_file := JsonFile {
  stem : string;
  rows : list Row
}.

(** [category_groups[base].append(f)] on a [defaultdict(list)], whose keys
    stay in the order of their first use. *)
Fixpoint group_append (base : string) (f : json_file)
  (groups : list (string * list json_file)) : list (string * list json_file) :=
  match groups with
  | [] => [(base, [f])]
  | (b, fs) :: gs =>
      if String.eqb b base then (b, fs ++ [f]) :: gs
      else (b, fs) :: group_append base f gs
  end.

Record classified := Classified {
  category_groups : list (string * list json_file);
  standalone_files : list json_file
}.

(** The body of the loop over [json_files]. *)
Definition classify_file (acc : classified) (f : json_file) : classified :=
  if Py.startswith "merged_" (stem f) then acc
  else
    let base_category := extract_base_category (stem f) in
    if String.eqb base_category (stem f)
    then Classified (category_groups acc) (standalone_files acc ++ [f])
    else Classified (group_append base_category f (category_groups acc))
                    (standalone_files acc).

Definition classify (json_files : list json_file) : classified :=
  foldl classify_file (Classified [] []) json_files.

(** The name of a final artifact in the output directory. *)
Definition merged_name (base : string) : string :=
  "merged_" +:+ base +:+ ".json".

(** The loop over the groups. A sort that raises ends the whole pass: the
    loop has no handler around it. *)
Fixpoint write_groups (groups : list (string * list json_file))
  (out : gmap string (list Row)) : gmap string (list Row) * option exn :=
  match groups with
  | [] => (out, None)
  | (base_category, files) :: groups' =>
      let all_data := concat (rows <$> files) in
      match Sort.sort_food_data_by_code all_data with
      | Raise e => (out, Some e)
      | Ok sorted_data =>
          write_groups groups'
            (match sorted_data with
             | [] => out
             | _ => <[merged_name base_category := sorted_data]> out
             end)
      end
  end.

(** The loop over the standalone files; an exception is logged here. *)
Definition write_standalone (out : gmap string (list Row)) (f : json_file)
  : gmap string (list Row) :=
  match Sort.sort_food_data_by_code (rows f) with
  | Ok sorted_data => <[merged_name (stem f) := sorted_data]> out
  | Raise _ => out
  end.

(** [merge_similar_categories]: [json_files] is what the glob over the
    intermediate directory lists, [out] the output directory before the
    pass. The result is the output directory after it, and the exception
    that ended it, if any. *)
Definition merge_similar_categories (json_files : list json_file)
  (out : gmap string (list Row)) : gmap string (list Row) * option exn :=
  let c := classify json_files in
  match write_groups (category_groups c) out with
  | (out', Some e) => (out', Some e)
  | (out', None) => (foldl write_standalone out' (standalone_files c), None)
  end.

End SecondPass.

(** ** The response text: [extract_markdown_table] *)

Module Fence.
Import Re.

Definition fence_pattern_source : string :=
  "^\s*```(?:markdown|MARKDOWN|md|MD)?\s*[\n]?(.*?)\s*```\s*$".

Definition nl : regex := Lit (String Py.newline EmptyString).

Definition fence_word : regex :=
  Alt (Lit "markdown") (Alt (Lit "MARKDOWN") (Alt (Lit "md") (Lit "MD"))).

(** The pattern is used with [re.DOTALL]: its dot matches every character. *)
Definition fence_pattern : regex :=
  Cat [Bol; Star true space; Lit "```"; Opt fence_word; Star true space;
       Opt nl; Group 1 (Star false dotall); Star true space; Lit "```";
       Star true space; Eol].

Definition extract_markdown_table (response_text : string) : string :=
  match re_fullmatch fence_pattern response_text with
  | Some m => Py.strip (group_text m 1)
  | None => Py.strip response_text
  end.

End Fence.

(** ** The parsers: [parse_markdown_table] and [parse_table_data] *)

Module Parser.
Import Re.

(** The em dash and the en dash of the source's patterns lie above U+00FF:
    no character of a text of the model is one of them. *)
Definition beyond : regex := Chr (λ _, false).

Definition pipe : regex := Lit "|".

(** The class of the separator row, "[-:\s|]". *)
Definition separator_char : regex :=
  Chr (λ c, Ascii.eqb c "-" || Ascii.eqb c ":" || Py.is_space c || Ascii.eqb c "|").

Definition table_pattern_source : string :=
  "^\s*\|(.*?)\|\s*\n\|([-:\s|]+)\|\s*\n((?:\|.*?\|\s*(?:\n|$))+)".

(** Used with [re.DOTALL]. *)
Definition table_pattern : regex :=
  Cat [Bol; Star true space; pipe; Group 1 (Star false dotall); pipe;
       Star true space; Fence.nl;
       pipe; Group 2 (Plus true separator_char); pipe; Star true space; Fence.nl;
       Group 3 (Plus true
         (Cat [pipe; Star false dotall; pipe; Star true space;
               Alt Fence.nl Eol]))].

(** The slice [l[1:-1]]. *)
Definition inner {A : Type} (l : list A) : list A := removelast (tail l).

(** [for i, cell in enumerate(cells): if i < len(columns): item[columns[i]] = cell],
    the cells numbered from [offset]. *)
Definition bind_cells (columns : list string) (offset : nat) (cells : list string)
  (item : Row) : Row :=
  foldl (λ m ic,
           match columns !! (ic.1 + offset)%nat with
           | Some column => <[column := ic.2]> m
           | None => m
           end) item (imap (λ i cell, (i, cell)) cells).

Definition has_identity (item : Row) : bool :=
  Merge.has_key "foodCode" item && Merge.has_key "foodName" item.

(** One pass of the loop over [data_rows]: the row it appends, if any. *)
Definition parse_row (columns : list string) (row : string) : option Row :=
  let cells := Py.strip <$> inner (Py.split "|" row) in
  if (length cells <? 2)%nat then None
  else
    let item := bind_cells columns 0 cells ∅ in
    if has_identity item then Some item else None.

(** The second strategy's pattern for the first two columns,
    with its look-ahead. *)
Definition line_pattern_source : string :=
  "(\d+[a-zA-Z]?)\s+([^\d]+?)(?=\s+\d|\s+Tr|\s+—|\s+-|$)".

Definition spaces : regex := Plus true space.

Definition line_pattern : regex :=
  Cat [Group 1 (Seq (Plus true digit) (Opt letter)); spaces;
       Group 2 (Plus false (Chr (λ c, negb (Py.is_decimal c))));
       Ahead (Alt (Seq spaces digit)
             (Alt (Seq spaces (Lit "Tr"))
             (Alt (Seq spaces beyond)
             (Alt (Seq spaces (Lit "-")) Eol))))].

Definition value_pattern_source : string :=
  "((?:\d+\.\d+|\d+|Tr|—|-|–|[A-Za-z]+)(?:\s+|$))".

Definition value_pattern : regex :=
  Group 1
    (Seq (Alt (Cat [Plus true digit; Lit "."; Plus true digit])
         (Alt (Plus true digit)
         (Alt (Lit "Tr")
         (Alt beyond
         (Alt (Lit "-")
         (Alt beyond (Plus true letter)))))))
         (Alt spaces Eol)).

(** [re.split(r'\s+', s)]: the pieces between the maximal runs of
    whitespace. *)
Fixpoint split_spaces (s : string) : list string :=
  match s with
  | EmptyString => [EmptyString]
  | String c s' =>
      if Py.is_space c then
        match s' with
        | String c' _ => if Py.is_space c' then split_spaces s'
                         else EmptyString :: split_spaces s'
        | EmptyString => [EmptyString; EmptyString]
        end
      else match split_spaces s' with
           | w :: ws => String c w :: ws
           | [] => [String c EmptyString]
           end
  end.

(** The lines the second and third strategies look at. *)
Definition data_lines (text : string) : list string :=
  Py.strip <$>
    List.filter
      (λ line, Py.nonempty (Py.strip line)
               && negb (Py.startswith "---" (Py.strip line))
               && negb (Py.startswith "|" (Py.strip line)))
      (Py.split Py.newline (Py.strip text)).

(** One pass of the second strategy's loop. *)
Definition parse_line (columns : list string) (line : string) : option Row :=
  if (String.length line <? 10)%nat || negb (Py.any Py.is_digit line) then None
  else
    match re_match line_pattern line with
    | None => None
    | Some m =>
        let food_code := Py.strip (group_text m 1) in
        let food_name := Py.strip (group_text m 2) in
        let item : Row := <["foodName" := food_name]> (<["foodCode" := food_code]> ∅) in
        let remaining := Py.strip (Py.drop (match_end m) line) in
        let values :=
          List.filter Py.nonempty (Py.strip <$> re_findall value_pattern remaining) in
        let item := bind_cells columns 2 values item in
        if has_identity item then Some item else None
    end.

(** [parts[i].replace('.', '', 1).isdigit()] or one of the marker tokens:
    where the name of the third strategy stops. *)
Definition is_value_token (part : string) : bool :=
  Py.isdigit (Py.remove_first "." part)
  || String.eqb part "Tr" || String.eqb part "-".

(** The [while] loop that collects [food_name_parts]: the parts taken and
    the parts left. *)
Fixpoint name_parts (parts : list string) : list string * list string :=
  match parts with
  | [] => ([], [])
  | part :: parts' =>
      if is_value_token part then ([], parts)
      else let '(taken, others) := name_parts parts' in (part :: taken, others)
  end.

(** One pass of the third strategy's loop. [line] is not empty and has no
    whitespace at its ends, so [parts[0]] has a last character. *)
Definition parse_parts (columns : list string) (line : string) : option Row :=
  let parts := split_spaces (Py.strip line) in
  if (length parts <? 3)%nat then None
  else
    match parts with
    | [] => None
    | first :: others =>
        if Py.isdigit first
           || (Py.isdigit (Py.but_last first)
               && from_option Py.is_alpha false (Py.last_char first))
        then
          if negb (Py.nonempty first) then None
          else
            let '(food_name_parts, values) := name_parts others in
            match food_name_parts with
            | [] => None
            | _ =>
                let item : Row :=
                  <["foodName" := Py.join " " food_name_parts]>
                    (<["foodCode" := first]> ∅) in
                Some (bind_cells columns 2 values item)
            end
        else None
    end.

Definition parse_table_data (text : string) (columns : list string) : list Row :=
  let lines := data_lines text in
  match omap (parse_line columns) lines with
  | [] => omap (parse_parts columns) lines
  | result => result
  end.

Definition parse_markdown_table (text : string) (columns : list string) : list Row :=
  match re_search table_pattern text with
  | Some m =>
      let data_rows := Py.split Py.newline (Py.strip (group_text m 3)) in
      omap (parse_row columns) data_rows
  | None => parse_table_data text columns
  end.

End Parser.

(** ** One image: [process_image] and [process_image_with_retry] *)

Module Fetch.

(** What a run does that is seen from outside, in the order it happens:
    the sleeps of the back-off and the calls of [process_image], numbered
    from 1. *)
Inductive event : Type :=
| Sleep (seconds : Z)
| Call (attempt : nat).

Record world := World {
  failed_dir : gmap string string;
  temp_responses_dir : gmap string string;
  trace : list event
}.

Definition log_event (e : event) (w : world) : world :=
  World (failed_dir w) (temp_responses_dir w) (trace w ++ [e]).

(** [str(e)] *)
Definition exn_message (e : exn) : string :=
  match e with
  | ValueError msg | TypeError msg | ServiceError msg => msg
  end.

(** The message of the [ValueError] of [process_image]. The source words it
    in Chinese, whose characters are outside the texts of the model. *)
Definition no_data_message (image_name : string) : string :=
  "no valid data could be extracted from " +:+ image_name.

Definition response_log_path (image_name : string) : string :=
  Discover.path_stem image_name +:+ "_response.md".

Definition error_path (image_name : string) : string :=
  Discover.path_stem image_name +:+ "_error.txt".

(** [process_image]. [response] is what the encoding of the image and the
    call of the service come to: the text of the answer, or the exception
    one of them raised, which is not handled here. *)
Definition process_image (response : result string) (image_name : string)
  (is_energy : bool) (w : world) : world * result (list Row) :=
  match response with
  | Raise e => (w, Raise e)
  | Ok content =>
      let columns := if is_energy then Merge.energy_cols else Merge.nutrient_cols in
      let response_text := Fence.extract_markdown_table content in
      let w := World (failed_dir w)
                     (<[response_log_path image_name := response_text]>
                        (temp_responses_dir w))
                     (trace w) in
      let data := Parser.parse_markdown_table response_text columns in
      match data with
      | [] => (w, Raise (ValueError (no_data_message image_name)))
      | _ => (w, Ok data)
      end
  end.

(** The text written to the quarantine file. *)
Definition quarantine_text (max_retries : Z) (last_error : option exn) : string :=
  "Error after " +:+ pretty max_retries +:+ " retries: "
    +:+ from_option exn_message "None" last_error.

(** The [while retries <= self.max_retries] loop. [attempts_left] is
    [max_retries + 1 - retries], which is positive exactly when the guard
    holds; [service k] is the outcome of the service at the attempt made
    after [k] failures. *)
Fixpoint retry_loop (service : nat -> result string) (image_name : string)
  (is_energy : bool) (max_retries : Z) (attempts_left retries : nat)
  (last_error : option exn) (w : world) : world * list Row :=
  match attempts_left with
  | O =>
      (World (<[error_path image_name := quarantine_text max_retries last_error]>
                (failed_dir w))
             (temp_responses_dir w) (trace w), [])
  | S attempts_left' =>
      let w := if (0 <? retries)%nat
               then log_event (Sleep (5 ^ Z.of_nat retries)) w else w in
      let '(w, r) := process_image (service retries) image_name is_energy
                       (log_event (Call (S retries)) w) in
      match r with
      | Ok data =>
          (World (delete (error_path image_name) (failed_dir w))
                 (temp_responses_dir w) (trace w), data)
      | Raise e =>
          retry_loop service image_name is_energy max_retries
            attempts_left' (S retries) (Some e) w
      end
  end.

Definition process_image_with_retry (service : nat -> result string)
  (image_name : string) (is_energy : bool) (max_retries : Z) (w : world)
  : world * list Row :=
  retry_loop service image_name is_energy max_retries
    (Z.to_nat (max_retries + 1)) 0 None w.

End Fetch.

(** *** What a run of the fetcher is measured against *)

Module FetchSpec.
Import Fetch.

(** What attempt [k + 1] comes to, read off the answer of the service. *)
Definition outcome (service : nat -> result string) (image_name : string)
  (is_energy : bool) (k : nat) : result (list Row) :=
  (process_image (service k) image_name is_energy (World ∅ ∅ [])).2.

(** The first attempt that succeeds among [n] attempts, the attempts being
    counted from [from]. *)
Fixpoint first_success (attempt : nat -> result (list Row)) (from n : nat)
  : option (nat * list Row) :=
  match n with
  | O => None
  | S n' =>
      match attempt from with
      | Ok data => Some (from, data)
      | Raise _ => first_success attempt (S from) n'
      end
  end.

(** The number of attempts a run makes when [limit] are allowed. *)
Definition attempts_made (attempt : nat -> result (list Row)) (limit : nat) : nat :=
  match first_success attempt 0 limit with
  | Some (k, _) => S k
  | None => limit
  end.

(** The error of the last of [limit] attempts, none of them successful. *)
Definition last_error (attempt : nat -> result (list Row)) (limit : nat) : option exn :=
  match limit with
  | O => None
  | S k => match attempt k with Raise e => Some e | Ok _ => None end
  end.

(** What is seen of attempt [k], counted from 1: a sleep of [5^(k-1)] when
    [k] is at least 2, then the call. *)
Definition attempt_events (k : nat) : list event :=
  (if (2 <=? k)%nat then [Sleep (5 ^ (Z.of_nat k - 1))] else []) ++ [Call k].

(** What is seen of the attempts [from + 1], ..., [from + n]. *)
Definition events_of (from n : nat) : list event :=
  flat_map attempt_events (seq (S from) n).

(** The sleep before attempt [k]. *)
Definition backoff (k : nat) : Z := 5 ^ (Z.of_nat k - 1).

Definition sleeps (t : list event) : list Z :=
  omap (λ e, match e with Sleep seconds => Some seconds | Call _ => None end) t.

Definition calls (t : list event) : list nat :=
  omap (λ e, match e with Call k => Some k | Sleep _ => None end) t.

(** A service that fails twice, then answers with a one-row table. *)
Definition flaky_service (k : nat) : result string :=
  match k with
  | 0 => Raise (ServiceError "timeout")
  | 1 => Raise (ServiceError "rate limit")
  | _ => Ok MergeSpec.nameless_table
  end.

(** A service whose answers hold no table. *)
Definition wordless_service (k : nat) : result string := Ok "no table here".

(** A service that never answers. *)
Definition dead_service (k : nat) : result string :=
  Raise (ServiceError ("failure " +:+ pretty k)).

(** A world in which the image of the examples was quarantined before. *)
Definition stale_world : world :=
  World {["fish-energy_error.txt" := "Error after 3 retries: old"]} ∅ [].

End FetchSpec.

(** *** What the second pass is measured against *)

Module SecondPassSpec.
Import Re SecondPass.

(** The stem with its trailing run of digits stripped, as the specification
    words the base category. *)
Definition strip_trailing_digits (stem : string) : string :=
  Py.drop_while_end Py.is_decimal stem.

(** The same with the first character of the stem kept in any case. *)
Definition keep_first_strip (stem : string) : string :=
  match stem with
  | EmptyString => EmptyString
  | String c s => String c (strip_trailing_digits s)
  end.

Definition one_line (s : string) : Prop :=
  Py.all (λ c, negb (Ascii.eqb c Py.newline)) s = true.

(** A file the pass skips, a file it treats alone, a file it groups. *)
Definition is_merged (f : json_file) : Prop :=
  Py.startswith "merged_" (stem f) = true.

Definition is_standalone (f : json_file) : Prop :=
  ¬ is_merged f ∧ extract_base_category (stem f) = stem f.

Definition is_member (base : string) (f : json_file) : Prop :=
  ¬ is_merged f ∧ extract_base_category (stem f) ≠ stem f
  ∧ extract_base_category (stem f) = base.

Global Instance is_merged_dec f : Decision (is_merged f).
Proof. unfold is_merged. apply _. Defined.
Global Instance is_standalone_dec f : Decision (is_standalone f).
Proof. unfold is_standalone. apply _. Defined.
Global Instance is_member_dec base f : Decision (is_member base f).
Proof. unfold is_member. apply _. Defined.







Definition base_of (f : json_file) : string := extract_base_category (stem f).

Definition is_grouped (f : json_file) : Prop :=
  ¬ is_merged f ∧ base_of f ≠ stem f.

Global Instance is_grouped_dec f : Decision (is_grouped f).
Proof. unfold is_grouped. apply _. Defined.







(** Parts of [base_pattern], named for the proofs. *)
Definition digits_to_end : regex := Seq (Plus true digit) Eol.

(** How far the lazy repetition of [base_pattern] goes: up to the first
    place from which only digits follow. *)
Fixpoint scan (t : string) : option nat :=
  if Py.nonempty t && Py.all Py.is_decimal t then Some 0%nat
  else match t with
       | String _ t' => S <$> scan t'
       | EmptyString => None
       end.

Definition dot_class (c : ascii) : bool := negb (Ascii.eqb c Py.newline).

End SecondPassSpec.

(** *** Examples for the categories and the fences *)

Module Examples.

(** A directory with one pair whose files are numbered after a hyphen. *)
Definition beef_walk : list (string * list string) :=
  [("images", ["beef-1-energy.png"; "beef-1-nutrient.png"])].

Definition line_break : string := String Py.newline EmptyString.

(** A table of one row inside a fence that opens with [word]. *)
Definition fenced (word : string) : string :=
  "```" +:+ word +:+ line_break +:+ "| a |" +:+ line_break +:+ "```".

End Examples.

(** ** More of the sort, the merge, the parsers and the fetcher

    The notions the further properties of these functions are stated
    with. *)

Module SortOrder.
Import Sort SortSpec.

(** The key of a row whose code is safe. *)
Definition key_of (item : Row) : sort_key := prefix_key (food_code item).

(** The rows of a list that have the key [k], in the order of the list. *)
Definition with_key (k : sort_key) (data : list Row) : list Row :=
  filter (λ item, key_of item = k) data.

(** A row on whose code [int] raises: [isdigit] accepts the code and one of
    its characters is no decimal digit, or the code starts with more decimal
    digits than the limit of [int]. *)
Definition unsafe_row (item : Row) : Prop := safe_code (food_code item) = false.

Global Instance unsafe_row_dec item : Decision (unsafe_row item).
Proof. unfold unsafe_row. apply _. Defined.

(** The exception of [int] on the code of an unsafe row: the digits are
    counted first. *)
Definition error_of (item : Row) : exn :=
  if Py.over_limit (food_code item) then limit_error else int_error.

(** The first unsafe row of a list: the one whose key is computed first. *)
Definition first_unsafe (data : list Row) : option Row :=
  head (filter unsafe_row data).

(** Rows that tie: the codes "007" and "7" have the same key. *)
Definition tied_rows : list Row :=
  [<["foodName" := "b"]> (row_of_code "12");
   <["foodName" := "first"]> (row_of_code "007");
   <["foodName" := "second"]> (row_of_code "7")].

End SortOrder.

Module MergeShape.
Import Merge MergeSpec.

(** The food codes of the records of a list, in order. *)
Definition codes_of (rs : list Row) : list (option string) :=
  (λ r : Row, r !! "foodCode") <$> rs.

(** The row a side holds for a code, the empty row when it has none. *)
Definition side_row (code : string) (data : list Row) : Row :=
  default ∅ (row_for code data).

(** A code is named when the row of one of the sides has a [foodName]. *)
Definition named (energy_data nutrient_data : list Row) (code : string) : Prop :=
  is_Some (side_row code energy_data !! "foodName")
  ∨ is_Some (side_row code nutrient_data !! "foodName").

(** The fields of the two schemas. *)
Definition schema : list string := energy_cols ++ nutrient_cols.

(** The rows [index_by_code] enters: those with a food code that is not
    empty. *)
Definition coded (data : list Row) : list Row :=
  filter (λ item, has_food_code item = true) data.

(** A row with a field of no schema. *)
Definition stray_row : Row :=
  <["note" := "x"]> (<["foodName" := "carp"]> (<["foodCode" := "121102"]> ∅)).

End MergeShape.

Module ParserSpec.

(** The two identity fields as a set. *)
Definition identity_set : gset string := {["foodCode"; "foodName"]}.

End ParserSpec.

Module FenceSpec.
Import Re Fence.

(** The words the pattern lists after the opening fence. *)
Definition fence_words : list string := ["markdown"; "MARKDOWN"; "md"; "MD"].

Definition backtick : ascii := "`".

Definition fence : string := "```".

(** A text of whitespace only, and a text without a backtick. *)
Definition blank (s : string) : Prop := Py.all Py.is_space s = true.
Definition tickless (s : string) : Prop := Py.any (Ascii.eqb backtick) s = false.

(** A fence opens with one of the listed words, or with no word in front of
    a text that starts with none of them. *)
Definition opens (word body : string) : Prop :=
  word ∈ fence_words
  ∨ (word = EmptyString ∧ Forall (λ w, Py.startswith w body = false) fence_words).

(** A text in a fence: whitespace, the opening fence and its word, the
    text, the closing fence, whitespace. *)
Definition fenced_text (lead word body trail : string) : string :=
  lead +:+ fence +:+ word +:+ body +:+ fence +:+ trail.

(** The end of [fence_pattern], from the whitespace in front of the closing
    fence, and its part after the word. *)
Definition closing : regex :=
  Seq (Star true space) (Seq (Lit "```") (Seq (Star true space) (Seq Eol Eps))).

Definition after_word : regex :=
  Seq (Star true space) (Seq (Opt nl) (Seq (Group 1 (Star false dotall)) closing)).

End FenceSpec.

Module FetchMoreSpec.
Import Fetch FetchSpec.

(** The seconds a run sleeps in all. *)
Definition total_sleep (t : list event) : Z := foldr Z.add 0%Z (sleeps t).

(** The schema of an image. *)
Definition columns_of (is_energy : bool) : list string :=
  if is_energy then Merge.energy_cols else Merge.nutrient_cols.

End FetchMoreSpec.

(** ** [sort_json_files_in_directory], the [--sort-only] mode *)

Module SortFiles.

(** What a JSON file of the directory holds: an array of rows, as the
    pipeline writes them (objects whose values are texts, of characters
    below U+0100 as all texts here); a JSON value that is no array; or a
    text that [json.load] refuses. Arrays with other elements, and texts
    that cannot be written back as UTF-8, are outside this type. *)
Inductive json_value : Type :=
| JArray (data : list Row)
| JOther
| JInvalid.

(** What the function prints, line by line. *)
Inductive report : Type :=
| NotADirectory
| NoJsonFiles
| Starting (files : nat)
| NotAnArray (name : string)
| SortedFile (name : string) (rows : nat)
| FailedFile (name : string)
| Finished (files : nat).

(** One pass of the loop over [json_files]: the file as it is left, and the
    line printed. An exception of [json.load] or of the sort is caught by
    the handler of the loop, before the file is opened for writing. *)
Definition sort_file (file : string * json_value) : (string * json_value) * report :=
  let '(name, content) := file in
  match content with
  | JInvalid => (file, FailedFile name)
  | JOther => (file, NotAnArray name)
  | JArray data =>
      match Sort.sort_food_data_by_code data with
      | Ok sorted_data => ((name, JArray sorted_data), SortedFile name (length data))
      | Raise _ => (file, FailedFile name)
      end
  end.

(** [sort_json_files_in_directory]. [directory] is [None] when the path
    does not exist or is no directory, and else lists the files the glob
    [*.json] finds, each name once, with what they hold. The result is
    these files after the run and the lines printed. *)
Definition sort_json_files_in_directory
  (directory : option (list (string * json_value)))
  : option (list (string * json_value)) * list report :=
  match directory with
  | None => (None, [NotADirectory])
  | Some [] => (Some [], [NoJsonFiles])
  | Some json_files =>
      let done := sort_file <$> json_files in
      (Some (done.*1),
       [Starting (length json_files)] ++ done.*2 ++ [Finished (length json_files)])
  end.

(** The files a run leaves. *)
Definition files_after (directory : option (list (string * json_value)))
  : option (list (string * json_value)) :=
  (sort_json_files_in_directory directory).1.

End SortFiles.

(** ** File names that [extract_category_from_filename] is written for *)

Module CategorySpec.
Import Discover.

(** Some hyphen of [s] is followed by a character of the class [p]. *)
Fixpoint dash_before (p : ascii → bool) (s : string) : bool :=
  match s with
  | EmptyString => false
  | String a s' =>
      (Ascii.eqb a "-" && match s' with String b _ => p b | EmptyString => false end)
      || dash_before p s'
  end.

(** The two suffixes of an image file, before the extension. *)
Definition kinds : list string := ["-energy"; "-nutrient"].

(** The first letters of the two kinds. *)
Definition kind_letter (c : ascii) : bool := Ascii.eqb c "e" || Ascii.eqb c "n".

Definition hyphen : string := "-".

End CategorySpec.

(** ** A pair of images and the whole run: [process_image_pair] and
    [process_directory]

    The fetches of a pair, and the pairs themselves, run interleaved on one
    thread. They write different files, and the counters and sets of the
    processor are updated under a lock, one pair at a time: the model runs
    the energy fetch of a pair before its nutrient fetch, and the pairs one
    after the other, in the order [order] gives. *)

Module Pipeline.
Import Fetch Discover.

(** The processor: its files, and the fields that [__init__] sets up. *)
Record state := State {
  files : world;
  temp_middle_dir : gmap string (list Row);
  results_by_category : list (string * list Row);
  successful_pairs : gset string;
  failed_pairs : gset string;
  total_images : nat;
  processed_images : nat;
  failed_images : nat
}.

(** A pair as [process_directory] lists it: the directory and the name of
    each image, the base name, and the category that [category_map] holds
    for the base name. *)
Record pair := Pair {
  energy_image : string * string;
  nutrient_image : string * string;
  base_name : string;
  category : string
}.

(** [Path(root) / file], as the key of the service. *)
Definition image_path (image : string * string) : string :=
  image.1 +:+ "/" +:+ image.2.

(** How [process_image_pair] ends: it returns, or [_report_progress]
    divides by a [total_images] of zero. *)
Inductive pair_exit : Type :=
| Returned (merged_data : option (list Row))
| ZeroDivision.

(** [results_by_category[category].extend(data)] on a [defaultdict(list)],
    whose keys stay in the order of their first use. *)
Fixpoint extend_category (category : string) (data : list Row)
  (results : list (string * list Row)) : list (string * list Row) :=
  match results with
  | [] => [(category, data)]
  | (c, rows) :: results' =>
      if String.eqb c category then (c, rows ++ data) :: results'
      else (c, rows) :: extend_category category data results'
  end.

(** The updates of a failed pair: the name joins [failed_pairs], and both
    counters grow by two. *)
Definition count_failure (name : string) (st : state) : state :=
  State (files st) (temp_middle_dir st) (results_by_category st)
        (successful_pairs st) ({[name]} ∪ failed_pairs st)
        (total_images st) (processed_images st + 2) (failed_images st + 2).

(** The updates of a pair that has records: the intermediate file is
    written, the records join those of the category, the name joins
    [successful_pairs]. *)
Definition count_success (name category : string) (merged_data : list Row)
  (st : state) : state :=
  State (files st) (<[name +:+ ".json" := merged_data]> (temp_middle_dir st))
        (extend_category category merged_data (results_by_category st))
        ({[name]} ∪ successful_pairs st) (failed_pairs st)
        (total_images st) (processed_images st + 2) (failed_images st).

(** The name a pair is counted under: the stem of the energy image without
    the text "-energy". *)
Definition pair_name (p : pair) : string :=
  Py.replace "-energy" "" (path_stem (energy_image p).2).

(** [process_image_pair]. [service] gives, for the path of an image, the
    answers of the service attempt by attempt. After the counters are
    updated [_report_progress] divides by [total_images]; when that is zero
    the exception reaches the handler of the function, which counts a
    failure and calls [_report_progress] again, whose exception leaves the
    function. *)
Definition process_image_pair (service : string → nat → result string)
  (max_retries : Z) (p : pair) (st : state) : state * pair_exit :=
  let name := pair_name p in
  let '(w1, energy_data) :=
    process_image_with_retry (service (image_path (energy_image p)))
      (energy_image p).2 true max_retries (files st) in
  let '(w2, nutrient_data) :=
    process_image_with_retry (service (image_path (nutrient_image p)))
      (nutrient_image p).2 false max_retries w1 in
  let merged_data := Merge.records (Merge.merge_data energy_data nutrient_data) in
  let st := State w2 (temp_middle_dir st) (results_by_category st)
                  (successful_pairs st) (failed_pairs st)
                  (total_images st) (processed_images st) (failed_images st) in
  let st := match merged_data with
            | [] => count_failure name st
            | _ => count_success name (category p) merged_data st
            end in
  if (total_images st =? 0)%nat then (count_failure name st, ZeroDivision)
  else (st, Returned (match merged_data with [] => None | _ => Some merged_data end)).

(** [process_with_semaphore]: an exception that leaves [process_image_pair]
    is logged, and the base name joins [failed_pairs]. *)
Definition process_with_semaphore (service : string → nat → result string)
  (max_retries : Z) (st : state) (p : pair) : state :=
  match process_image_pair service max_retries p st with
  | (st, Returned _) => st
  | (st, ZeroDivision) =>
      State (files st) (temp_middle_dir st) (results_by_category st)
            (successful_pairs st) ({[base_name p]} ∪ failed_pairs st)
            (total_images st) (processed_images st) (failed_images st)
  end.

(** The pair of a base name that has both images. *)
Definition pair_of (f : found) (name : string) : option pair :=
  energy ← energy_files f !! name;
  nutrient ← nutrient_files f !! name;
  Some (Pair energy nutrient name (extract_category_from_filename name)).

(** The loop that saves the records of every category that has some. *)
Definition save_categories (st : state) : state :=
  State (files st)
        (foldl (λ dir cd, match cd.2 with
                          | [] => dir
                          | _ => <[cd.1 +:+ ".json" := cd.2]> dir
                          end) (temp_middle_dir st) (results_by_category st))
        (results_by_category st) (successful_pairs st) (failed_pairs st)
        (total_images st) (processed_images st) (failed_images st).

(** What the glob [*.json] over the intermediate directory lists, each file
    with its stem and its rows. *)
Definition json_files_of (dir : gmap string (list Row)) : list SecondPass.json_file :=
  (λ nr, SecondPass.JsonFile (path_stem nr.1) nr.2)
    <$> filter (λ nr, Py.endswith ".json" nr.1 = true) (map_to_list dir).

(** [sorted] on strings, by insertion. *)
Fixpoint insert_name (x : string) (l : list string) : list string :=
  match l with
  | [] => [x]
  | y :: l' => if Py.str_ltb y x then y :: insert_name x l' else x :: y :: l'
  end.

Definition sorted_names (names : gset string) : list string :=
  foldr insert_name [] (elements names).

(** The list of the failed pairs, written when there is one. *)
Definition write_failed_pairs (st : state) : state :=
  if decide (failed_pairs st = ∅) then st
  else
    State (World (<["failed_pairs.txt" :=
                      Py.join (String Py.newline EmptyString)
                        (sorted_names (failed_pairs st))]> (failed_dir (files st)))
                 (temp_responses_dir (files st)) (trace (files st)))
          (temp_middle_dir st) (results_by_category st)
          (successful_pairs st) (failed_pairs st)
          (total_images st) (processed_images st) (failed_images st).

(** The pairs of a directory, in the order [order] lists their base names:
    the order in which their tasks end, each pair once. *)
Definition pairs_in (walk : list (string * list string)) (order : list string)
  : list pair :=
  omap (pair_of (scan walk)) order.

(** The processor as [__init__] leaves it, over the files found on disk. *)
Definition fresh (w : world) (middle : gmap string (list Row)) : state :=
  State w middle [] ∅ ∅ 0 0 0.

(** [process_directory]. [output_dir] is the output directory before the
    run; the result is the processor and the output directory after it, and
    the exception that ended the second pass, if any: it leaves
    [process_directory] before the list of failed pairs is written. *)
Definition process_directory (service : string → nat → result string)
  (max_retries : Z) (walk : list (string * list string)) (order : list string)
  (st : state) (output_dir : gmap string (list Row))
  : state * gmap string (list Row) * option exn :=
  let pairs := pairs_in walk order in
  let st := State (files st) (temp_middle_dir st) (results_by_category st)
                  (successful_pairs st) (failed_pairs st)
                  (size (pair_names walk) * 2) (processed_images st)
                  (failed_images st) in
  let st := foldl (process_with_semaphore service max_retries) st pairs in
  let st := save_categories st in
  match SecondPass.merge_similar_categories (json_files_of (temp_middle_dir st))
          output_dir with
  | (out, Some e) => (st, out, Some e)
  | (out, None) => (write_failed_pairs st, out, None)
  end.

(** What the service makes of one image, and the records of a pair: what
    the two fetches return depends on the answers of the service alone. *)
Definition rows_of (service : string → nat → result string) (max_retries : Z)
  (image : string * string) (is_energy : bool) : list Row :=
  (process_image_with_retry (service (image_path image)) image.2 is_energy
     max_retries (World ∅ ∅ [])).2.

Definition pair_records (service : string → nat → result string) (max_retries : Z)
  (p : pair) : list Row :=
  Merge.records
    (Merge.merge_data (rows_of service max_retries (energy_image p) true)
                      (rows_of service max_retries (nutrient_image p) false)).

(** A pair fails when the merge of its two images has no record. *)
Definition fails (service : string → nat → result string) (max_retries : Z)
  (p : pair) : Prop :=
  pair_records service max_retries p = [].

Global Instance fails_dec service max_retries p : Decision (fails service max_retries p).
Proof. unfold fails. apply _. Defined.

(** The processor after the second pass of a run, and the output
    directory. *)
Definition processor_after (service : string → nat → result string)
  (max_retries : Z) (walk : list (string * list string)) (order : list string)
  (st : state) (output_dir : gmap string (list Row)) : state :=
  (process_directory service max_retries walk order st output_dir).1.1.

(** The processor in front of each pair of a run: the states the loop over
    the tasks goes through. *)
Fixpoint states_before (service : string → nat → result string) (max_retries : Z)
  (st : state) (pairs : list pair) : list (state * pair) :=
  match pairs with
  | [] => []
  | p :: pairs' =>
      (st, p) :: states_before service max_retries
                   (process_with_semaphore service max_retries st p) pairs'
  end.

(** The processor when the tasks of [process_directory] start. *)
Definition started (walk : list (string * list string)) (st : state) : state :=
  State (files st) (temp_middle_dir st) (results_by_category st)
        (successful_pairs st) (failed_pairs st)
        (size (pair_names walk) * 2) (processed_images st) (failed_images st).

(** The files after the two fetches of a pair. *)
Definition fetched (service : string → nat → result string) (max_retries : Z)
  (p : pair) (w : world) : world :=
  (process_image_with_retry (service (image_path (nutrient_image p)))
     (nutrient_image p).2 false max_retries
     (process_image_with_retry (service (image_path (energy_image p)))
        (energy_image p).2 true max_retries w).1).1.

Definition with_files (w : world) (st : state) : state :=
  State w (temp_middle_dir st) (results_by_category st)
        (successful_pairs st) (failed_pairs st)
        (total_images st) (processed_images st) (failed_images st).


Definition sample_service (path : string) (k : nat) : result string :=
  if String.eqb path "images/fish-energy.png"
  then Ok MergeSpec.nameless_table
  else Raise (ServiceError "no answer").


End Pipeline.

(** ** Tables in Markdown, as [parse_markdown_table] reads them *)

Module TableSpec.
Import Re Parser.

(** The class of [separator_char]. *)
Definition separator_class (c : ascii) : bool :=
  Ascii.eqb c "-" || Ascii.eqb c ":" || Py.is_space c || Ascii.eqb c "|".

Definition bar : string := "|".
Definition line_end : string := String Py.newline EmptyString.

(** A line of a table: cells between pipes. *)
Definition row_line (cells : list string) : string :=
  bar +:+ Py.join bar cells +:+ bar.

(** A table: the header line, the separator line, the lines of the rows. *)
Definition table_text (header separator : string) (rows : list (list string)) : string :=
  bar +:+ header +:+ bar +:+ line_end
  +:+ bar +:+ separator +:+ bar +:+ line_end
  +:+ Py.join line_end (row_line <$> rows).

(** The same from what stands between the pipes of the row lines. *)
Definition table_text_of (header separator : string) (inner : list string) : string :=
  bar +:+ header +:+ bar +:+ line_end
  +:+ bar +:+ separator +:+ bar +:+ line_end
  +:+ Py.join line_end ((λ r, bar +:+ r +:+ bar) <$> inner).

(** A cell holds neither a pipe nor a line break. *)
Definition cell_ok (cell : string) : Prop :=
  Py.all (λ c, negb (Ascii.eqb c "|") && negb (Ascii.eqb c Py.newline)) cell = true.

(** The row of a list of cells: the cells stripped and bound to the columns
    in order, when there are at least two of them. *)
Definition cells_to_row (columns : list string) (cells : list string) : option Row :=
  if (length cells <? 2)%nat then None
  else
    let item := bind_cells columns 0 (Py.strip <$> cells) ∅ in
    if has_identity item then Some item else None.

(** The repeated part of [table_pattern]: one line of the table. *)
Definition row_pattern : regex :=
  Cat [pipe; Star false dotall; pipe; Star true space; Alt Fence.nl Eol].

(** The lines of the rows, given what stands between the pipes of each. *)
Definition lines_text (inner : list string) : string :=
  Py.join line_end ((λ r, bar +:+ r +:+ bar) <$> inner).

(** The end of a line of [row_pattern]: the pipe, whitespace, and a line
    break or the end of the text. *)
Definition line_tail : regex :=
  Seq pipe (Seq (Star true space) (Seq (Alt Fence.nl Eol) Eps)).

(** The parts of [table_pattern] from the pipe that ends the separator
    line, and from the pipe that ends the header line. *)
Definition after_separator : regex :=
  Seq pipe (Seq (Star true space) (Seq Fence.nl
    (Seq (Group 3 (Plus true row_pattern)) Eps))).

Definition after_header : regex :=
  Seq pipe (Seq (Star true space) (Seq Fence.nl
    (Seq pipe (Seq (Group 2 (Plus true separator_char)) after_separator)))).

(** Characters other than [c]. *)
Definition free_of (c : ascii) (s : string) : Prop :=
  Py.all (λ x, negb (Ascii.eqb x c)) s = true.

End TableSpec.

Module ReadSpec.
Import Re Fence FenceSpec TableSpec.

(** An answer of the service that holds a table: the table between
    whitespace, in a fence. *)
Definition fenced_table (lead word pad1 table pad2 trail : string) : string :=
  fenced_text lead word (pad1 +:+ table +:+ pad2) trail.

End ReadSpec.

(** ** Lines of plain text, as the second strategy of [parse_table_data] reads them *)

Module LineSpec.
Import Re Parser.

(** A run of decimal digits. *)
Definition digits (s : string) : Prop :=
  s ≠ EmptyString ∧ Py.all Py.is_decimal s = true.

(** Nothing, or one letter. *)
Definition letter_opt (l : string) : Prop :=
  l = EmptyString ∨ ∃ c, l = String c EmptyString ∧ Py.is_ascii_letter c = true.

(** A food code: digits, and at most one letter after them. *)
Definition code_shape (code : string) : Prop :=
  ∃ d l, code = d +:+ l ∧ digits d ∧ letter_opt l.

(** A name of one word: no digit and no whitespace. *)
Definition word_char (c : ascii) : bool := negb (Py.is_decimal c) && negb (Py.is_space c).
Definition word (s : string) : Prop :=
  s ≠ EmptyString ∧ Py.all word_char s = true.

(** A value as the tables print it: a number, a number with a decimal
    point, or one of the marks "Tr" and "-". *)
Inductive value_token : string → Prop :=
| token_number d : digits d → value_token d
| token_decimal a b : digits a → digits b → value_token (a +:+ "." +:+ b)
| token_trace : value_token "Tr"
| token_dash : value_token "-".

(** The values of a line, each after one blank. *)
Fixpoint tail_of (values : list string) : string :=
  match values with
  | [] => EmptyString
  | v :: values' => " " +:+ v +:+ tail_of values'
  end.

(** A line of plain text: the code, the name and the values, one blank
    between them. *)
Definition line_of (code name : string) (values : list string) : string :=
  Py.join " " (code :: name :: values).

(** The look-ahead of [line_pattern]. *)
Definition value_ahead : regex :=
  Alt (Seq spaces digit)
    (Alt (Seq spaces (Lit "Tr"))
      (Alt (Seq spaces beyond)
        (Alt (Seq spaces (Lit "-")) Eol))).

(** The first character of a value: no whitespace, and a digit, the "T" of
    "Tr" or the dash. *)
Inductive token_head : string → Prop :=
| head_digit c t : Py.is_decimal c = true → token_head (String c t)
| head_trace t : token_head ("Tr" +:+ t)
| head_dash t : token_head ("-" +:+ t).

(** A text that does not start with whitespace. *)
Definition no_space_head (s : string) : Prop :=
  match s with String c _ => Py.is_space c = false | EmptyString => True end.

(** The alternatives of [value_pattern]. *)
Definition value_alt : regex :=
  Alt (Cat [Plus true digit; Lit "."; Plus true digit])
    (Alt (Plus true digit)
      (Alt (Lit "Tr")
        (Alt beyond
          (Alt (Lit "-")
            (Alt beyond (Plus true letter)))))).

(** What follows a value: nothing, or a blank and a text that starts with
    no whitespace. *)
Definition after_value (s : string) : Prop :=
  s = EmptyString ∨ ∃ t, s = " " +:+ t ∧ no_space_head t.

(** The matches of [value_pattern] on the values of a line: each value
    with the blank after it. *)
Fixpoint pieces (values : list string) : list string :=
  match values with
  | [] => []
  | [v] => [v]
  | v :: values' => (v +:+ " ") :: pieces values'
  end.

(** A text without whitespace. *)
Definition spaceless (s : string) : Prop :=
  Py.all (λ c, negb (Py.is_space c)) s = true.

(** A text that neither starts nor ends with whitespace. *)
Definition trimmed (s : string) : Prop :=
  no_space_head s
  ∧ (s = EmptyString ∨ ∃ a c, s = a +:+ String c EmptyString ∧ Py.is_space c = false).

(** What a line of plain text holds. *)
Record entry := Entry {
  entry_code : string;
  entry_name : string;
  entry_values : list string
}.

(** The line of an entry. *)
Definition entry_line (e : entry) : string :=
  line_of (entry_code e) (entry_name e) (entry_values e).

(** An entry that the second strategy reads: its line has ten characters
    or more. *)
Definition entry_ok (e : entry) : Prop :=
  code_shape (entry_code e) ∧ word (entry_name e)
  ∧ Forall value_token (entry_values e)
  ∧ (10 ≤ String.length (entry_line e))%nat.

(** The text of the entries, one line for each. *)
Definition text_of (entries : list entry) : string :=
  Py.join (String Py.newline EmptyString) (entry_line <$> entries).

(** The row of an entry: the code, the name, and the values under the
    columns from the third on. *)
Definition entry_row (columns : list string) (e : entry) : Row :=
  list_to_map (zip (drop 2 columns) (entry_values e))
  ∪ <["foodName" := entry_name e]> (<["foodCode" := entry_code e]> ∅).

End LineSpec.

(** * Properties *)

Module PyFacts.

Lemma app_cons c a b : String c a +:+ b = String c (a +:+ b).
Proof. reflexivity. Qed.

Lemma app_empty_l b : EmptyString +:+ b = b.
Proof. reflexivity. Qed.

Lemma app_empty_r a : a +:+ EmptyString = a.
Proof. induction a as [|c a IH]; [done|]. by rewrite app_cons, IH. Qed.

Lemma app_assoc a b c : (a +:+ b) +:+ c = a +:+ (b +:+ c).
Proof. induction a as [|x a IH]; [done|]. by rewrite !app_cons, IH. Qed.

Lemma length_app a b :
  String.length (a +:+ b) = (String.length a + String.length b)%nat.
Proof. induction a as [|x a IH]; [done|]. rewrite app_cons. simpl. by rewrite IH. Qed.

Lemma take_drop_while p s : Py.take_while p s +:+ Py.drop_while p s = s.
Proof.
  induction s as [|c s IH]; simpl; [done|].
  destruct (p c); [by rewrite app_cons, IH|done].
Qed.

Lemma all_take_while p s : Py.all p (Py.take_while p s) = true.
Proof. induction s as [|c s IH]; cbn; [done|]. destruct (p c) eqn:E; cbn; by rewrite ?E. Qed.

Lemma substring_prefix a b : String.substring 0 (String.length a) (a +:+ b) = a.
Proof.
  induction a as [|c a IH]; [by destruct b|].
  rewrite app_cons. simpl. by rewrite IH.
Qed.

Lemma substring_skip a b n :
  String.substring (String.length a) n (a +:+ b) = String.substring 0 n b.
Proof. induction a as [|c a IH]; [done|]. rewrite app_cons. simpl. done. Qed.

Lemma substring_take_while p s :
  String.substring 0 (String.length (Py.take_while p s)) s = Py.take_while p s.
Proof. rewrite <- (take_drop_while p s) at 2. apply substring_prefix. Qed.

Lemma all_app p a b : Py.all p (a +:+ b) = Py.all p a && Py.all p b.
Proof.
  induction a as [|c a IH]; [done|].
  rewrite app_cons. simpl. by rewrite IH, andb_assoc.
Qed.

End PyFacts.

Module ReFacts.
Import Re.

Lemma run_star_chr g p st k :
  run (Star g (Chr p)) st k = star_chr g p (pos st) (rest st) (caps st) k.
Proof.
  destruct st as [n s cs]. cbn [run pos rest caps].
  assert (Hf : (String.length s < S (String.length s))%nat) by lia.
  revert Hf. generalize (S (String.length s)) as fuel.
  intros fuel; revert fuel n.
  induction s as [|c s IH]; intros fuel n Hf.
  - destruct fuel; [cbn in Hf; lia|]. cbn. destruct g; destruct (k _); reflexivity.
  - destruct fuel; [cbn in Hf; lia|]. cbn in Hf.
    cbn [star_chr star_loop run rest pos]. destruct (p c) eqn:Hp.
    + unfold advance. cbn [pos rest caps].
      replace (n <? S n)%nat with true by (symmetry; apply Nat.ltb_lt; lia).
      rewrite <- (IH fuel (S n)) by lia. reflexivity.
    + destruct g; destruct (k _); reflexivity.
Qed.

Lemma run_Seq a b st k : run (Seq a b) st k = run a st (λ st', run b st' k).
Proof. reflexivity. Qed.
Lemma run_Group i a st k : run (Group i a) st k = run a st (λ st', k (close_group i st st')).
Proof. reflexivity. Qed.
Lemma run_Alt a b st k :
  run (Alt a b) st k = match run a st k with Some m => Some m | None => run b st k end.
Proof. reflexivity. Qed.
Lemma run_Chr p st k :
  run (Chr p) st k =
  match rest st with
  | String c s' => if p c then k (advance st s') else None
  | EmptyString => None
  end.
Proof. reflexivity. Qed.
Lemma run_Eps st k : run Eps st k = k st.
Proof. reflexivity. Qed.

(** A greedy repetition in front of a continuation that never fails takes
    the longest run. *)
Lemma star_greedy_total p n s cs k :
  (∀ st, is_Some (k st)) →
  star_chr true p n s cs k =
  k (MState (n + String.length (Py.take_while p s)) (Py.drop_while p s) cs).
Proof.
  intros Hk. revert n. induction s as [|c s IH]; intros n; cbn.
  - by rewrite Nat.add_0_r.
  - destruct (p c); cbn.
    + rewrite IH. destruct (Hk (MState (S n + String.length (Py.take_while p s)) (Py.drop_while p s) cs)) as [m Hm].
      rewrite Hm. rewrite <- Hm. f_equal. f_equal. lia.
    + by rewrite Nat.add_0_r.
Qed.

(** A greedy repetition in front of a continuation that fails wherever the
    text goes on with a character of the class keeps the longest run. *)
Lemma star_greedy_commit p n s cs k :
  (∀ n' c s' cs', p c = true → k (MState n' (String c s') cs') = None) →
  star_chr true p n s cs k =
  k (MState (n + String.length (Py.take_while p s)) (Py.drop_while p s) cs).
Proof.
  intros Hk. revert n. induction s as [|c s IH]; intros n; cbn [star_chr].
  - cbn. by rewrite Nat.add_0_r.
  - cbn [Py.take_while Py.drop_while]. destruct (p c) eqn:Hc.
    + rewrite IH. cbn [String.length]. rewrite (Hk n c s cs Hc).
      replace (n + S (String.length (Py.take_while p s)))%nat
        with (S n + String.length (Py.take_while p s))%nat by lia.
      by destruct (k _).
    + cbn. by rewrite Nat.add_0_r.
Qed.

Lemma run_Eol st k :
  run Eol st k =
  match rest st with
  | EmptyString => k st
  | String c EmptyString => if Ascii.eqb c Py.newline then k st else None
  | _ => None
  end.
Proof. reflexivity. Qed.

Lemma is_suffix_refl s : is_suffix s s.
Proof. by exists EmptyString. Qed.

Lemma is_suffix_trans u v s : is_suffix u v → is_suffix v s → is_suffix u s.
Proof. intros [p ->] [q ->]. exists (q +:+ p). by rewrite PyFacts.app_assoc. Qed.

Lemma is_suffix_tail c u s : is_suffix (String c u) s → is_suffix u s.
Proof.
  intros [p ->]. exists (p +:+ String c EmptyString).
  by rewrite PyFacts.app_assoc.
Qed.

Lemma star_loop_fails body g k fuel st :
  (∀ st1 k1, (∀ st', is_suffix (rest st') (rest st1) → k1 st' = None) →
     body st1 k1 = None) →
  (∀ st', is_suffix (rest st') (rest st) → k st' = None) →
  star_loop body g k fuel st = None.
Proof.
  intros Hbody. revert st. induction fuel as [|fuel IH]; intros st Hk.
  - cbn [star_loop]. rewrite (Hk st (is_suffix_refl _)). by destruct g.
  - cbn [star_loop]. rewrite (Hk st (is_suffix_refl _)).
    rewrite Hbody; [by destruct g|].
    intros st' Hst'. destruct (pos st <? pos st')%nat; [|done].
    apply IH. intros st2 H2. apply Hk. by eapply is_suffix_trans.
Qed.

(** The matcher calls its continuation on what is left of the text only:
    if the continuation fails on every suffix, the match fails. *)
Lemma run_fails r : ∀ st k,
  (∀ st', is_suffix (rest st') (rest st) → k st' = None) →
  run r st k = None.
Proof.
  induction r as [|p|a IHa b IHb|a IHa b IHb|g a IHa|i a IHa| | |a IHa];
    intros st k Hk.
  - apply Hk, is_suffix_refl.
  - rewrite run_Chr. destruct (rest st) as [|c s'] eqn:Hr; [done|].
    destruct (p c); [|done]. apply Hk. cbn [advance rest].
    apply (is_suffix_tail c), is_suffix_refl.
  - rewrite run_Seq. apply IHa. intros st1 H1. apply IHb.
    intros st2 H2. apply Hk. by eapply is_suffix_trans.
  - rewrite run_Alt. rewrite (IHa st k Hk). by apply IHb.
  - cbn [run]. apply star_loop_fails; [|done]. intros st1 k1 H1. by apply IHa.
  - rewrite run_Group. apply IHa. intros st' Hst'. by apply Hk.
  - cbn [run]. destruct (pos st =? 0)%nat; [|done]. apply Hk, is_suffix_refl.
  - cbn [run]. rewrite (Hk st (is_suffix_refl _)).
    destruct (rest st) as [|c [|]]; try done. by destruct (Ascii.eqb c Py.newline).
  - cbn [run]. destruct (run a st Some); [|done]. apply Hk. apply is_suffix_refl.
Qed.

Lemma run_Lit_fails w st k :
  String.prefix w (rest st) = false → run (Lit w) st k = None.
Proof.
  revert st. induction w as [|c w IH]; intros st Hp.
  - by destruct (rest st).
  - cbn [Lit]. rewrite run_Seq, run_Chr.
    destruct (rest st) as [|a s'] eqn:Hr; [done|].
    cbn [String.prefix] in Hp. destruct (Ascii.eqb_spec c a) as [->|Hne].
    + apply IH. cbn [advance rest]. by destruct (ascii_dec a a).
    + done.
Qed.

Lemma contains_suffix sub u s :
  Py.contains sub s = false → is_suffix u s → String.prefix sub u = false.
Proof.
  intros Hc [p ->]. induction p as [|c p IH].
  - rewrite PyFacts.app_empty_l in Hc. destruct u; cbn [Py.contains] in Hc;
      by apply orb_false_iff in Hc as [? _].
  - apply IH. rewrite PyFacts.app_cons in Hc. cbn [Py.contains] in Hc.
    by apply orb_false_iff in Hc as [_ ?].
Qed.

End ReFacts.

Module SortFacts.
Import Re Sort SortSpec ReFacts PyFacts.


Lemma food_code_match s :
  re_match food_code_pattern s =
  if Py.nonempty (leading_digits s) then
    let n1 := String.length (leading_digits s) in
    let n2 := String.length (letters_after s) in
    Some (Match s (MState (n1 + n2)
                     (Py.drop_while Py.is_ascii_letter (Py.drop_while Py.is_decimal s))
                     [(0, (0, n1 + n2)); (2, (n1, n1 + n2)); (1, (0, n1))]))
  else None.
Proof.
  unfold re_match, food_code_pattern, Plus, digit, letter, leading_digits, letters_after.
  rewrite run_Group, run_Seq, run_Group, run_Seq, run_Chr. cbn [rest start].
  destruct s as [|c s]; [done|]. cbn [Py.take_while].
  destruct (Py.is_decimal c) eqn:Hc; [|done]. cbn [Py.nonempty Py.drop_while].
  rewrite Hc.
  rewrite run_star_chr. cbn [pos rest caps advance start].
  rewrite star_greedy_total.
  2:{ intros st. rewrite run_Group, run_star_chr. rewrite star_greedy_total; [eauto|eauto]. }
  rewrite run_Group, run_star_chr. cbn [pos rest caps close_group].
  rewrite star_greedy_total by eauto. cbn [pos rest caps close_group fmap option_fmap option_map start].
  reflexivity.
Qed.



Lemma decimal_is_digit s : Py.all Py.is_decimal s = true → Py.all Py.is_digit s = true.
Proof.
  induction s as [|c s IH]; simpl; [done|].
  intros [Hc Hs]%andb_true_iff. rewrite IH by done. unfold Py.is_digit. by rewrite Hc.
Qed.

Lemma nonempty_take_while p s :
  Py.nonempty (Py.take_while p s) = true → Py.nonempty s = true.
Proof. by destruct s. Qed.

Lemma py_int_digits s :
  Py.over_limit s = false →
  Py.nonempty s = true → Py.all Py.is_decimal s = true → py_int s = Ok (Py.int_acc 0 s).
Proof. intros H0 H1 H2. unfold py_int, Py.int. by rewrite H0, H1, H2. Qed.

Lemma take_while_idem p s : Py.take_while p (Py.take_while p s) = Py.take_while p s.
Proof.
  induction s as [|c s IH]; [done|]. cbn [Py.take_while].
  destruct (p c) eqn:Hc; [|done]. cbn [Py.take_while]. by rewrite Hc, IH.
Qed.

(** The limit bears on the leading digits alone. *)
Lemma over_limit_leading s : Py.over_limit (leading_digits s) = Py.over_limit s.
Proof. unfold Py.over_limit, leading_digits. by rewrite take_while_idem. Qed.

Lemma group1_text s :
  String.substring 0 (String.length (leading_digits s) - 0) s = leading_digits s.
Proof. rewrite Nat.sub_0_r. apply substring_take_while. Qed.

Lemma group2_text s :
  String.substring (String.length (leading_digits s))
    (String.length (leading_digits s) + String.length (letters_after s)
     - String.length (leading_digits s)) s = letters_after s.
Proof.
  replace (String.length (leading_digits s) + String.length (letters_after s)
           - String.length (leading_digits s))%nat
    with (String.length (letters_after s)) by lia.
  transitivity (String.substring (String.length (leading_digits s))
                  (String.length (letters_after s))
                  (leading_digits s +:+ Py.drop_while Py.is_decimal s)).
  { unfold leading_digits. by rewrite take_drop_while. }
  rewrite substring_skip. apply substring_take_while.
Qed.

Lemma get_sort_key_prefix item :
  safe_code (food_code item) = true →
  get_sort_key item = Ok (prefix_key (food_code item)).
Proof.
  unfold get_sort_key, safe_code. fold (food_code item).
  generalize (food_code item) as s. intros s [Hsafe Hlimit%negb_true_iff]%andb_true_iff.
  cbv zeta. unfold prefix_key.
  destruct (Py.isdigit s) eqn:Hd.
  - simpl in Hsafe. unfold Py.isdigit in Hd. apply andb_true_iff in Hd as [Hn _].
    rewrite py_int_digits by done. by rewrite Hn, Hsafe.
  - assert (Py.nonempty s && Py.all Py.is_decimal s = false) as ->.
    { apply not_true_iff_false. intros [Hn Ha]%andb_true_iff.
      unfold Py.isdigit in Hd. by rewrite Hn, (decimal_is_digit _ Ha) in Hd. }
    rewrite food_code_match.
    destruct (Py.nonempty (leading_digits s)) eqn:Hl; [|done].
    cbv zeta. unfold group. cbn [final caps span_of Nat.eqb subject].
    rewrite group1_text, group2_text.
    rewrite py_int_digits; [done|by rewrite over_limit_leading|done|apply all_take_while].
Qed.

(** *** The order of the keys *)


Lemma key_leb_spec k1 k2 :
  key_leb k1 k2 = true ↔ (k1.1 < k2.1)%Z ∨ (k1.1 = k2.1 ∧ String.le k1.2 k2.2).
Proof.
  unfold key_leb, key_ltb, Py.str_ltb, String.le, String.leb, String.ltb.
  destruct k1 as [a1 b1], k2 as [a2 b2]; simpl.
  rewrite (String.compare_antisym b1 b2).
  destruct (Z.eqb_spec a2 a1) as [->|Hne].
  - destruct (String.compare b2 b1); simpl; split; intros Hk; try done; try lia;
      try (right; done); destruct Hk as [?|[_ ?]]; try lia; done.
  - destruct (Z.ltb_spec a2 a1) as [Hlt|Hge]; simpl; split; intros Hk;
      try done; try lia; try (destruct Hk as [?|[? _]]; lia).
Qed.

Global Instance key_le_trans : Transitive key_le.
Proof.
  intros k1 k2 k3. unfold key_le. rewrite !key_leb_spec.
  intros [H1|[H1 H1']] [H2|[H2 H2']]; try (left; lia).
  right. split; [lia|]. by etrans.
Qed.

Lemma key_ltb_le k1 k2 : key_ltb k1 k2 = true → key_le k1 k2.
Proof.
  unfold key_le. rewrite key_leb_spec.
  unfold key_ltb, Py.str_ltb, String.ltb, String.le, String.leb.
  destruct (Z.eqb_spec k1.1 k2.1) as [He|Hne].
  - destruct (String.compare k1.2 k2.2) eqn:Hc; try done. intros _. by right.
  - intros ?%Z.ltb_lt. by left.
Qed.

Lemma key_nlt_le k1 k2 : key_ltb k1 k2 = false → key_le k2 k1.
Proof. intros H. unfold key_le, key_leb. by rewrite H. Qed.

(** *** Insertion keeps the elements and the order *)

Section Sorting.
Context {A : Type}.
Implicit Types (x : sort_key * A) (l : list (sort_key * A)).


Lemma insert_keyed_perm x l : insert_keyed x l ≡ₚ x :: l.
Proof.
  induction l as [|y l IH]; simpl; [done|].
  destruct (key_ltb y.1 x.1); [|done].
  rewrite IH. apply perm_swap.
Qed.

Lemma sorted_keyed_perm l : sorted_keyed l ≡ₚ l.
Proof.
  induction l as [|x l IH]; simpl; [done|].
  rewrite insert_keyed_perm. by rewrite IH.
Qed.

Lemma insert_keyed_sorted x l :
  StronglySorted keyed_le l → StronglySorted keyed_le (insert_keyed x l).
Proof.
  induction 1 as [|y l Hl IH Hy]; simpl.
  - repeat constructor.
  - destruct (key_ltb y.1 x.1) eqn:Hlt.
    + constructor; [done|].
      rewrite insert_keyed_perm. constructor; [|done].
      by apply key_ltb_le.
    + constructor; [by constructor|].
      assert (keyed_le x y) by by apply key_nlt_le.
      constructor; [done|].
      eapply Forall_impl; [exact Hy|]. intros z Hz. unfold keyed_le in *. by etrans.
Qed.

Lemma sorted_keyed_sorted l : StronglySorted keyed_le (sorted_keyed l).
Proof.
  induction l as [|x l IH]; simpl; [constructor|]. by apply insert_keyed_sorted.
Qed.

End Sorting.

Lemma decorate_safe data :
  Forall (λ item, safe_code (food_code item) = true) data →
  decorate data = Ok ((λ item, (prefix_key (food_code item), item)) <$> data).
Proof.
  induction 1 as [|item data Hi _ IH]; simpl; [done|].
  rewrite get_sort_key_prefix by done. simpl. rewrite IH. done.
Qed.


Lemma sorted_rows (l : list (sort_key * Row)) :
  Forall (λ x, x.1 = prefix_key (food_code x.2)) l →
  StronglySorted keyed_le l → ascending (l.*2).
Proof.
  intros Hk Hs. induction Hs as [|x l Hl IH Hx]; simpl; [constructor|].
  inversion Hk as [|?? Hkx Hkl]; subst.
  constructor; [by apply IH|].
  assert (Forall (λ y, keyed_le x y ∧ y.1 = prefix_key (food_code y.2)) l) as Hboth
    by (by apply Forall_and).
  apply Forall_fmap. eapply Forall_impl; [exact Hboth|].
  intros y [Hxy Hy]. simpl. unfold keyed_le in Hxy. by rewrite <- Hkx, <- Hy.
Qed.

Lemma sort_safe data :
  Forall (λ item, safe_code (food_code item) = true) data →
  ∃ out, sort_food_data_by_code data = Ok out ∧ out ≡ₚ data ∧ ascending out.
Proof.
  intros Hsafe. unfold sort_food_data_by_code. rewrite decorate_safe by done.
  eexists. split; [reflexivity|]. split.
  - rewrite sorted_keyed_perm. rewrite <- list_fmap_compose. simpl.
    by rewrite list_fmap_id.
  - apply sorted_rows; [|apply sorted_keyed_sorted].
    rewrite sorted_keyed_perm. apply Forall_fmap. by apply Forall_true.
Qed.

(** What a safe code is, spelled out. *)
Lemma safe_code_spec s :
  safe_code s = true ↔
  (Py.isdigit s = true → Py.all Py.is_decimal s = true)
  ∧ (Z.of_nat (String.length (leading_digits s)) ≤ 4300)%Z.
Proof.
  unfold safe_code, Py.over_limit, Py.int_max_str_digits. fold (leading_digits s).
  rewrite andb_true_iff, negb_true_iff, Z.ltb_ge.
  destruct (Py.isdigit s), (Py.all Py.is_decimal s); cbn [implb]; intuition congruence.
Qed.

(** A code with more leading digits than the limit: [int] raises in both
    branches of [get_sort_key]. *)
Lemma get_sort_key_over_limit item :
  Py.over_limit (food_code item) = true → get_sort_key item = Raise limit_error.
Proof.
  unfold get_sort_key. fold (food_code item).
  generalize (food_code item) as s. intros s Hover. cbv zeta.
  assert (Hint : ∀ t, Py.over_limit t = true → py_int t = Raise limit_error).
  { intros t Ht. unfold py_int, Py.int. by rewrite Ht. }
  destruct (Py.isdigit s); [by rewrite Hint|].
  rewrite food_code_match.
  assert (Py.nonempty (leading_digits s) = true) as ->.
  { unfold Py.over_limit, Py.int_max_str_digits in Hover. apply Z.ltb_lt in Hover.
    fold (leading_digits s) in Hover. destruct (leading_digits s); [cbn in Hover; lia|done]. }
  cbv zeta. unfold group. cbn [final caps span_of Nat.eqb subject].
  rewrite group1_text, group2_text. rewrite Hint; [done|].
  by rewrite over_limit_leading.
Qed.

(** *** The claims about the sort *)

(** C2, as stated, fails: the second case of the key is a match of the start
    of the code, not of the whole code. The code "12-3" gets the key
    (12, "") where the claim gives (0, "12-3"), and the rows with codes "5"
    and "12-3" are returned in this order, which descends by the claimed
    key. *)
Lemma sort_key_whole_code_counterexample :
  get_sort_key (row_of_code "12-3") = Ok (12%Z, EmptyString)
  ∧ claimed_key "12-3" = (0%Z, "12-3")
  ∧ sort_food_data_by_code [row_of_code "5"; row_of_code "12-3"]
    = Ok [row_of_code "5"; row_of_code "12-3"]
  ∧ key_ltb (claimed_key "12-3") (claimed_key "5") = true.
Proof. repeat split; vm_compute; reflexivity. Qed.

(** C2, amended: for rows whose codes are safe, the sort returns a
    permutation of its input in ascending order of the key, compared
    lexicographically, where the key of a code is (its value, "") when it is
    a run of decimal digits, else (value of the leading digit run, the
    letters right after that run) when it starts with a decimal digit, else
    (0, the code); and the four example codes come out in the stated
    order. A code is safe when [isdigit] accepts it only if all its
    characters are decimal digits and it starts with at most 4300 decimal
    digits, the limit of [int]; on a code with more leading digits the
    key, and the sort with it, raises the [ValueError] of the limit. *)
Theorem sort_by_prefix_key :
  (∀ item, safe_code (food_code item) = true →
     get_sort_key item = Ok (prefix_key (food_code item)))
  ∧ (∀ data, Forall (λ item, safe_code (food_code item) = true) data →
       ∃ out, sort_food_data_by_code data = Ok out
              ∧ out ≡ₚ data ∧ ascending out)
  ∧ (∀ k1 k2, key_le k1 k2 ↔
       (k1.1 < k2.1)%Z ∨ (k1.1 = k2.1 ∧ String.le k1.2 k2.2))
  ∧ sort_food_data_by_code (row_of_code <$> example_codes)
    = Ok (row_of_code <$> example_sorted)
  ∧ (∀ s, safe_code s = true ↔
       (Py.isdigit s = true → Py.all Py.is_decimal s = true)
       ∧ (Z.of_nat (String.length (leading_digits s)) ≤ 4300)%Z)
  ∧ (∀ item data,
       (4300 < Z.of_nat (String.length (leading_digits (food_code item))))%Z →
       get_sort_key item = Raise limit_error
       ∧ sort_food_data_by_code (item :: data) = Raise limit_error).
Proof.
  split; [exact get_sort_key_prefix|].
  split; [exact sort_safe|].
  split; [intros k1 k2; apply key_leb_spec|].
  split; [vm_compute; reflexivity|].
  split; [exact safe_code_spec|].
  intros item data Hlong.
  assert (get_sort_key item = Raise limit_error) as Hkey.
  { apply get_sort_key_over_limit. unfold Py.over_limit, Py.int_max_str_digits.
    by apply Z.ltb_lt. }
  split; [done|]. unfold sort_food_data_by_code. cbn [decorate]. by rewrite Hkey.
Qed.

Lemma sort_by_prefix_key_witness :
  ∃ out, sort_food_data_by_code (row_of_code <$> example_codes) = Ok out
         ∧ out ≡ₚ row_of_code <$> example_codes ∧ ascending out.
Proof.
  apply (proj1 (proj2 sort_by_prefix_key)).
  repeat constructor.
Defined.

(** C10 fails on the code: [isdigit] accepts the superscript digits, which
    [int] refuses, so the key of such a code raises and the sort with it.
    The rest of the claim holds: a row without a food code gets the key
    (0, ""), which is below every key with a positive number. *)
Theorem sort_raises_on_superscript_digit :
  Py.isdigit superscript_code = true
  ∧ sort_food_data_by_code [row_of_code "121101"; row_of_code superscript_code]
    = Raise (ValueError "invalid literal for int() with base 10")
  ∧ get_sort_key (∅ : Row) = Ok (0%Z, EmptyString)
  ∧ (∀ k : sort_key, (0 < k.1)%Z → key_ltb (0%Z, EmptyString) k = true).
Proof.
  split; [vm_compute; reflexivity|].
  split; [vm_compute; reflexivity|].
  split; [vm_compute; reflexivity|].
  intros [n s] Hn. unfold key_ltb. simpl in *.
  destruct n; [lia|reflexivity|lia].
Qed.

End SortFacts.

Module MergeFacts.
Import Merge MergeSpec.

(** A decidable statement about given lists, settled by evaluation. *)
Ltac by_computation :=
  match goal with |- ?P => apply (bool_decide_unpack P) end; vm_compute; exact I.

Lemma has_food_code_spec (item : Row) :
  has_food_code item = true ↔ ∃ c, item !! "foodCode" = Some c ∧ c ≠ EmptyString.
Proof.
  unfold has_food_code. destruct (item !! "foodCode") as [c|]; split.
  - intros H. exists c. split; [done|]. by destruct c.
  - intros (c' & [= <-] & Hc). by destruct c.
  - done.
  - by intros (c & ? & _).
Qed.

Lemma index_by_code_snoc data item :
  index_by_code (data ++ [item]) =
  if has_food_code item
  then <[default EmptyString (item !! "foodCode") := item]> (index_by_code data)
  else index_by_code data.
Proof. unfold index_by_code. by rewrite foldl_snoc. Qed.

Lemma row_for_snoc code data item :
  row_for code (data ++ [item]) =
  if decide (item !! "foodCode" = Some code) then Some item else row_for code data.
Proof.
  unfold row_for. rewrite filter_app, filter_cons, filter_nil.
  case_decide; [by rewrite last_snoc|by rewrite app_nil_r].
Qed.

(** The dictionary of a side holds, for a non-empty code, the last row with
    that code. *)
Lemma index_by_code_lookup data code :
  code ≠ EmptyString → index_by_code data !! code = row_for code data.
Proof.
  intros Hne. induction data as [|item data IH] using rev_ind; [done|].
  rewrite index_by_code_snoc, row_for_snoc.
  destruct (has_food_code item) eqn:Hh.
  - apply has_food_code_spec in Hh as (c & Hc & Hcne). rewrite Hc. simpl.
    destruct (decide (c = code)) as [->|Hcc].
    + rewrite lookup_insert_eq. by rewrite decide_True.
    + rewrite lookup_insert_ne by done. rewrite decide_False by congruence. done.
  - rewrite decide_False; [done|]. intros Hc.
    assert (has_food_code item = true) as Ht; [|congruence].
    apply has_food_code_spec. eauto.
Qed.

Lemma index_by_code_empty_key data : index_by_code data !! EmptyString = None.
Proof.
  induction data as [|item data IH] using rev_ind; [done|].
  rewrite index_by_code_snoc. destruct (has_food_code item) eqn:Hh; [|done].
  apply has_food_code_spec in Hh as (c & Hc & Hcne). rewrite Hc. simpl.
  by rewrite lookup_insert_ne.
Qed.

Lemma dom_index_by_code data : dom (index_by_code data) = keys data.
Proof.
  induction data as [|item data IH] using rev_ind; [done|].
  rewrite index_by_code_snoc. unfold keys. rewrite omap_app, list_to_set_app_L.
  fold (keys data). rewrite <- IH. simpl.
  destruct (has_food_code item) eqn:Hh.
  - apply has_food_code_spec in Hh as (c & Hc & Hcne). rewrite Hc. simpl.
    rewrite dom_insert_L. set_solver.
  - simpl. set_solver.
Qed.

Lemma elem_of_keys data code :
  code ∈ keys data ↔ code ≠ EmptyString ∧ is_Some (row_for code data).
Proof.
  rewrite <- dom_index_by_code, elem_of_dom.
  destruct (decide (code = EmptyString)) as [->|Hne].
  - rewrite index_by_code_empty_key. split; [by intros []|by intros []].
  - rewrite index_by_code_lookup by done. naive_solver.
Qed.

Lemma row_for_code code data row :
  row_for code data = Some row → row !! "foodCode" = Some code.
Proof.
  unfold row_for. intros Hl. apply last_Some_elem_of in Hl.
  by apply list_elem_of_filter in Hl as [? _].
Qed.


Lemma restrict_lookup cols (row : Row) key :
  restrict cols row !! key = if decide (key ∈ cols) then row !! key else None.
Proof.
  unfold restrict. destruct (row !! key) as [v|] eqn:Hk.
  - case_decide.
    + by apply map_lookup_filter_Some.
    + apply map_lookup_filter_None. right. intros v' Hv'. simpl. done.
  - assert (filter (λ kv : string * string, kv.1 ∈ cols) row !! key = None) as ->.
    { apply map_lookup_filter_None. by left. }
    by case_decide.
Qed.

(** Copying the fields of a schema one by one. *)
Lemma add_energy_lookup (energy_item merged_item : Row) key :
  add_energy energy_item merged_item !! key =
  if decide (key ∈ energy_cols)
  then match energy_item !! key with Some v => Some v | None => merged_item !! key end
  else merged_item !! key.
Proof.
  unfold add_energy. generalize energy_cols as cols. intros cols.
  revert merged_item. induction cols as [|col cols IH]; intros merged_item; cbn [foldl].
  - case_decide as Hin; [by apply elem_of_nil in Hin|done].
  - rewrite IH. destruct (decide (key = col)) as [->|Hne].
    + rewrite (decide_True (P := col ∈ col :: cols)) by set_solver.
      destruct (energy_item !! col) as [v|] eqn:Hv.
      * rewrite lookup_insert_eq. by case_decide.
      * by case_decide.
    + assert ((match energy_item !! col with
               | Some v => <[col:=v]> merged_item
               | None => merged_item
               end) !! key = merged_item !! key) as ->.
      { destruct (energy_item !! col); [by rewrite lookup_insert_ne|done]. }
      destruct (decide (key ∈ cols)).
      * by rewrite decide_True by set_solver.
      * by rewrite decide_False by set_solver.
Qed.

Lemma add_nutrient_lookup (nutrient_item merged_item : Row) key :
  add_nutrient nutrient_item merged_item !! key =
  if decide (key ∈ filter (λ k, k ∉ identity_fields) nutrient_cols)
  then match nutrient_item !! key with Some v => Some v | None => merged_item !! key end
  else merged_item !! key.
Proof.
  unfold add_nutrient. generalize nutrient_cols as cols. intros cols.
  revert merged_item. induction cols as [|col cols IH]; intros merged_item; cbn [foldl].
  - rewrite filter_nil. case_decide as Hin; [by apply elem_of_nil in Hin|done].
  - rewrite IH. rewrite filter_cons. fold identity_fields.
    destruct (decide (col ∉ identity_fields)) as [Hin|Hout].
    + rewrite bool_decide_true by done.
      destruct (decide (key = col)) as [->|Hne].
      * rewrite (decide_True (P := col ∈ col :: _)) by set_solver.
        destruct (nutrient_item !! col) as [v|] eqn:Hv.
        -- rewrite lookup_insert_eq. by case_decide.
        -- by case_decide.
      * assert ((match nutrient_item !! col with
                 | Some v => <[col:=v]> merged_item
                 | None => merged_item
                 end) !! key = merged_item !! key) as ->.
        { destruct (nutrient_item !! col); [by rewrite lookup_insert_ne|done]. }
        destruct (decide (key ∈ filter (λ k, k ∉ identity_fields) cols)).
        -- by rewrite decide_True by set_solver.
        -- by rewrite decide_False by set_solver.
    + rewrite bool_decide_false by done. done.
Qed.

(** The two loops build the union of the two restrictions. *)
Lemma loops_union (energy_item nutrient_item : Row) :
  add_nutrient nutrient_item (add_energy energy_item ∅) =
  restrict (filter (λ key, key ∉ identity_fields) nutrient_cols) nutrient_item
    ∪ restrict energy_cols energy_item.
Proof.
  apply map_eq. intros key.
  rewrite add_nutrient_lookup, add_energy_lookup, lookup_union, !restrict_lookup.
  rewrite lookup_empty.
  repeat case_decide; destruct (nutrient_item !! key), (energy_item !! key); done.
Qed.

Lemma has_key_spec key (item : Row) : has_key key item = true ↔ is_Some (item !! key).
Proof. unfold has_key. apply bool_decide_eq_true. Qed.

Lemma backfill_fill key (nutrient_item merged_item : Row) :
  backfill key nutrient_item merged_item = fill key nutrient_item merged_item.
Proof.
  unfold backfill, fill, has_key.
  destruct (merged_item !! key) as [v|] eqn:Hm, (nutrient_item !! key) as [w|] eqn:Hn;
    simpl; try done.
  all: repeat (rewrite bool_decide_true by eauto; simpl);
       repeat (rewrite bool_decide_false by (by intros []); simpl);
       repeat (rewrite bool_decide_true by eauto; simpl); done.
Qed.

Lemma complete_spec (record : Row) : complete record = true ↔ is_complete record.
Proof. unfold complete, is_complete. by rewrite andb_true_iff, !has_key_spec. Qed.

Lemma fill_complete_id key (nutrient_item record : Row) :
  is_Some (record !! key) → fill key nutrient_item record = record.
Proof. unfold fill. by intros [v ->]. Qed.

(** One pass of the loop builds the record of the specification, and
    appends it exactly when it is complete. *)
Lemma merge_code_spec energy_data nutrient_data code :
  code ≠ EmptyString →
  merge_code (index_by_code energy_data) (index_by_code nutrient_data) code =
  (spec_record energy_data nutrient_data code,
   bool_decide (is_complete (spec_record energy_data nutrient_data code))).
Proof.
  intros Hne. unfold merge_code, spec_record.
  rewrite !index_by_code_lookup by done. cbv zeta.
  rewrite loops_union, !backfill_fill.
  set (n := default ∅ (row_for code nutrient_data)).
  set (r := _ ∪ _).
  destruct (complete r) eqn:Hc.
  - apply complete_spec in Hc as Hc'. destruct Hc' as [H1 H2].
    rewrite (fill_complete_id "foodCode") by done.
    rewrite (fill_complete_id "foodName") by done.
    by rewrite bool_decide_true by done.
  - destruct (complete (fill "foodName" n (fill "foodCode" n r))) eqn:Hc2.
    + apply complete_spec in Hc2. by rewrite bool_decide_true.
    + rewrite bool_decide_false; [done|]. intros Hc3%complete_spec. congruence.
Qed.

Lemma merge_step_spec energy_data nutrient_data acc code :
  code ≠ EmptyString →
  merge_step (index_by_code energy_data) (index_by_code nutrient_data) acc code =
  if decide (is_complete (spec_record energy_data nutrient_data code))
  then Merged (records acc ++ [spec_record energy_data nutrient_data code]) (warned acc)
  else Merged (records acc) (warned acc ++ [spec_record energy_data nutrient_data code]).
Proof.
  intros Hne. unfold merge_step. rewrite merge_code_spec by done.
  case_decide.
  - by rewrite bool_decide_true by done.
  - by rewrite bool_decide_false by done.
Qed.

Lemma merge_fold energy_data nutrient_data codes acc :
  Forall (λ code, code ≠ EmptyString) codes →
  foldl (merge_step (index_by_code energy_data) (index_by_code nutrient_data)) acc codes =
  Merged
    (records acc ++ filter is_complete (spec_record energy_data nutrient_data <$> codes))
    (warned acc ++
       filter (λ r, ¬ is_complete r) (spec_record energy_data nutrient_data <$> codes)).
Proof.
  intros Hcodes. revert acc.
  induction Hcodes as [|code codes Hne _ IH]; intros acc.
  - cbn [foldl fmap list_fmap]. rewrite !filter_nil, !app_nil_r. by destruct acc.
  - cbn [foldl]. rewrite IH, merge_step_spec by done.
    rewrite fmap_cons, !filter_cons.
    destruct (decide (is_complete (spec_record energy_data nutrient_data code))).
    + rewrite decide_False by tauto. cbn [records warned].
      f_equal. by rewrite <- (assoc_L (++)).
    + rewrite decide_True by done. cbn [records warned].
      f_equal. by rewrite <- (assoc_L (++)).
Qed.


Lemma keys_nonempty energy_data nutrient_data :
  Forall (λ code, code ≠ EmptyString) (elements (keys energy_data ∪ keys nutrient_data)).
Proof.
  apply Forall_forall. intros code Hc%elem_of_elements.
  apply elem_of_union in Hc as [Hc|Hc]; by apply elem_of_keys in Hc as [? _].
Qed.

Lemma merge_data_lists energy_data nutrient_data :
  merge_data energy_data nutrient_data =
  Merged
    (filter is_complete
       (spec_record energy_data nutrient_data
          <$> elements (keys energy_data ∪ keys nutrient_data)))
    (filter (λ r, ¬ is_complete r)
       (spec_record energy_data nutrient_data
          <$> elements (keys energy_data ∪ keys nutrient_data))).
Proof.
  assert (merge_data energy_data nutrient_data =
          foldl (merge_step (index_by_code energy_data) (index_by_code nutrient_data))
            (Merged [] []) (elements (keys energy_data ∪ keys nutrient_data))) as ->.
  { unfold merge_data. rewrite !dom_index_by_code.
    destruct energy_data, nutrient_data;
      first [ done
            | unfold keys; cbn [omap list_omap list_to_set];
              rewrite union_empty_l_L, elements_empty; done ]. }
  rewrite merge_fold by apply keys_nonempty. done.
Qed.

Lemma fill_lookup_ne key key' (nutrient_row record : Row) :
  key ≠ key' → fill key nutrient_row record !! key' = record !! key'.
Proof.
  intros Hne. unfold fill.
  destruct (record !! key), (nutrient_row !! key); try done.
  by rewrite lookup_insert_ne.
Qed.

(** The record of a code carries that code. *)
Lemma spec_record_code energy_data nutrient_data code :
  code ∈ keys energy_data ∪ keys nutrient_data →
  spec_record energy_data nutrient_data code !! "foodCode" = Some code.
Proof.
  intros Hc. unfold spec_record. cbv zeta.
  rewrite fill_lookup_ne by done.
  generalize (eq_refl (row_for code energy_data)).
  generalize (eq_refl (row_for code nutrient_data)).
  generalize (row_for code nutrient_data) at 1 3 4 as on.
  generalize (row_for code energy_data) at 1 3 as oe.
  intros oe on Hn He. symmetry in Hn, He.
  assert (Hr : (restrict (filter (λ key, key ∉ identity_fields) nutrient_cols)
                  (default ∅ on)
                ∪ restrict energy_cols (default ∅ oe)) !! "foodCode"
               = default ∅ oe !! "foodCode").
  { rewrite lookup_union, !restrict_lookup.
    rewrite decide_False by by_computation.
    rewrite decide_True by by_computation.
    by rewrite (left_id None _). }
  unfold fill. rewrite Hr.
  destruct oe as [erow|].
  - cbn [default from_option id] in *. rewrite (row_for_code _ _ _ He).
    by rewrite Hr, (row_for_code _ _ _ He).
  - assert (code ∈ keys nutrient_data) as Hk.
    { apply elem_of_union in Hc as [Hc|Hc]; [|done].
      apply elem_of_keys in Hc as [_ [? Hx]]. congruence. }
    apply elem_of_keys in Hk as [_ [nrow Hnrow]].
    rewrite Hnrow in Hn. subst on.
    cbn [default from_option id] in *. rewrite lookup_empty.
    rewrite (row_for_code _ _ _ Hnrow). by rewrite lookup_insert_eq.
Qed.

Lemma elem_of_records energy_data nutrient_data r :
  r ∈ records (merge_data energy_data nutrient_data) ↔
  ∃ code, code ∈ keys energy_data ∪ keys nutrient_data
          ∧ r = spec_record energy_data nutrient_data code ∧ is_complete r.
Proof.
  rewrite merge_data_lists. simpl. rewrite list_elem_of_filter, list_elem_of_fmap.
  setoid_rewrite elem_of_elements. naive_solver.
Qed.


Lemma restrict_dom cols (row : Row) : dom (restrict cols row) ⊆ list_to_set cols.
Proof.
  intros key [v Hv]%elem_of_dom. rewrite restrict_lookup in Hv.
  case_decide; [|done]. by apply elem_of_list_to_set.
Qed.

Lemma spec_record_energy_only energy_data code :
  spec_record energy_data [] code =
  restrict energy_cols (default ∅ (row_for code energy_data)).
Proof.
  unfold spec_record, fill. cbv zeta. simpl.
  assert (restrict (filter (λ key, key ∉ identity_fields) nutrient_cols) (∅ : Row) = ∅) as ->.
  { apply map_eq. intros k. rewrite restrict_lookup, lookup_empty. by case_decide. }
  rewrite (left_id_L ∅ (∪)). rewrite !lookup_empty.
  by destruct (_ !! "foodCode"), (_ !! "foodName").
Qed.

(** C1: the records [merge_data] returns are, in the order the codes are
    visited, the records the specification builds for the codes of the union
    of the two key sets, those that lack [foodCode] or [foodName] after the
    backfill left out and reported in a warning instead; with no nutrient
    rows the records have energy fields only, and both identity fields. *)
Theorem merge_data_builds_spec_records :
  (∀ energy_data nutrient_data,
     let built := spec_record energy_data nutrient_data
                    <$> elements (keys energy_data ∪ keys nutrient_data) in
     records (merge_data energy_data nutrient_data) = filter is_complete built
     ∧ warned (merge_data energy_data nutrient_data)
       = filter (λ r, ¬ is_complete r) built)
  ∧ (∀ energy_data nutrient_data code,
       code ∈ keys energy_data ∪ keys nutrient_data →
       let r := spec_record energy_data nutrient_data code in
       (is_complete r → r ∈ records (merge_data energy_data nutrient_data))
       ∧ (¬ is_complete r →
            r ∈ warned (merge_data energy_data nutrient_data)
            ∧ r ∉ records (merge_data energy_data nutrient_data)))
  ∧ (∀ energy_data nutrient_data r,
       r ∈ records (merge_data energy_data nutrient_data) →
       ∃ code, code ∈ keys energy_data ∪ keys nutrient_data
               ∧ r = spec_record energy_data nutrient_data code)
  ∧ (∀ energy_data,
       Forall (λ r, dom r ⊆ list_to_set energy_cols ∧ is_complete r)
         (records (merge_data energy_data []))).
Proof.
  split; [|split; [|split]].
  - intros e n. cbv zeta. by rewrite merge_data_lists.
  - intros e n code Hc. cbv zeta. rewrite merge_data_lists. simpl. split.
    + intros Hcomplete. apply list_elem_of_filter. split; [done|].
      apply list_elem_of_fmap. exists code. by rewrite elem_of_elements.
    + intros Hmissing. split.
      * apply list_elem_of_filter. split; [done|].
        apply list_elem_of_fmap. exists code. by rewrite elem_of_elements.
      * by intros [? _]%list_elem_of_filter.
  - intros e n r (code & Hc & Hr & _)%elem_of_records. eauto.
  - intros e. apply Forall_forall. intros r (code & Hc & -> & Hcomplete)%elem_of_records.
    split; [|done]. rewrite spec_record_energy_only. apply restrict_dom.
Qed.

Lemma merge_data_builds_spec_records_witness :
  records (merge_data sample_energy sample_nutrient)
  = [<["Ca" := "38"]> (<["water" := "77.3"]> (<["foodName" := "carp"]>
       (<["foodCode" := "121102"]> ∅)))]
  ∧ (is_complete (spec_record sample_energy sample_nutrient "121102") →
     spec_record sample_energy sample_nutrient "121102"
       ∈ records (merge_data sample_energy sample_nutrient)).
Proof.
  split.
  - vm_compute. reflexivity.
  - apply (proj1 (proj2 merge_data_builds_spec_records) sample_energy sample_nutrient "121102").
    vm_compute. set_solver.
Defined.

(** C6, as stated, fails: a record is kept for having the key [foodName],
    whatever its value. A row with an empty name, as the table parser
    returns for an empty cell, is merged into a record with an empty
    name. *)
Lemma merged_name_empty_counterexample :
  Parser.parse_markdown_table nameless_table energy_cols = [nameless_row]
  ∧ records (merge_data [nameless_row] []) = [nameless_row]
  ∧ nameless_row !! "foodName" = Some EmptyString.
Proof. repeat split; vm_compute; reflexivity. Qed.

(** C6, amended: every record [merge_data] returns has a food code that is
    not empty and has the field [foodName]; the name itself may be empty. *)
Theorem merged_records_identified energy_data nutrient_data :
  Forall identified (records (merge_data energy_data nutrient_data)).
Proof.
  apply Forall_forall. intros r (code & Hc & -> & [_ Hname])%elem_of_records.
  split; [|done]. exists code. split; [by apply spec_record_code|].
  apply elem_of_union in Hc as [Hc|Hc]; by apply elem_of_keys in Hc as [? _].
Qed.

End MergeFacts.

Module FetchFacts.
Import Fetch FetchSpec.

(** [process_image] touches the response log only, and its result depends
    on the answer of the service alone. *)
Lemma process_image_world response image_name is_energy w :
  failed_dir (process_image response image_name is_energy w).1 = failed_dir w
  ∧ trace (process_image response image_name is_energy w).1 = trace w
  ∧ (process_image response image_name is_energy w).2
    = (process_image response image_name is_energy (World ∅ ∅ [])).2.
Proof.
  unfold process_image. destruct response as [content|e]; [|done].
  cbv zeta. by destruct (Parser.parse_markdown_table _ _).
Qed.

Lemma events_of_S from n :
  events_of from (S n) = attempt_events (S from) ++ events_of (S from) n.
Proof. reflexivity. Qed.

Lemma sleep_event retries (t : list event) :
  (if (0 <? retries)%nat then t ++ [Sleep (5 ^ Z.of_nat retries)] else t)
    ++ [Call (S retries)]
  = t ++ attempt_events (S retries).
Proof.
  unfold attempt_events. destruct retries as [|r].
  - done.
  - replace (Z.of_nat (S (S r)) - 1)%Z with (Z.of_nat (S r)) by lia.
    cbn [Nat.ltb Nat.leb]. by rewrite <- (assoc_L (++)).
Qed.

Lemma first_success_Some attempt from n k data :
  first_success attempt from n = Some (k, data) →
  (from ≤ k < from + n)%nat ∧ attempt k = Ok data
  ∧ ∀ j, (from ≤ j < k)%nat → is_ok (attempt j) = false.
Proof.
  revert from. induction n as [|n IH]; intros from; cbn [first_success]; [done|].
  destruct (attempt from) as [d|e] eqn:Ha.
  - intros [= <- <-]. split; [lia|]. split; [done|]. intros j Hj. lia.
  - intros (Hk & Hok & Hbefore)%IH. split; [lia|]. split; [done|].
    intros j Hj. destruct (decide (j = from)) as [->|Hne].
    + by rewrite Ha.
    + apply Hbefore. lia.
Qed.

Lemma first_success_None attempt from n :
  first_success attempt from n = None →
  ∀ j, (from ≤ j < from + n)%nat → is_ok (attempt j) = false.
Proof.
  revert from. induction n as [|n IH]; intros from; cbn [first_success].
  - intros _ j Hj. lia.
  - destruct (attempt from) as [d|e] eqn:Ha; [done|].
    intros Hn j Hj. destruct (decide (j = from)) as [->|Hne].
    + by rewrite Ha.
    + apply (IH _ Hn). lia.
Qed.

Lemma events_of_app from n m :
  events_of from (n + m) = events_of from n ++ events_of (from + n) m.
Proof.
  unfold events_of. rewrite seq_app, flat_map_app. do 2 f_equal.
Qed.

(** The loop, attempt by attempt. *)
Lemma retry_loop_spec service image_name is_energy max_retries n :
  ∀ retries last w,
  let run := retry_loop service image_name is_energy max_retries n retries last w in
  let attempt := outcome service image_name is_energy in
  match first_success attempt retries n with
  | Some (k, data) =>
      run.2 = data
      ∧ failed_dir run.1 = delete (error_path image_name) (failed_dir w)
      ∧ trace run.1 = trace w ++ events_of retries (S k - retries)
  | None =>
      run.2 = []
      ∧ failed_dir run.1
        = <[error_path image_name :=
              quarantine_text max_retries
                (match n with
                 | O => last
                 | S _ => last_error attempt (retries + n)
                 end)]> (failed_dir w)
      ∧ trace run.1 = trace w ++ events_of retries n
  end.
Proof.
  induction n as [|n IH]; intros retries last w; cbv zeta.
  - cbn [first_success retry_loop fst snd failed_dir trace events_of seq flat_map].
    by rewrite app_nil_r.
  - cbn [first_success retry_loop].
    set (w1 := log_event (Call (S retries)) _).
    destruct (process_image_world (service retries) image_name is_energy w1)
      as (Hf & Ht & Hr).
    destruct (process_image (service retries) image_name is_energy w1) as [w2 r] eqn:Hp.
    cbn [fst snd] in Hf, Ht, Hr. fold (outcome service image_name is_energy retries) in Hr.
    rewrite <- Hr.
    assert (Htrace : trace w2 = trace w ++ attempt_events (S retries)).
    { rewrite Ht. unfold w1. cbn [log_event trace].
      rewrite <- sleep_event. by destruct (0 <? retries)%nat. }
    assert (Hfailed : failed_dir w2 = failed_dir w).
    { rewrite Hf. unfold w1. cbn [log_event failed_dir]. by destruct (0 <? retries)%nat. }
    destruct r as [data|e].
    + cbn [fst snd failed_dir trace]. rewrite Hfailed, Htrace.
      replace (S retries - retries)%nat with 1%nat by lia.
      unfold events_of. cbn [seq flat_map]. by rewrite app_nil_r.
    + specialize (IH (S retries) (Some e) w2). cbv zeta in IH.
      destruct (first_success (outcome service image_name is_energy) (S retries) n)
        as [[k data]|] eqn:Hfs.
      * destruct IH as (H1 & H2 & H3). rewrite H1, H2, H3, Hfailed, Htrace.
        split; [done|]. split; [done|].
        rewrite <- (assoc_L (++)). f_equal.
        apply first_success_Some in Hfs as (Hk & _ & _).
        replace (S k - retries)%nat with (1 + (S k - S retries))%nat by lia.
        rewrite events_of_app, Nat.add_1_r, (events_of_S retries 0).
        change (events_of (S retries) 0) with (@nil event).
        by rewrite app_nil_r.
      * destruct IH as (H1 & H2 & H3). rewrite H1, H2, H3, Hfailed, Htrace.
        split; [done|]. split.
        -- f_equal. f_equal. destruct n as [|n'].
           ++ cbn [last_error]. rewrite Nat.add_1_r. cbn [last_error]. by rewrite <- Hr.
           ++ by replace (S retries + S n')%nat with (retries + S (S n'))%nat by lia.
        -- rewrite events_of_S. by rewrite (assoc_L (++)).
Qed.

Lemma retry_spec service image_name is_energy max_retries w :
  let run := process_image_with_retry service image_name is_energy max_retries w in
  let attempt := outcome service image_name is_energy in
  let limit := Z.to_nat (max_retries + 1) in
  match first_success attempt 0 limit with
  | Some (k, data) =>
      run.2 = data
      ∧ failed_dir run.1 = delete (error_path image_name) (failed_dir w)
      ∧ trace run.1 = trace w ++ events_of 0 (S k)
  | None =>
      run.2 = []
      ∧ failed_dir run.1
        = <[error_path image_name :=
              quarantine_text max_retries (last_error attempt limit)]> (failed_dir w)
      ∧ trace run.1 = trace w ++ events_of 0 limit
  end.
Proof.
  cbv zeta. unfold process_image_with_retry.
  pose proof (retry_loop_spec service image_name is_energy max_retries
                (Z.to_nat (max_retries + 1)) 0 None w) as H.
  cbv zeta in H.
  destruct (first_success _ 0 _) as [[k data]|].
  - by rewrite Nat.sub_0_r in H.
  - destruct H as (H1 & H2 & H3). split; [done|]. split; [|done].
    rewrite H2. by destruct (Z.to_nat (max_retries + 1)).
Qed.

Lemma all_fail_first_success attempt from n :
  (∀ j, (from ≤ j < from + n)%nat → is_ok (attempt j) = false) →
  first_success attempt from n = None.
Proof.
  revert from. induction n as [|n IH]; intros from Hall; cbn [first_success]; [done|].
  destruct (attempt from) as [d|e] eqn:Ha.
  - specialize (Hall from). rewrite Ha in Hall. discriminate Hall. lia.
  - apply IH. intros j Hj. apply Hall. lia.
Qed.

Lemma success_first_success attempt from n k data :
  (from ≤ k < from + n)%nat → attempt k = Ok data →
  (∀ j, (from ≤ j < k)%nat → is_ok (attempt j) = false) →
  first_success attempt from n = Some (k, data).
Proof.
  revert from. induction n as [|n IH]; intros from Hk Hok Hbefore; [lia|].
  cbn [first_success]. destruct (decide (k = from)) as [->|Hne].
  - by rewrite Hok.
  - destruct (attempt from) as [d|e] eqn:Ha.
    + specialize (Hbefore from). rewrite Ha in Hbefore. discriminate Hbefore. lia.
    + apply IH; [lia|done|]. intros j Hj. apply Hbefore. lia.
Qed.

Lemma attempts_made_le attempt limit : (attempts_made attempt limit ≤ limit)%nat.
Proof.
  unfold attempts_made. destruct (first_success attempt 0 limit) as [[k data]|] eqn:H; [|done].
  apply first_success_Some in H as (Hk & _). lia.
Qed.

Lemma calls_events_of from n : calls (events_of from n) = seq (S from) n.
Proof.
  revert from. induction n as [|n IH]; intros from; [done|].
  rewrite events_of_S. unfold calls in *. rewrite omap_app, IH.
  unfold attempt_events. by destruct (2 <=? S from)%nat.
Qed.

Lemma sleeps_events_of from n :
  sleeps (events_of (S from) n) = backoff <$> seq (S (S from)) n.
Proof.
  revert from. induction n as [|n IH]; intros from; [done|].
  rewrite events_of_S. unfold sleeps in *. rewrite omap_app, IH. done.
Qed.

Lemma sleeps_events_of_0 n :
  sleeps (events_of 0 n) = backoff <$> seq 2 (n - 1).
Proof.
  destruct n as [|n]; [done|]. rewrite events_of_S.
  unfold sleeps. rewrite omap_app. fold (sleeps (events_of 1 n)).
  rewrite sleeps_events_of. replace (S n - 1)%nat with n by lia. done.
Qed.

Lemma backoff_increasing a n : StronglySorted Z.lt (backoff <$> seq (S a) n).
Proof.
  revert a. induction n as [|n IH]; intros a; [constructor|].
  cbn [seq fmap list_fmap]. constructor; [apply IH|].
  apply Forall_fmap, Forall_forall. intros k Hk%elem_of_seq.
  unfold backoff. simpl. apply Z.pow_lt_mono_r; lia.
Qed.


(** *** The claims about the fetcher *)

(** C3: a run makes at most [maxRetries + 1] attempts; what is seen of it
    is, attempt after attempt, a sleep of [5^(k-1)] before attempt [k] when
    [k] is at least 2 and no sleep before attempt 1; the sleeps grow
    strictly; a run that fails twice and then succeeds sleeps twice, 5 and
    then 25. *)
Theorem retry_attempts_and_backoff :
  (∀ service image_name is_energy max_retries w,
     let limit := Z.to_nat (max_retries + 1) in
     let made := attempts_made (outcome service image_name is_energy) limit in
     let seen := events_of 0 made in
     trace (process_image_with_retry service image_name is_energy max_retries w).1
       = trace w ++ seen
     ∧ (made ≤ limit)%nat
     ∧ seen = flat_map attempt_events (seq 1 made)
     ∧ calls seen = seq 1 made
     ∧ sleeps seen = backoff <$> seq 2 (made - 1)
     ∧ StronglySorted Z.lt (sleeps seen))
  ∧ (∀ service image_name is_energy max_retries w,
       let attempt := outcome service image_name is_energy in
       is_ok (attempt 0) = false → is_ok (attempt 1) = false →
       is_ok (attempt 2) = true → (2 ≤ max_retries)%Z →
       sleeps (trace (process_image_with_retry service image_name is_energy
                        max_retries w).1)
       = sleeps (trace w) ++ [5; 25]%Z).
Proof.
  split.
  - intros service image_name is_energy max_retries w. cbv zeta.
    split; [|split; [apply attempts_made_le|split; [done|split; [apply calls_events_of|]]]].
    + pose proof (retry_spec service image_name is_energy max_retries w) as H.
      cbv zeta in H. unfold attempts_made.
      destruct (first_success _ 0 _) as [[k data]|]; by destruct H as (_ & _ & ->).
    + rewrite sleeps_events_of_0. split; [done|]. apply backoff_increasing.
  - intros service image_name is_energy max_retries w. cbv zeta. intros H0 H1 H2 Hmax.
    pose proof (retry_spec service image_name is_energy max_retries w) as H.
    cbv zeta in H.
    destruct (outcome service image_name is_energy 2) as [data|] eqn:Hd; [|done].
    rewrite (success_first_success _ 0 _ 2 data) in H.
    + destruct H as (_ & _ & ->). unfold sleeps. rewrite omap_app. done.
    + lia.
    + done.
    + intros j Hj. destruct j as [|[|j]]; [done|done|lia].
Qed.

Lemma retry_attempts_and_backoff_witness :
  sleeps (trace (process_image_with_retry flaky_service "fish-energy.png" true 3
                   stale_world).1)
  = sleeps (trace stale_world) ++ [5; 25]%Z.
Proof.
  apply (proj2 retry_attempts_and_backoff flaky_service "fish-energy.png" true 3%Z
           stale_world); [reflexivity|reflexivity|vm_compute; reflexivity|lia].
Defined.

(** A run whose attempts all fail. *)
Lemma retry_exhausted service image_name is_energy max_retries w :
  (∀ k, (k < Z.to_nat (max_retries + 1))%nat →
     is_ok (outcome service image_name is_energy k) = false) →
  (process_image_with_retry service image_name is_energy max_retries w).2 = []
  ∧ failed_dir (process_image_with_retry service image_name is_energy max_retries w).1
    = <[error_path image_name :=
          quarantine_text max_retries
            (last_error (outcome service image_name is_energy)
               (Z.to_nat (max_retries + 1)))]> (failed_dir w).
Proof.
  intros Hall.
  pose proof (retry_spec service image_name is_energy max_retries w) as H.
  cbv zeta in H. rewrite all_fail_first_success in H.
  2:{ intros j Hj. apply Hall. lia. }
  by destruct H as (H1 & H2 & _).
Qed.

(** C4: when all of the [maxRetries + 1] attempts fail, the run returns
    the empty list and leaves a quarantine file whose text ends with the
    message of the last error; when an attempt succeeds after failures only,
    the run returns its rows and the quarantine file of the image, if there
    was one, is gone. Nothing else in the quarantine directory changes, and
    no exception leaves the run. The message of an exception is the text it
    was raised with, and the file is named after the stem of the image: a
    service that fails with "failure 0" and "failure 1" leaves, with one
    retry, the file fish-energy_error.txt with the text
    "Error after 1 retries: failure 1"; a success at the third attempt
    removes the file fish-energy_error.txt that an earlier run left. *)
Theorem retry_result_and_quarantine :
  (∀ service image_name is_energy max_retries w,
     let attempt := outcome service image_name is_energy in
     let limit := Z.to_nat (max_retries + 1) in
     let run := process_image_with_retry service image_name is_energy max_retries w in
     (∀ k, (k < limit)%nat → is_ok (attempt k) = false) →
     run.2 = []
     ∧ failed_dir run.1
       = <[error_path image_name :=
             quarantine_text max_retries (last_error attempt limit)]> (failed_dir w)
     ∧ ∀ m e, limit = S m → attempt m = Raise e →
         failed_dir run.1 !! error_path image_name
         = Some ("Error after " +:+ pretty max_retries +:+ " retries: "
                   +:+ exn_message e))
  ∧ (∀ service image_name is_energy max_retries w k data,
       let attempt := outcome service image_name is_energy in
       let limit := Z.to_nat (max_retries + 1) in
       let run := process_image_with_retry service image_name is_energy max_retries w in
       (k < limit)%nat → attempt k = Ok data →
       (∀ j, (j < k)%nat → is_ok (attempt j) = false) →
       run.2 = data
       ∧ failed_dir run.1 = delete (error_path image_name) (failed_dir w)
       ∧ failed_dir run.1 !! error_path image_name = None)
  ∧ (∀ msg, exn_message (ValueError msg) = msg
            ∧ exn_message (TypeError msg) = msg
            ∧ exn_message (ServiceError msg) = msg)
  ∧ (∀ image_name,
       error_path image_name = Discover.path_stem image_name +:+ "_error.txt")
  ∧ (let run := process_image_with_retry dead_service "fish-energy.png" true 1
                  (World ∅ ∅ []) in
     run.2 = []
     ∧ failed_dir run.1
       = {[ "fish-energy_error.txt" := "Error after 1 retries: failure 1" ]})
  ∧ (let run := process_image_with_retry flaky_service "fish-energy.png" true 3
                  stale_world in
     failed_dir stale_world
     = {[ "fish-energy_error.txt" := "Error after 3 retries: old" ]}
     ∧ run.2 = [MergeSpec.nameless_row]
     ∧ failed_dir run.1 = ∅).
Proof.
  split; [|split; [|split; [|split; [|split]]]].
  - intros service image_name is_energy max_retries w. cbv zeta. intros Hall.
    destruct (retry_exhausted service image_name is_energy max_retries w Hall)
      as [H1 H2].
    split; [done|]. split; [done|].
    intros m e Hm Hlast. rewrite H2, lookup_insert_eq, Hm.
    cbn [last_error]. by rewrite Hlast.
  - intros service image_name is_energy max_retries w k data. cbv zeta.
    intros Hk Hok Hbefore.
    pose proof (retry_spec service image_name is_energy max_retries w) as H.
    cbv zeta in H. rewrite (success_first_success _ 0 _ k data) in H.
    + destruct H as (H1 & H2 & _). split; [done|]. split; [done|].
      rewrite H2. apply lookup_delete_eq.
    + lia.
    + done.
    + intros j Hj. apply Hbefore. lia.
  - done.
  - done.
  - cbv zeta. split; vm_compute; reflexivity.
  - cbv zeta. repeat split; vm_compute; reflexivity.
Qed.

(** The two runs of the examples, through the general statements: the
    exhausted run of the service that never answers, and the run that
    succeeds at the third attempt over the file an earlier run left. *)
Lemma retry_result_and_quarantine_witness :
  ((process_image_with_retry dead_service "fish-energy.png" true 1 (World ∅ ∅ [])).2 = []
   ∧ failed_dir
       (process_image_with_retry dead_service "fish-energy.png" true 1 (World ∅ ∅ [])).1
     !! "fish-energy_error.txt" = Some "Error after 1 retries: failure 1")
  ∧ ((process_image_with_retry flaky_service "fish-energy.png" true 3 stale_world).2
     = [MergeSpec.nameless_row]
     ∧ failed_dir stale_world !! "fish-energy_error.txt"
       = Some "Error after 3 retries: old"
     ∧ failed_dir
         (process_image_with_retry flaky_service "fish-energy.png" true 3 stale_world).1
       !! "fish-energy_error.txt" = None).
Proof.
  split.
  - assert (Hall : ∀ k, (k < Z.to_nat (1 + 1))%nat →
                     is_ok (outcome dead_service "fish-energy.png" true k) = false)
      by (intros k _; reflexivity).
    destruct (proj1 retry_result_and_quarantine dead_service "fish-energy.png" true 1%Z
                (World ∅ ∅ []) Hall) as (H1 & _ & H3).
    split; [exact H1|].
    exact (H3 1%nat (ServiceError "failure 1") eq_refl eq_refl).
  - destruct (proj1 (proj2 retry_result_and_quarantine) flaky_service "fish-energy.png"
                true 3%Z stale_world 2%nat [MergeSpec.nameless_row])
      as (H1 & _ & H3).
    + vm_compute. lia.
    + vm_compute. reflexivity.
    + intros j Hj. destruct j as [|[|j]]; [reflexivity|reflexivity|lia].
    + split; [exact H1|]. split; [reflexivity|exact H3].
Defined.

(** C8: given an answer of the service, [process_image] raises exactly when
    the parsers return no row; the exception is the [ValueError] of the
    validation, a result with rows is returned as it is, and in the retrying
    fetcher the exception counts as a failed attempt: answers without rows
    at every attempt end in the quarantine file with that message. *)
Theorem process_image_validation :
  (∀ content image_name (is_energy : bool) w,
     let rows := Parser.parse_markdown_table (Fence.extract_markdown_table content)
                   (if is_energy then Merge.energy_cols else Merge.nutrient_cols) in
     let r := (process_image (Ok content) image_name is_energy w).2 in
     (is_ok r = false ↔ rows = [])
     ∧ (r = Raise (ValueError (no_data_message image_name)) ↔ rows = [])
     ∧ (rows ≠ [] → r = Ok rows))
  ∧ (∀ service image_name (is_energy : bool) max_retries w,
       let run := process_image_with_retry service image_name is_energy max_retries w in
       (∀ k, ∃ content, service k = Ok content
          ∧ Parser.parse_markdown_table (Fence.extract_markdown_table content)
              (if is_energy then Merge.energy_cols else Merge.nutrient_cols) = []) →
       (0 ≤ max_retries)%Z →
       run.2 = []
       ∧ failed_dir run.1 !! error_path image_name
         = Some (quarantine_text max_retries
                   (Some (ValueError (no_data_message image_name))))).
Proof.
  split.
  - intros content image_name is_energy w. cbv zeta. unfold process_image. cbv zeta.
    destruct (Parser.parse_markdown_table _ _) as [|row rows]; cbn [snd is_ok].
    + done.
    + split; [split; done|]. split; [split; done|]. done.
  - intros service image_name is_energy max_retries w. cbv zeta. intros Hservice Hmax.
    assert (Hout : ∀ k, outcome service image_name is_energy k
                        = Raise (ValueError (no_data_message image_name))).
    { intros k. destruct (Hservice k) as (content & Hc & Hrows).
      unfold outcome, process_image. rewrite Hc. cbv zeta. by rewrite Hrows. }
    destruct (retry_exhausted service image_name is_energy max_retries w)
      as [H1 H2].
    { intros k _. by rewrite Hout. }
    split; [done|]. rewrite H2, lookup_insert_eq.
    destruct (Z.to_nat (max_retries + 1)) as [|m] eqn:Hm; [lia|].
    cbn [last_error]. by rewrite Hout.
Qed.

Lemma process_image_validation_witness :
  (process_image_with_retry wordless_service "fish-energy.png" true 1 stale_world).2 = []
  ∧ failed_dir
      (process_image_with_retry wordless_service "fish-energy.png" true 1 stale_world).1
    !! error_path "fish-energy.png"
    = Some (quarantine_text 1 (Some (ValueError (no_data_message "fish-energy.png")))).
Proof.
  apply (proj2 process_image_validation wordless_service "fish-energy.png" true 1%Z
           stale_world).
  - intros k. exists "no table here". split; [reflexivity|]. vm_compute. reflexivity.
  - lia.
Defined.

End FetchFacts.

Module BaseFacts.
Import Re SecondPass SecondPassSpec ReFacts PyFacts.

Lemma decimal_not_newline c : Py.is_decimal c = true → Ascii.eqb c Py.newline = false.
Proof.
  intros H. destruct (Ascii.eqb_spec c Py.newline) as [->|]; [|done].
  by vm_compute in H.
Qed.

Lemma run_digits_to_end n t cs k :
  one_line t →
  run digits_to_end (MState n t cs) k =
  if Py.nonempty t && Py.all Py.is_decimal t
  then k (MState (n + String.length t) EmptyString cs)
  else None.
Proof.
  intros Hline. unfold digits_to_end, Plus, digit.
  rewrite run_Seq, run_Seq, run_Chr. cbn [rest].
  destruct t as [|c t]; [done|]. cbn [Py.nonempty Py.all andb].
  destruct (Py.is_decimal c) eqn:Hc; [|done].
  rewrite run_star_chr. cbn [advance pos rest caps].
  rewrite star_greedy_commit.
  2:{ intros n' c' s' cs' Hc'. rewrite run_Eol. cbn [rest].
      destruct s'; [|done]. by rewrite decimal_not_newline. }
  rewrite run_Eol. cbn [rest].
  assert (Hline' : one_line t).
  { unfold one_line in *. cbn [Py.all] in Hline. by apply andb_true_iff in Hline as [_ ?]. }
  clear Hline Hc. cbn [String.length].
  destruct (Py.all Py.is_decimal t) eqn:Hall.
  - assert (Py.drop_while Py.is_decimal t = EmptyString
            ∧ Py.take_while Py.is_decimal t = t) as [-> ->].
    { clear -Hall. induction t as [|a t IH]; [done|]. cbn in *.
      apply andb_true_iff in Hall as [-> Ht]. destruct (IH Ht) as [-> ->]. done. }
    f_equal. f_equal. lia.
  - assert (∃ a u, Py.drop_while Py.is_decimal t = String a u
                   ∧ Py.is_decimal a = false ∧ Ascii.eqb a Py.newline = false)
      as (a & u & -> & Ha & Hnl).
    { clear -Hall Hline'. induction t as [|a t IH]; [done|].
      unfold one_line in *. cbn in *.
      apply andb_true_iff in Hline' as [Hnl Ht].
      destruct (Py.is_decimal a) eqn:Ha.
      - simpl in Hall. apply (IH Ht Hall).
      - exists a, t. split; [done|]. split; [done|]. by apply negb_true_iff. }
    destruct u; [by rewrite Hnl|done].
Qed.


Lemma lazy_scan n t cs (k : mstate → option mstate) (final : nat → string → mstate) :
  one_line t →
  (∀ m u, one_line u →
     k (MState m u cs) =
     if Py.nonempty u && Py.all Py.is_decimal u then Some (final m u) else None) →
  star_chr false dot_class n t cs k =
  match scan t with
  | Some i => Some (final (n + i)%nat (Py.drop i t))
  | None => None
  end.
Proof.
  intros Hline Hk. revert n. induction t as [|c t IH]; intros n.
  - cbn [star_chr scan]. rewrite Hk by done. done.
  - assert (Hline' : one_line t ∧ dot_class c = true).
    { unfold one_line in *. cbn [Py.all] in Hline.
      by apply andb_true_iff in Hline as [? ?]. }
    destruct Hline' as [Hline' Hc].
    cbn [star_chr]. rewrite Hc, (Hk _ _ Hline).
    cbn [scan]. destruct (Py.nonempty (String c t) && Py.all Py.is_decimal (String c t)).
    + by rewrite Nat.add_0_r.
    + rewrite (IH Hline'). destruct (scan t) as [i|]; [|done].
      cbn [fmap option_fmap option_map Py.drop]. do 2 f_equal. lia.
Qed.

Lemma strip_all_decimal t :
  strip_trailing_digits t = EmptyString ↔ Py.all Py.is_decimal t = true.
Proof.
  unfold strip_trailing_digits. induction t as [|c t IH]; [done|].
  cbn [Py.drop_while_end Py.all].
  destruct (Py.drop_while_end Py.is_decimal t) as [|a u] eqn:Hd.
  - destruct (Py.is_decimal c); [|done]. rewrite <- IH. done.
  - split; [done|]. intros [_ Ht%IH]%andb_true_iff. done.
Qed.

Lemma strip_cons c t :
  Py.all Py.is_decimal (String c t) = false →
  strip_trailing_digits (String c t) = String c (strip_trailing_digits t).
Proof.
  intros Hall. unfold strip_trailing_digits. cbn [Py.drop_while_end].
  destruct (Py.drop_while_end Py.is_decimal t) as [|a u] eqn:Hd; [|done].
  assert (Py.all Py.is_decimal t = true) as Ht by (by apply strip_all_decimal).
  cbn [Py.all] in Hall. rewrite Ht, andb_true_r in Hall. by rewrite Hall.
Qed.

Lemma scan_strip t :
  scan t =
  if decide (strip_trailing_digits t = t) then None
  else Some (String.length (strip_trailing_digits t)).
Proof.
  induction t as [|c t IH]; [done|].
  cbn [scan Py.nonempty andb].
  destruct (Py.all Py.is_decimal (String c t)) eqn:Hall.
  - apply strip_all_decimal in Hall as Hs. rewrite Hs. by rewrite decide_False.
  - rewrite (strip_cons _ _ Hall), IH.
    destruct (decide (strip_trailing_digits t = t)) as [Heq|Hne].
    + by rewrite decide_True by congruence.
    + by rewrite decide_False by congruence.
Qed.

Lemma strip_prefix t :
  String.substring 0 (String.length (strip_trailing_digits t)) t
  = strip_trailing_digits t.
Proof.
  induction t as [|c t IH]; [done|].
  destruct (Py.all Py.is_decimal (String c t)) eqn:Hall.
  - apply strip_all_decimal in Hall as ->. done.
  - rewrite (strip_cons _ _ Hall). cbn [String.length String.substring]. by rewrite IH.
Qed.

(** The base category: the first character, then the rest without its
    trailing digits. *)
Lemma extract_base_category_keep_first stem :
  one_line stem → extract_base_category stem = keep_first_strip stem.
Proof.
  intros Hline. destruct stem as [|c s]; [done|].
  assert (Hline' : one_line s ∧ dot_class c = true).
  { unfold one_line in *. cbn [Py.all] in Hline.
    by apply andb_true_iff in Hline as [? ?]. }
  destruct Hline' as [Hline' Hc].
  unfold extract_base_category, re_match, base_pattern, Plus.
  fold digits_to_end. unfold dot. fold dot_class.
  rewrite run_Group, run_Seq, run_Group, run_Seq, run_Chr.
  cbn [rest start]. rewrite Hc. rewrite run_star_chr. cbn [advance pos rest caps start].
  rewrite (lazy_scan 1 s [] _
             (λ m u, MState (m + String.length u) EmptyString
                       [(0%nat, (0%nat, (m + String.length u)%nat)); (1%nat, (0%nat, m))]));
    [|done|].
  2:{ intros m u Hu.
      change (Seq (Seq digit (Star true digit)) Eol) with digits_to_end.
      unfold close_group, start. cbn [pos rest caps].
      rewrite run_digits_to_end by done. cbn [pos rest caps].
      by destruct (Py.nonempty u && Py.all Py.is_decimal u). }
  rewrite scan_strip. unfold keep_first_strip.
  destruct (decide (strip_trailing_digits s = s)) as [Heq|Hne].
  - cbn [fmap option_fmap option_map]. by rewrite Heq.
  - cbn [fmap option_fmap option_map]. unfold group_text, group.
    cbn [final caps span_of Nat.eqb subject default from_option id].
    replace (1 + String.length (strip_trailing_digits s) - 0)%nat
      with (S (String.length (strip_trailing_digits s))) by lia.
    cbn [String.substring]. by rewrite strip_prefix.
Qed.

End BaseFacts.

Module PassFacts.
Import SecondPass SecondPassSpec PyFacts.






(** *** The groups *)












(** *** The writes *)



















(** *** The claim about the second pass *)




End PassFacts.

Module CategoryFacts.
Import Re Discover Examples ReFacts.

Lemma suffix_alt_fails s st k :
  Py.contains "-energy" s = false → Py.contains "-nutrient" s = false →
  is_suffix (rest st) s → run suffix_alt st k = None.
Proof.
  intros He Hn Hs. unfold suffix_alt. rewrite run_Alt.
  rewrite !run_Lit_fails; [done|..]; by eapply contains_suffix.
Qed.

(** A name that holds neither suffix matches neither pattern: its category
    is its stem. *)
Lemma category_without_suffix name :
  Py.contains "-energy" name = false → Py.contains "-nutrient" name = false →
  extract_category_from_filename name = path_stem name.
Proof.
  intros He Hn. unfold extract_category_from_filename.
  assert (re_match numbered_pattern name = None) as ->.
  { unfold re_match, numbered_pattern. rewrite run_Group, run_Seq.
    rewrite run_fails; [done|]. intros st1 H1. rewrite run_Seq.
    apply run_fails. intros st2 H2. rewrite run_Seq. apply run_fails. intros st3 H3.
    eapply suffix_alt_fails; [done|done|].
    eapply is_suffix_trans; [exact H3|]. eapply is_suffix_trans; [exact H2|]. exact H1. }
  assert (re_match plain_pattern name = None) as ->.
  { unfold re_match, plain_pattern. rewrite run_Group, run_Seq.
    rewrite run_fails; [done|]. intros st1 H1.
    eapply suffix_alt_fails; [done|done|]. exact H1. }
  done.
Qed.

Lemma category_map_lookup walk base_name :
  base_name ∈ pair_names walk →
  category_map walk !! base_name = Some (extract_category_from_filename base_name).
Proof.
  intros Hin. unfold category_map. apply lookup_set_to_map.
  - intros y y' _ _ Heq. exact Heq.
  - by exists base_name.
Qed.

(** C7 fails on the code. A pair is recorded under its base name, the file
    name with the suffix and extension already removed, and the category is
    computed from that base name: for the files beef-1-energy.png and
    beef-1-nutrient.png the category is "beef-1", where the two file names
    match the first pattern with the name "beef". Neither pattern matches
    a base name that no longer holds a suffix: its category is its stem. *)
Theorem category_computed_from_base_name :
  (∀ walk base_name, base_name ∈ pair_names walk →
     category_map walk !! base_name
     = Some (extract_category_from_filename base_name))
  ∧ (∀ walk base_name, base_name ∈ pair_names walk →
       Py.contains "-energy" base_name = false →
       Py.contains "-nutrient" base_name = false →
       category_map walk !! base_name = Some (path_stem base_name))
  ∧ Py.replace "-energy.png" "" "beef-1-energy.png" = "beef-1"
  ∧ category_map beef_walk = {[ "beef-1" := "beef-1" ]}
  ∧ extract_category_from_filename "beef-1-energy.png" = "beef"
  ∧ extract_category_from_filename "beef-1-nutrient.png" = "beef"
  ∧ extract_category_from_filename "duck-energy.png" = "duck"
  ∧ extract_category_from_filename "notes.txt" = "notes".
Proof.
  split; [exact category_map_lookup|].
  split.
  { intros walk base_name Hin He Hn.
    by rewrite category_map_lookup, category_without_suffix. }
  repeat split; vm_compute; reflexivity.
Qed.

End CategoryFacts.

Module FenceFacts.
Import Fence Examples.

(** C9 fails on the code. The pattern lists the fence words markdown,
    MARKDOWN, md and MD; a fence written ```Markdown is read as a plain
    fence and the word stays in front of the table. The listed words, the
    plain fence, a fence closed without a line break and a text without
    fences are handled as the claim says. *)
Theorem fence_word_in_mixed_case_stays :
  extract_markdown_table (fenced "Markdown") = "Markdown" +:+ line_break +:+ "| a |"
  ∧ extract_markdown_table (fenced "Md") = "Md" +:+ line_break +:+ "| a |"
  ∧ extract_markdown_table (fenced "markdown") = "| a |"
  ∧ extract_markdown_table (fenced "MARKDOWN") = "| a |"
  ∧ extract_markdown_table (fenced "md") = "| a |"
  ∧ extract_markdown_table (fenced "MD") = "| a |"
  ∧ extract_markdown_table (fenced "") = "| a |"
  ∧ extract_markdown_table "```md| a |```" = "| a |"
  ∧ extract_markdown_table ("  | a | " +:+ line_break) = "| a |".
Proof. repeat split; vm_compute; reflexivity. Qed.

End FenceFacts.

Module StripFacts.
Import PyFacts.

Lemma drop_while_head p s :
  Py.drop_while p s = EmptyString
  ∨ ∃ c t, Py.drop_while p s = String c t ∧ p c = false.
Proof.
  induction s as [|c s IH]; [by left|]. cbn [Py.drop_while].
  destruct (p c) eqn:Hc; [done|]. right. eauto.
Qed.

Lemma drop_while_end_head p c s :
  p c = false → ∃ t, Py.drop_while_end p (String c s) = String c t.
Proof.
  intros Hc. cbn [Py.drop_while_end]. rewrite Hc.
  destruct (Py.drop_while_end p s); eauto.
Qed.

Lemma drop_while_end_idem p s :
  Py.drop_while_end p (Py.drop_while_end p s) = Py.drop_while_end p s.
Proof.
  induction s as [|c s IH]; [done|]. cbn [Py.drop_while_end].
  destruct (Py.drop_while_end p s) as [|a t] eqn:Hd.
  - destruct (p c) eqn:Hc; [done|]. cbn [Py.drop_while_end]. by rewrite Hc.
  - cbn [Py.drop_while_end] in *. by rewrite IH.
Qed.

Lemma drop_while_stop p c s : p c = false → Py.drop_while p (String c s) = String c s.
Proof. intros Hc. cbn [Py.drop_while]. by rewrite Hc. Qed.

Lemma strip_idem s : Py.strip (Py.strip s) = Py.strip s.
Proof.
  unfold Py.strip, Py.rstrip, Py.lstrip.
  destruct (drop_while_head Py.is_space s) as [->|(c & t & -> & Hc)]; [done|].
  destruct (drop_while_end_head Py.is_space c t Hc) as [u Hu].
  rewrite Hu, (drop_while_stop _ _ _ Hc), <- Hu. apply drop_while_end_idem.
Qed.

End StripFacts.

Module MatchFacts.
Import Re PyFacts ReFacts.

Lemma star_greedy_first p n s cs k m :
  k (MState (n + String.length (Py.take_while p s)) (Py.drop_while p s) cs) = Some m →
  star_chr true p n s cs k = Some m.
Proof.
  revert n. induction s as [|c s IH]; intros n; cbn [star_chr Py.take_while Py.drop_while].
  - cbn. by rewrite Nat.add_0_r.
  - destruct (p c).
    + cbn [String.length]. intros Hk. rewrite (IH (S n)); [done|].
      by replace (S n + String.length (Py.take_while p s))%nat
        with (n + S (String.length (Py.take_while p s)))%nat by lia.
    + cbn. by rewrite Nat.add_0_r.
Qed.

Lemma run_Lit_app w n s cs k :
  run (Lit w) (MState n (w +:+ s) cs) k = k (MState (n + String.length w) s cs).
Proof.
  revert n. induction w as [|c w IH]; intros n.
  - cbn. by rewrite Nat.add_0_r.
  - cbn [Lit]. rewrite run_Seq, run_Chr, app_cons. cbn [rest].
    rewrite Ascii.eqb_refl. unfold advance. cbn [pos caps]. rewrite IH.
    cbn [String.length]. do 2 f_equal. lia.
Qed.

Lemma run_Bol st k : run Bol st k = if (pos st =? 0)%nat then k st else None.
Proof. reflexivity. Qed.

Lemma run_Lit_app_eq w n s cs k m :
  k (MState (n + String.length w) s cs) = Some m →
  run (Lit w) (MState n (w +:+ s) cs) k = Some m.
Proof. intros Hk. by rewrite run_Lit_app. Qed.

Lemma star_lazy_first p n a b cs k m :
  Py.all p a = true →
  (∀ u v, a = u +:+ v → v ≠ EmptyString →
     k (MState (n + String.length u) (v +:+ b) cs) = None) →
  k (MState (n + String.length a) b cs) = Some m →
  star_chr false p n (a +:+ b) cs k = Some m.
Proof.
  revert n. induction a as [|c a IH]; intros n Hall Hfail Hk.
  - rewrite app_empty_l. cbn in Hk. rewrite Nat.add_0_r in Hk.
    destruct b as [|c b]; cbn [star_chr]; [done|]. rewrite Hk. by destruct (p c).
  - cbn [Py.all] in Hall. apply andb_true_iff in Hall as [Hc Hall].
    rewrite app_cons. cbn [star_chr]. rewrite Hc.
    pose proof (Hfail EmptyString (String c a) eq_refl) as H0.
    cbn [String.length] in H0. rewrite Nat.add_0_r, app_cons in H0.
    rewrite H0 by done. apply IH; [done| |].
    + intros u v -> Hv. pose proof (Hfail (String c u) v eq_refl Hv) as H1.
      cbn [String.length] in H1.
      by replace (S n + String.length u)%nat with (n + S (String.length u))%nat by lia.
    + cbn [String.length] in Hk.
      by replace (S n + String.length a)%nat with (n + S (String.length a))%nat by lia.
Qed.

Lemma take_while_app_stop p a c b :
  p c = false → Py.take_while p (a +:+ String c b) = Py.take_while p a.
Proof.
  intros Hc. induction a as [|x a IH].
  - rewrite app_empty_l. cbn. by rewrite Hc.
  - rewrite app_cons. cbn [Py.take_while]. by rewrite IH.
Qed.

Lemma drop_while_app_stop p a c b :
  p c = false → Py.drop_while p (a +:+ String c b) = Py.drop_while p a +:+ String c b.
Proof.
  intros Hc. induction a as [|x a IH].
  - rewrite app_empty_l. cbn. by rewrite Hc.
  - rewrite app_cons. cbn [Py.drop_while]. rewrite IH. by destruct (p x).
Qed.

Lemma take_while_all p s : Py.all p s = true → Py.take_while p s = s.
Proof.
  induction s as [|c s IH]; [done|]. cbn [Py.all Py.take_while].
  intros [-> Hs]%andb_true_iff. by rewrite IH.
Qed.

Lemma drop_while_all p s : Py.all p s = true → Py.drop_while p s = EmptyString.
Proof.
  induction s as [|c s IH]; [done|]. cbn [Py.all Py.drop_while].
  intros [-> Hs]%andb_true_iff. by rewrite IH.
Qed.

(** After a run of the class, a literal cannot start at a character that is
    neither of the class nor the first of the literal. *)
Lemma star_then_lit_fails p f w n s c s' cs k :
  Py.all p s = true → p c = false → p f = false → f ≠ c →
  star_chr true p n (s +:+ String c s') cs
    (λ st, run (Lit (String f w)) st k) = None.
Proof.
  intros Hs Hc Hf Hfc. revert n. induction s as [|x s IH]; intros n.
  - rewrite app_empty_l. cbn [star_chr]. rewrite Hc.
    apply run_Lit_fails. cbn [rest String.prefix]. by destruct (ascii_dec f c).
  - cbn [Py.all] in Hs. apply andb_true_iff in Hs as [Hx Hs].
    rewrite app_cons. cbn [star_chr]. rewrite Hx, (IH Hs).
    apply run_Lit_fails. cbn [rest String.prefix].
    destruct (ascii_dec f x) as [->|]; [congruence|done].
Qed.

Lemma drop_while_end_split p s :
  ∃ t, s = Py.drop_while_end p s +:+ t ∧ Py.all p t = true.
Proof.
  induction s as [|c s (t & Hs & Ht)]; [by exists EmptyString|].
  cbn [Py.drop_while_end]. destruct (Py.drop_while_end p s) as [|a u] eqn:Hd.
  - rewrite app_empty_l in Hs. subst t. destruct (p c) eqn:Hc.
    + exists (String c s). split; [done|]. cbn [Py.all]. by rewrite Hc, Ht.
    + exists s. by split.
  - exists t. split; [|done]. rewrite !app_cons. rewrite app_cons in Hs. congruence.
Qed.

(** What is left after the trailing run of a class is removed ends, if it
    is not empty, with a character outside the class. *)
Lemma drop_while_end_suffix p s u v :
  Py.drop_while_end p s = u +:+ v → v ≠ EmptyString → Py.all p v = false.
Proof.
  revert u v. induction s as [|c s IH]; intros u v.
  - cbn [Py.drop_while_end]. destruct u, v; done.
  - cbn [Py.drop_while_end]. destruct (Py.drop_while_end p s) as [|a t] eqn:Hd.
    + destruct (p c) eqn:Hc.
      * destruct u, v; done.
      * destruct u as [|x u].
        -- rewrite app_empty_l. intros <- _. cbn. by rewrite Hc.
        -- rewrite app_cons. intros [= <- Hu]. destruct u, v; done.
    + destruct u as [|x u].
      * rewrite app_empty_l. intros <- _.
        assert (Py.all p (String a t) = false) as H by (by apply (IH EmptyString)).
        cbn [Py.all] in *. by rewrite H, andb_false_r.
      * rewrite app_cons. intros [= <- Hu] Hv. by apply (IH u).
Qed.

Lemma all_false_split p v :
  Py.all p v = false →
  ∃ c s', v = Py.take_while p v +:+ String c s' ∧ p c = false.
Proof.
  induction v as [|x v IH]; [done|]. cbn [Py.all Py.take_while].
  destruct (p x) eqn:Hx.
  - rewrite andb_true_l. intros (c & s' & Hv & Hc)%IH. exists c, s'.
    split; [|done]. rewrite app_cons. congruence.
  - intros _. exists x, v. by rewrite app_empty_l.
Qed.

Lemma any_app p a b : Py.any p (a +:+ b) = Py.any p a || Py.any p b.
Proof.
  induction a as [|c a IH]; [done|]. rewrite app_cons. cbn [Py.any].
  by rewrite IH, orb_assoc.
Qed.

End MatchFacts.

Module SortMore.
Import Re Sort SortSpec SortOrder ReFacts PyFacts SortFacts.

Lemma compare_refl s : String.compare s s = Eq.
Proof.
  induction s as [|c s IH]; [done|]. cbn [String.compare].
  unfold Ascii.compare. by rewrite N.compare_refl.
Qed.

Lemma key_ltb_irrefl k : key_ltb k k = false.
Proof.
  unfold key_ltb, Py.str_ltb, String.ltb. by rewrite Z.eqb_refl, compare_refl.
Qed.

Lemma get_sort_key_unsafe item :
  unsafe_row item → get_sort_key item = Raise (error_of item).
Proof.
  unfold unsafe_row, error_of. intros Hs.
  destruct (Py.over_limit (food_code item)) eqn:Hover.
  { by apply get_sort_key_over_limit. }
  revert Hs Hover. unfold safe_code, get_sort_key. fold (food_code item).
  generalize (food_code item) as s. intros s Hs Hover. cbv zeta.
  rewrite Hover, andb_true_r in Hs.
  destruct (Py.isdigit s) eqn:Hd; [|done]. cbn [implb] in Hs.
  unfold py_int, Py.int. rewrite Hover, Hs, andb_false_r. done.
Qed.

Lemma get_sort_key_cases item :
  (safe_code (food_code item) = true ∧ get_sort_key item = Ok (key_of item))
  ∨ (unsafe_row item ∧ get_sort_key item = Raise (error_of item)).
Proof.
  destruct (safe_code (food_code item)) eqn:Hs.
  - left. split; [done|]. by apply get_sort_key_prefix.
  - right. split; [done|]. by apply get_sort_key_unsafe.
Qed.

Lemma first_unsafe_safe data :
  Forall (λ item, safe_code (food_code item) = true) data → first_unsafe data = None.
Proof.
  unfold first_unsafe. induction 1 as [|item data Hi _ IH]; [done|].
  rewrite filter_cons_False; [done|]. unfold unsafe_row. congruence.
Qed.

Lemma first_unsafe_elem data item :
  first_unsafe data = Some item → item ∈ data ∧ unsafe_row item.
Proof.
  unfold first_unsafe. intros H. apply head_Some in H as (l & Hl).
  assert (item ∈ filter unsafe_row data) as Hin by (rewrite Hl; left).
  apply list_elem_of_filter in Hin as [? ?]. done.
Qed.

Lemma first_unsafe_Exists data item :
  first_unsafe data = Some item → Exists unsafe_row data.
Proof.
  intros (Hin & Hu)%first_unsafe_elem. apply Exists_exists. by exists item.
Qed.

Lemma decorate_cases data :
  (Forall (λ item, safe_code (food_code item) = true) data
   ∧ decorate data = Ok ((λ item, (key_of item, item)) <$> data))
  ∨ (∃ item, first_unsafe data = Some item ∧ decorate data = Raise (error_of item)).
Proof.
  induction data as [|item data IH].
  - left. split; [constructor|done].
  - cbn [decorate]. destruct (get_sort_key_cases item) as [[Hs ->]|[Hu ->]].
    + assert (first_unsafe (item :: data) = first_unsafe data) as Hfirst.
      { unfold first_unsafe. rewrite filter_cons_False; [done|].
        unfold unsafe_row. congruence. }
      destruct IH as [[Hall ->]|(bad & Hbad & ->)].
      * left. split; [by constructor|done].
      * right. exists bad. by rewrite Hfirst.
    + right. exists item. split; [|done].
      unfold first_unsafe. by rewrite filter_cons_True.
Qed.

Lemma sort_cases data :
  (Forall (λ item, safe_code (food_code item) = true) data
   ∧ sort_food_data_by_code data
     = Ok ((sorted_keyed ((λ item, (key_of item, item)) <$> data)).*2))
  ∨ (∃ item, first_unsafe data = Some item
             ∧ sort_food_data_by_code data = Raise (error_of item)).
Proof.
  unfold sort_food_data_by_code.
  destruct (decorate_cases data) as [[Hall ->]|(item & Hitem & ->)]; [left|right]; [done|].
  by exists item.
Qed.

Section Insertion.
Context {A : Type}.
Implicit Types (x : sort_key * A) (l : list (sort_key * A)).

Lemma insert_keyed_head x l : Forall (keyed_le x) l → insert_keyed x l = x :: l.
Proof.
  destruct 1 as [|y l Hy _]; [done|]. cbn [insert_keyed].
  unfold keyed_le, key_le, key_leb in Hy. apply negb_true_iff in Hy. by rewrite Hy.
Qed.

Lemma sorted_keyed_fixed l : StronglySorted keyed_le l → sorted_keyed l = l.
Proof.
  induction 1 as [|x l Hl IH Hx]; [done|].
  cbn [sorted_keyed foldr]. fold (sorted_keyed l). rewrite IH.
  by apply insert_keyed_head.
Qed.

Lemma filter_insert_keyed k x l :
  filter (λ y, y.1 = k) (insert_keyed x l)
  = if decide (x.1 = k) then x :: filter (λ y, y.1 = k) l
    else filter (λ y, y.1 = k) l.
Proof.
  induction l as [|y l IH]; cbn [insert_keyed].
  - rewrite filter_cons, filter_nil. done.
  - destruct (key_ltb y.1 x.1) eqn:Hlt.
    + rewrite !(filter_cons _ y), IH.
      destruct (decide (y.1 = k)) as [Hy|Hy]; [|done].
      destruct (decide (x.1 = k)) as [Hx|Hx]; [|done].
      rewrite Hy, Hx, key_ltb_irrefl in Hlt. done.
    + by rewrite filter_cons.
Qed.

Lemma filter_sorted_keyed k l :
  filter (λ y, y.1 = k) (sorted_keyed l) = filter (λ y, y.1 = k) l.
Proof.
  induction l as [|x l IH]; [done|].
  cbn [sorted_keyed foldr]. fold (sorted_keyed l).
  by rewrite filter_insert_keyed, IH, filter_cons.
Qed.

End Insertion.

Lemma with_key_keyed k (l : list (sort_key * Row)) :
  Forall (λ y, y.1 = key_of y.2) l →
  with_key k (l.*2) = (filter (λ y, y.1 = k) l).*2.
Proof.
  unfold with_key. induction 1 as [|y l Hy _ IH]; [done|].
  cbn [fmap list_fmap]. rewrite !filter_cons, IH, <- Hy.
  by destruct (decide (y.1 = k)).
Qed.

Lemma keyed_decorated (data : list Row) :
  Forall (λ y : sort_key * Row, y.1 = key_of y.2) ((λ item, (key_of item, item)) <$> data).
Proof. apply Forall_fmap. by apply Forall_true. Qed.

Lemma decorated_snd (data : list Row) :
  ((λ item, (key_of item, item)) <$> data).*2 = data.
Proof. rewrite <- list_fmap_compose. apply list_fmap_id. Qed.

Lemma redecorate (l : list (sort_key * Row)) :
  Forall (λ y, y.1 = key_of y.2) l →
  (λ item, (key_of item, item)) <$> l.*2 = l.
Proof.
  induction 1 as [|[k item] l Hy _ IH]; [done|].
  cbn [fmap list_fmap] in *. cbn in Hy. by rewrite IH, Hy.
Qed.

(** X1: the sort is stable: when it returns, the rows of any one key stand
    in the result in the order they had in the input. *)
Theorem sort_is_stable data out k :
  sort_food_data_by_code data = Ok out →
  with_key k out = with_key k data.
Proof.
  destruct (sort_cases data) as [[_ ->]|(? & _ & ->)]; [|done].
  intros [= <-]. rewrite with_key_keyed.
  - rewrite filter_sorted_keyed, <- with_key_keyed by apply keyed_decorated.
    by rewrite decorated_snd.
  - rewrite sorted_keyed_perm. apply keyed_decorated.
Qed.

Lemma sort_ok_inv data out :
  sort_food_data_by_code data = Ok out →
  Forall (λ item, safe_code (food_code item) = true) data
  ∧ out = (sorted_keyed ((λ item, (key_of item, item)) <$> data)).*2.
Proof.
  destruct (sort_cases data) as [[Hsafe ->]|(? & _ & ->)]; [|done].
  by intros [= <-].
Qed.

Lemma sort_of_sorted data :
  Forall (λ item, safe_code (food_code item) = true) data →
  let out := (sorted_keyed ((λ item, (key_of item, item)) <$> data)).*2 in
  sort_food_data_by_code out = Ok out.
Proof.
  intros Hsafe. cbv zeta. set (l := sorted_keyed _).
  assert (Hl : Forall (λ y : sort_key * Row, y.1 = key_of y.2) l).
  { unfold l. rewrite sorted_keyed_perm. apply keyed_decorated. }
  destruct (sort_cases (l.*2)) as [[_ ->]|(item & Hex & _)].
  - rewrite redecorate by done. rewrite sorted_keyed_fixed; [done|].
    apply sorted_keyed_sorted.
  - exfalso. apply first_unsafe_elem in Hex as (Hin & Hu).
    assert (item ∈ data) as Hin'.
    { revert Hin. unfold l. rewrite sorted_keyed_perm, decorated_snd. done. }
    apply (proj1 (Forall_forall _ _) Hsafe) in Hin'. unfold unsafe_row in Hu. congruence.
Qed.

Lemma sort_is_stable_witness :
  with_key (7%Z, EmptyString)
    [<["foodName" := "first"]> (row_of_code "007");
     <["foodName" := "second"]> (row_of_code "7");
     <["foodName" := "b"]> (row_of_code "12")]
  = with_key (7%Z, EmptyString) tied_rows.
Proof. apply (sort_is_stable tied_rows). vm_compute. reflexivity. Defined.

(** X2: sorting is idempotent: the list the sort returns is sorted again to
    itself, without an exception. *)
Theorem sort_is_idempotent data out :
  sort_food_data_by_code data = Ok out →
  sort_food_data_by_code out = Ok out.
Proof.
  intros Hsort. apply sort_ok_inv in Hsort as [Hsafe ->].
  by apply sort_of_sorted.
Qed.

Lemma sort_is_idempotent_witness :
  sort_food_data_by_code
    [<["foodName" := "first"]> (row_of_code "007");
     <["foodName" := "second"]> (row_of_code "7");
     <["foodName" := "b"]> (row_of_code "12")]
  = Ok [<["foodName" := "first"]> (row_of_code "007");
        <["foodName" := "second"]> (row_of_code "7");
        <["foodName" := "b"]> (row_of_code "12")].
Proof. apply (sort_is_idempotent tied_rows). vm_compute. reflexivity. Defined.

Lemma unsafe_row_spec item :
  unsafe_row item ↔
  (Py.isdigit (food_code item) = true
   ∧ Py.all Py.is_decimal (food_code item) = false)
  ∨ (4300 < Z.of_nat (String.length (leading_digits (food_code item))))%Z.
Proof.
  unfold unsafe_row.
  destruct (safe_code (food_code item)) eqn:Hs.
  - apply safe_code_spec in Hs as [H1 H2]. split; [done|].
    intros [[Hd Ha]|Hlong]; [|lia]. rewrite (H1 Hd) in Ha. done.
  - split; [|done]. intros _.
    destruct (Py.isdigit (food_code item)) eqn:Hd,
             (Py.all Py.is_decimal (food_code item)) eqn:Ha;
      try (left; done); right;
      apply Z.lt_nge; intros Hle;
      assert (safe_code (food_code item) = true) as Hs'
        by (apply safe_code_spec; split; [congruence|exact Hle]);
      congruence.
Qed.

(** X3: the sort raises exactly when some row is unsafe: [isdigit] accepts
    its code and one of the characters is no decimal digit, or the code
    starts with more than 4300 decimal digits. The exception is the
    [ValueError] that [int] raises on the code of the first such row, the
    one of the limit when the digits are too many and the one of the
    literal otherwise; no other exception leaves the sort. *)
Theorem sort_raises_exactly data :
  (∀ e, sort_food_data_by_code data = Raise e ↔
        ∃ item, first_unsafe data = Some item ∧ e = error_of item)
  ∧ (is_ok (sort_food_data_by_code data) = false ↔ Exists unsafe_row data)
  ∧ (∀ item, error_of item = int_error ∨ error_of item = limit_error)
  ∧ (∀ item, unsafe_row item ↔
       (Py.isdigit (food_code item) = true
        ∧ Py.all Py.is_decimal (food_code item) = false)
       ∨ (4300 < Z.of_nat (String.length (leading_digits (food_code item))))%Z)
  ∧ (∀ item, unsafe_row item →
       (error_of item = limit_error ↔
        (4300 < Z.of_nat (String.length (leading_digits (food_code item))))%Z)).
Proof.
  split; [|split; [|split; [|split]]].
  - intros e. destruct (sort_cases data) as [[Hsafe ->]|(item & Hitem & ->)].
    + rewrite (first_unsafe_safe _ Hsafe). split; [done|]. by intros (? & ? & _).
    + split.
      * intros [= <-]. by exists item.
      * intros (item' & Hitem' & ->). congruence.
  - destruct (sort_cases data) as [[Hsafe ->]|(item & Hitem & ->)].
    + split; [done|]. intros (item & Hin & Hu)%Exists_exists.
      apply (proj1 (Forall_forall _ _) Hsafe) in Hin. unfold unsafe_row in Hu. congruence.
    + split; [|done]. intros _. by eapply first_unsafe_Exists.
  - intros item. unfold error_of. destruct (Py.over_limit _); auto.
  - apply unsafe_row_spec.
  - intros item _. unfold error_of, Py.over_limit, Py.int_max_str_digits.
    fold (leading_digits (food_code item)).
    destruct (Z.ltb_spec 4300 (Z.of_nat (String.length (leading_digits (food_code item)))));
      split; try done; lia.
Qed.

End SortMore.

Module MergeMore.
Import Merge MergeSpec MergeShape MergeFacts.

Lemma fill_lookup_eq key (nutrient_row record : Row) :
  fill key nutrient_row record !! key
  = match record !! key with Some v => Some v | None => nutrient_row !! key end.
Proof.
  unfold fill. destruct (record !! key) as [v|] eqn:Hr; [done|].
  destruct (nutrient_row !! key) as [w|] eqn:Hn; [|done].
  by rewrite lookup_insert_eq.
Qed.

Lemma spec_record_name energy_data nutrient_data code :
  spec_record energy_data nutrient_data code !! "foodName"
  = match side_row code energy_data !! "foodName" with
    | Some v => Some v
    | None => side_row code nutrient_data !! "foodName"
    end.
Proof.
  unfold spec_record, side_row. cbv zeta.
  rewrite fill_lookup_eq, fill_lookup_ne by done.
  rewrite lookup_union, !restrict_lookup.
  rewrite decide_False by by_computation.
  rewrite decide_True by by_computation.
  by rewrite (left_id None _).
Qed.

Lemma spec_record_complete energy_data nutrient_data code :
  code ∈ keys energy_data ∪ keys nutrient_data →
  is_complete (spec_record energy_data nutrient_data code)
  ↔ named energy_data nutrient_data code.
Proof.
  intros Hc. unfold is_complete, named.
  rewrite spec_record_code by done. rewrite spec_record_name.
  destruct (side_row code energy_data !! "foodName"); split;
    [eauto|eauto|intros [_ ?]; by right|intros [[? [=]]|?]; eauto].
Qed.

(** X4: of the codes of the two sides, the merge keeps those that one side
    names and reports the others in a warning: a code is among the records
    exactly when the energy row or the nutrient row of the code has a
    [foodName], and among the warnings exactly when neither has. *)
Theorem merge_keeps_named_codes energy_data nutrient_data code :
  code ∈ keys energy_data ∪ keys nutrient_data →
  (named energy_data nutrient_data code ↔
     Some code ∈ codes_of (records (merge_data energy_data nutrient_data)))
  ∧ (¬ named energy_data nutrient_data code ↔
     Some code ∈ codes_of (warned (merge_data energy_data nutrient_data))).
Proof.
  intros Hc. rewrite merge_data_lists. cbn [records warned]. unfold codes_of.
  split.
  - rewrite <- spec_record_complete by done. split.
    + intros Hcomplete. apply list_elem_of_fmap.
      exists (spec_record energy_data nutrient_data code).
      split; [by rewrite spec_record_code|].
      apply list_elem_of_filter. split; [done|].
      apply list_elem_of_fmap. exists code. by rewrite elem_of_elements.
    + intros (r & Hr & Hin)%list_elem_of_fmap.
      apply list_elem_of_filter in Hin as [Hcomplete Hin].
      apply list_elem_of_fmap in Hin as (code' & -> & Hc'%elem_of_elements).
      rewrite spec_record_code in Hr by done. by injection Hr as ->.
  - rewrite <- spec_record_complete by done. split.
    + intros Hmissing. apply list_elem_of_fmap.
      exists (spec_record energy_data nutrient_data code).
      split; [by rewrite spec_record_code|].
      apply list_elem_of_filter. split; [done|].
      apply list_elem_of_fmap. exists code. by rewrite elem_of_elements.
    + intros (r & Hr & Hin)%list_elem_of_fmap.
      apply list_elem_of_filter in Hin as [Hmissing Hin].
      apply list_elem_of_fmap in Hin as (code' & -> & Hc'%elem_of_elements).
      rewrite spec_record_code in Hr by done. by injection Hr as ->.
Qed.

Lemma codes_of_built energy_data nutrient_data (P : Row → Prop)
    `{!∀ r, Decision (P r)} codes :
  Forall (λ code, code ∈ keys energy_data ∪ keys nutrient_data) codes →
  codes_of (filter P (spec_record energy_data nutrient_data <$> codes))
  = Some <$> filter (λ code, P (spec_record energy_data nutrient_data code)) codes.
Proof.
  unfold codes_of. induction 1 as [|code codes Hc _ IH]; [done|].
  rewrite fmap_cons, !filter_cons.
  destruct (decide (P _)); [|done].
  by rewrite !fmap_cons, IH, spec_record_code.
Qed.

Lemma keys_all energy_data nutrient_data :
  Forall (λ code, code ∈ keys energy_data ∪ keys nutrient_data)
    (elements (keys energy_data ∪ keys nutrient_data)).
Proof. apply Forall_forall. intros code. by rewrite elem_of_elements. Qed.

Lemma size_list_to_set_le (l : list string) :
  (size (list_to_set l : gset string) ≤ length l)%nat.
Proof.
  induction l as [|x l IH]; [by rewrite list_to_set_nil, size_empty|].
  rewrite list_to_set_cons, size_union_alt, size_singleton. cbn [length].
  assert (size (list_to_set l ∖ {[x]} : gset string) ≤ size (list_to_set l : gset string))%nat.
  { apply subseteq_size. set_solver. }
  lia.
Qed.

Lemma length_omap_le {A B} (f : A → option B) (l : list A) :
  (length (omap f l) ≤ length l)%nat.
Proof.
  induction l as [|x l IH]; [done|]. cbn [omap list_omap].
  destruct (f x); cbn [length]; lia.
Qed.

Lemma merge_keeps_named_codes_witness :
  (named sample_energy sample_nutrient "121103" ↔
     Some "121103" ∈ codes_of (records (merge_data sample_energy sample_nutrient)))
  ∧ (¬ named sample_energy sample_nutrient "121103" ↔
     Some "121103" ∈ codes_of (warned (merge_data sample_energy sample_nutrient))).
Proof.
  apply (merge_keeps_named_codes sample_energy sample_nutrient "121103").
  vm_compute. set_solver.
Defined.

(** X5: no two records of a merge have the same food code, and there are
    at most as many records as codes, hence as rows given. *)
Theorem merge_codes_distinct energy_data nutrient_data :
  NoDup (codes_of (records (merge_data energy_data nutrient_data)))
  ∧ (length (records (merge_data energy_data nutrient_data))
     ≤ size (keys energy_data ∪ keys nutrient_data))%nat
  ∧ (size (keys energy_data ∪ keys nutrient_data)
     ≤ length energy_data + length nutrient_data)%nat.
Proof.
  rewrite merge_data_lists. cbn [records]. split; [|split].
  - rewrite codes_of_built by apply keys_all.
    apply (NoDup_fmap_2 Some), NoDup_filter, NoDup_elements.
  - etrans; [apply length_filter|]. by rewrite length_fmap.
  - assert (Hk : ∀ data, (size (keys data) ≤ length data)%nat).
    { intros data. unfold keys.
      etrans; [apply size_list_to_set_le|]. apply length_omap_le. }
    rewrite size_union_alt.
    assert (size (keys nutrient_data ∖ keys energy_data) ≤ size (keys nutrient_data))%nat.
    { apply subseteq_size. set_solver. }
    pose proof (Hk energy_data). pose proof (Hk nutrient_data). lia.
Qed.

Lemma fill_dom key (nutrient_row record : Row) :
  dom (fill key nutrient_row record) ⊆ dom record ∪ {[key]}.
Proof.
  unfold fill. destruct (record !! key), (nutrient_row !! key); set_solver.
Qed.

Lemma spec_record_dom energy_data nutrient_data code :
  dom (spec_record energy_data nutrient_data code) ⊆ list_to_set schema.
Proof.
  unfold spec_record. cbv zeta.
  etrans; [apply fill_dom|]. apply union_subseteq. split.
  - etrans; [apply fill_dom|]. apply union_subseteq. split.
    + rewrite dom_union. apply union_subseteq. split.
      * etrans; [apply restrict_dom|]. unfold schema.
        intros key Hk%elem_of_list_to_set. apply elem_of_list_to_set.
        apply list_elem_of_filter in Hk as [_ Hk]. apply elem_of_app. by right.
      * etrans; [apply restrict_dom|]. unfold schema.
        rewrite list_to_set_app. set_solver.
    + apply singleton_subseteq_l. by_computation.
  - apply singleton_subseteq_l. by_computation.
Qed.

(** X6: a record of the merge, returned or reported, holds fields of the
    two schemas only: a field of a row that neither schema lists is left
    out. *)
Theorem merge_within_schema energy_data nutrient_data r :
  r ∈ records (merge_data energy_data nutrient_data)
    ++ warned (merge_data energy_data nutrient_data) →
  dom r ⊆ list_to_set schema.
Proof.
  rewrite merge_data_lists. cbn [records warned].
  intros [Hr|Hr]%elem_of_app;
    apply list_elem_of_filter in Hr as [_ Hr];
    apply list_elem_of_fmap in Hr as (code & -> & _);
    apply spec_record_dom.
Qed.

Lemma keys_coded data : keys (coded data) = keys data.
Proof.
  unfold keys, coded. induction data as [|item data IH]; [done|].
  rewrite filter_cons. destruct (has_food_code item) eqn:Hh.
  - rewrite decide_True by done. cbn [omap list_omap]. rewrite Hh.
    destruct (item !! "foodCode"); cbn [list_to_set]; by rewrite IH.
  - rewrite decide_False by congruence. cbn [omap list_omap]. by rewrite Hh.
Qed.

Lemma row_for_coded code data :
  code ≠ EmptyString → row_for code (coded data) = row_for code data.
Proof.
  intros Hne. unfold row_for, coded. f_equal.
  induction data as [|item data IH]; [done|].
  rewrite !filter_cons. destruct (decide (item !! "foodCode" = Some code)) as [Hc|Hc].
  - rewrite decide_True.
    + by rewrite filter_cons, decide_True, IH by done.
    + apply has_food_code_spec. eauto.
  - destruct (decide (has_food_code item = true)); [|done].
    by rewrite filter_cons, decide_False.
Qed.

Lemma spec_record_coded energy_data nutrient_data code :
  code ≠ EmptyString →
  spec_record (coded energy_data) (coded nutrient_data) code
  = spec_record energy_data nutrient_data code.
Proof. intros Hne. unfold spec_record. by rewrite !row_for_coded. Qed.

Lemma merge_within_schema_witness :
  dom (<["foodName" := "carp"]> (<["foodCode" := "121102"]> (∅ : Row)))
    ⊆ list_to_set schema.
Proof.
  apply (merge_within_schema [stray_row] []). by_computation.
Defined.

(** X7: rows whose food code is missing or empty take no part in the merge:
    leaving them out of either side changes neither the records nor the
    warnings. *)
Theorem merge_ignores_codeless energy_data nutrient_data :
  merge_data (coded energy_data) (coded nutrient_data)
  = merge_data energy_data nutrient_data.
Proof.
  rewrite !merge_data_lists, !keys_coded.
  assert (spec_record (coded energy_data) (coded nutrient_data)
            <$> elements (keys energy_data ∪ keys nutrient_data)
          = spec_record energy_data nutrient_data
            <$> elements (keys energy_data ∪ keys nutrient_data)) as ->; [|done].
  apply Forall_fmap_ext_1. eapply Forall_impl; [apply keys_nonempty|].
  intros code Hne. by apply spec_record_coded.
Qed.

End MergeMore.

Module ParserFacts.
Import Re Merge MergeSpec Parser ParserSpec PyFacts ReFacts MergeFacts.

Lemma bind_fold_dom (columns : list string) offset (l : list (nat * string)) (item : Row) :
  let out := foldl (λ (m : Row) (ic : nat * string),
                      match columns !! (ic.1 + offset)%nat with
                      | Some column => <[column := ic.2]> m
                      | None => m
                      end) item l in
  dom item ⊆ dom out ∧ dom out ⊆ dom item ∪ list_to_set columns.
Proof.
  cbv zeta. revert item. induction l as [|ic l IH]; intros item; cbn [foldl].
  - set_solver.
  - destruct (columns !! (ic.1 + offset)%nat) as [column|] eqn:Hc; [|apply IH].
    destruct (IH (<[column := ic.2]> item)) as [H1 H2].
    assert (column ∈ (list_to_set columns : gset string)).
    { apply elem_of_list_to_set. by eapply list_elem_of_lookup_2. }
    rewrite dom_insert in H1, H2. set_solver.
Qed.

Lemma bind_cells_dom columns offset cells (item : Row) :
  dom item ⊆ dom (bind_cells columns offset cells item)
  ∧ dom (bind_cells columns offset cells item) ⊆ dom item ∪ list_to_set columns.
Proof. apply bind_fold_dom. Qed.

Lemma has_identity_spec (item : Row) :
  has_identity item = true ↔ identity_set ⊆ dom item.
Proof.
  unfold has_identity, identity_set. rewrite andb_true_iff, !has_key_spec.
  rewrite <- !elem_of_dom. set_solver.
Qed.

Lemma parse_row_ok columns row item :
  parse_row columns row = Some item →
  identity_set ⊆ dom item ∧ dom item ⊆ list_to_set columns.
Proof.
  unfold parse_row. cbv zeta. destruct (_ <? 2)%nat; [done|].
  destruct (has_identity _) eqn:Hi; [|done]. intros [= <-].
  split; [by apply has_identity_spec|].
  etrans; [apply bind_cells_dom|]. rewrite dom_empty. set_solver.
Qed.

Lemma parse_line_ok columns line item :
  parse_line columns line = Some item →
  identity_set ⊆ dom item ∧ dom item ⊆ identity_set ∪ list_to_set columns.
Proof.
  unfold parse_line. destruct (_ || _); [done|].
  destruct (re_match _ _) as [m|]; [|done]. cbv zeta.
  destruct (has_identity _) eqn:Hi; [|done]. intros [= <-].
  split; [by apply has_identity_spec|].
  etrans; [apply bind_cells_dom|]. rewrite !dom_insert, dom_empty.
  unfold identity_set. set_solver.
Qed.

Lemma parse_parts_ok columns line item :
  parse_parts columns line = Some item →
  identity_set ⊆ dom item ∧ dom item ⊆ identity_set ∪ list_to_set columns.
Proof.
  unfold parse_parts. cbv zeta. destruct (_ <? 3)%nat; [done|].
  destruct (split_spaces _) as [|first others]; [done|].
  destruct (_ || _); [|done]. destruct (negb _); [done|].
  destruct (name_parts others) as [names values].
  destruct names as [|name names]; [done|]. intros [= <-].
  split.
  - etrans; [|apply bind_cells_dom]. rewrite !dom_insert, dom_empty.
    unfold identity_set. set_solver.
  - etrans; [apply bind_cells_dom|]. rewrite !dom_insert, dom_empty.
    unfold identity_set. set_solver.
Qed.

Lemma elem_of_omap_Some {A B} (f : A → option B) (l : list A) y :
  y ∈ omap f l → ∃ x, x ∈ l ∧ f x = Some y.
Proof. intros H. by apply list_elem_of_omap in H. Qed.

Lemma parsed_row_dom text columns row :
  row ∈ parse_markdown_table text columns →
  identity_set ⊆ dom row ∧ dom row ⊆ identity_set ∪ list_to_set columns.
Proof.
  intros Hin. unfold parse_markdown_table in Hin.
  destruct (re_search _ _) as [m|].
  - apply elem_of_omap_Some in Hin as (r & _ & Hr).
    apply parse_row_ok in Hr as [? ?]. set_solver.
  - unfold parse_table_data in Hin. cbv zeta in Hin.
    destruct (omap (parse_line columns) _) as [|r0 rs] eqn:Hlines.
    + apply elem_of_omap_Some in Hin as (r & _ & Hr). by apply parse_parts_ok in Hr.
    + rewrite <- Hlines in Hin.
      apply elem_of_omap_Some in Hin as (r & _ & Hr). by apply parse_line_ok in Hr.
Qed.

(** X8: every row the parsers return, by whichever strategy, has the
    fields [foodCode] and [foodName], and no field besides these two and the
    columns given: the cells beyond the last column are left out. *)
Theorem parsed_rows_well_formed text columns row :
  row ∈ parse_markdown_table text columns →
  is_Some (row !! "foodCode") ∧ is_Some (row !! "foodName")
  ∧ dom row ⊆ identity_set ∪ list_to_set columns.
Proof.
  intros [H1 H2]%parsed_row_dom.
  rewrite <- !elem_of_dom. unfold identity_set in H1. set_solver.
Qed.

Lemma parsed_rows_well_formed_witness :
  is_Some (nameless_row !! "foodCode") ∧ is_Some (nameless_row !! "foodName")
  ∧ dom nameless_row ⊆ identity_set ∪ list_to_set energy_cols.
Proof.
  apply (parsed_rows_well_formed nameless_table energy_cols nameless_row).
  by_computation.
Defined.

End ParserFacts.

Module FenceMore.
Import Re Fence FenceSpec PyFacts ReFacts StripFacts MatchFacts.

Lemma space_not_backtick : Py.is_space backtick = false.
Proof. reflexivity. Qed.

Lemma closing_matches n we trail cs k m :
  blank we → blank trail →
  k (MState (n + String.length we + 3 + String.length trail) EmptyString cs) = Some m →
  run closing (MState n (we +:+ fence +:+ trail) cs) k = Some m.
Proof.
  intros Hwe Htrail Hk. unfold closing, space. rewrite run_Seq, run_star_chr.
  cbn [pos rest caps]. apply star_greedy_first.
  change (fence +:+ trail) with (String backtick ("``" +:+ trail)).
  rewrite take_while_app_stop, drop_while_app_stop by apply space_not_backtick.
  rewrite take_while_all, drop_while_all by done. rewrite app_empty_l.
  change (String backtick ("``" +:+ trail)) with ("```" +:+ trail).
  rewrite run_Seq, run_Lit_app, run_Seq, run_star_chr. cbn [pos rest caps].
  apply star_greedy_first. rewrite take_while_all, drop_while_all by done.
  rewrite run_Seq, run_Eol. cbn [rest]. rewrite run_Eps.
  cbn [String.length]. exact Hk.
Qed.

Lemma closing_fails n v tail cs k :
  Py.all Py.is_space v = false → tickless v →
  run closing (MState n (v +:+ tail) cs) k = None.
Proof.
  intros Hv Ht. unfold closing, space. rewrite run_Seq, run_star_chr. cbn [pos rest caps].
  destruct (all_false_split _ _ Hv) as (c & s' & Hsplit & Hc).
  rewrite Hsplit, app_assoc, app_cons.
  apply (star_then_lit_fails Py.is_space backtick "``").
  - apply all_take_while.
  - done.
  - reflexivity.
  - intros <-. unfold tickless in Ht. rewrite Hsplit, any_app in Ht.
    cbn [Py.any] in Ht. rewrite Ascii.eqb_refl in Ht.
    by rewrite orb_true_r in Ht.
Qed.

Lemma all_true s : Py.all (λ _, true) s = true.
Proof. by induction s. Qed.

Lemma tickless_app a b : tickless (a +:+ b) ↔ tickless a ∧ tickless b.
Proof. unfold tickless. rewrite any_app. apply orb_false_iff. Qed.

Lemma lstrip_head body tail :
  String.prefix (String Py.newline EmptyString)
    (Py.drop_while Py.is_space body +:+ fence +:+ tail) = false.
Proof.
  destruct (StripFacts.drop_while_head Py.is_space body) as [->|(c & t & -> & Hc)].
  - reflexivity.
  - rewrite app_cons. cbn [String.prefix].
    destruct (ascii_dec Py.newline c) as [<-|]; [done|done].
Qed.

(** The parts of a text: its leading whitespace, the text stripped, its
    trailing whitespace. *)
Lemma strip_parts body :
  ∃ we, body = Py.take_while Py.is_space body +:+ Py.strip body +:+ we
        ∧ Py.drop_while Py.is_space body = Py.strip body +:+ we
        ∧ blank we.
Proof.
  destruct (drop_while_end_split Py.is_space (Py.drop_while Py.is_space body))
    as (we & Hsplit & Hwe).
  exists we. split; [|by split].
  rewrite <- (take_drop_while Py.is_space body) at 1. f_equal. exact Hsplit.
Qed.

Lemma after_word_matches n body trail cs k m :
  tickless body → blank trail →
  k (MState (n + String.length body + 3 + String.length trail) EmptyString
       ((1, (n + String.length (Py.take_while Py.is_space body),
             n + String.length (Py.take_while Py.is_space body)
               + String.length (Py.strip body))) :: cs)) = Some m →
  run after_word (MState n (body +:+ fence +:+ trail) cs) k = Some m.
Proof.
  intros Htick Htrail Hk.
  destruct (strip_parts body) as (we & Hbody & Hdrop & Hwe).
  unfold after_word, space. rewrite run_Seq, run_star_chr. cbn [pos rest caps].
  apply star_greedy_first.
  change (fence +:+ trail) with (String backtick ("``" +:+ trail)).
  rewrite take_while_app_stop, drop_while_app_stop by apply space_not_backtick.
  change (String backtick ("``" +:+ trail)) with (fence +:+ trail).
  set (n1 := (n + String.length (Py.take_while Py.is_space body))%nat) in *.
  rewrite run_Seq. unfold Opt, nl. rewrite run_Alt.
  rewrite run_Lit_fails by apply lstrip_head.
  rewrite run_Eps, run_Seq, run_Group. unfold dotall. rewrite run_star_chr.
  cbn [pos rest caps]. rewrite Hdrop, app_assoc.
  apply star_lazy_first.
  - apply all_true.
  - intros u v Huv Hv. unfold close_group. cbn [pos rest caps].
    apply closing_fails.
    + eapply drop_while_end_suffix; [exact Huv|done].
    + rewrite Hbody in Htick. apply tickless_app in Htick as [_ Htick].
      apply tickless_app in Htick as [Htick _]. rewrite Huv in Htick.
      by apply tickless_app in Htick as [_ ?].
  - unfold close_group. cbn [pos rest caps].
    apply closing_matches; [done|done|].
    rewrite <- Hk. do 3 f_equal.
    assert (String.length body
            = (String.length (Py.take_while Py.is_space body)
               + (String.length (Py.strip body) + String.length we))%nat) as Hlen.
    { rewrite Hbody at 1. by rewrite !length_app. }
    unfold n1. lia.
Qed.

Lemma prefix_app_stop w body tail :
  tickless w →
  String.prefix w (body +:+ String backtick tail) = String.prefix w body.
Proof.
  revert body. induction w as [|c w IH]; intros body Hw.
  - by destruct body.
  - unfold tickless in Hw. cbn [Py.any] in Hw. apply orb_false_iff in Hw as [Hc Hw].
    destruct body as [|x body].
    + rewrite app_empty_l. cbn [String.prefix].
      destruct (ascii_dec c backtick) as [->|]; [|done].
      by rewrite Ascii.eqb_refl in Hc.
    + rewrite app_cons. cbn [String.prefix]. destruct (ascii_dec c x); [|done].
      by apply IH.
Qed.

Lemma word_matches n word body tail cs k m :
  opens word body → tickless body →
  k (MState (n + String.length word) (body +:+ String backtick tail) cs) = Some m →
  run (Opt fence_word) (MState n (word +:+ body +:+ String backtick tail) cs) k = Some m.
Proof.
  intros [Hword|[-> Hnone]] Htick Hk.
  - unfold Opt. rewrite run_Alt.
    assert (run fence_word (MState n (word +:+ body +:+ String backtick tail) cs) k
            = Some m) as ->; [|done].
    unfold fence_word, fence_words in *.
    repeat (apply elem_of_cons in Hword as [->|Hword]);
      [| | | |by apply elem_of_nil in Hword].
    + by rewrite run_Alt, run_Lit_app, Hk.
    + rewrite run_Alt, run_Lit_fails by reflexivity.
      by rewrite run_Alt, run_Lit_app, Hk.
    + rewrite run_Alt, run_Lit_fails by reflexivity.
      rewrite run_Alt, run_Lit_fails by reflexivity.
      by rewrite run_Alt, run_Lit_app, Hk.
    + rewrite run_Alt, run_Lit_fails by reflexivity.
      rewrite run_Alt, run_Lit_fails by reflexivity.
      rewrite run_Alt, run_Lit_fails by reflexivity.
      apply run_Lit_app_eq. exact Hk.
  - rewrite app_empty_l in *. cbn [String.length] in Hk. rewrite Nat.add_0_r in Hk.
    unfold Opt. rewrite run_Alt.
    assert (run fence_word (MState n (body +:+ String backtick tail) cs) k = None) as ->.
    { unfold fence_word, fence_words in *.
      apply Forall_cons in Hnone as [H1 Hnone].
      apply Forall_cons in Hnone as [H2 Hnone].
      apply Forall_cons in Hnone as [H3 Hnone].
      apply Forall_cons in Hnone as [H4 _].
      unfold Py.startswith in *.
      rewrite run_Alt, run_Lit_fails by (cbn [rest]; by rewrite prefix_app_stop).
      rewrite run_Alt, run_Lit_fails by (cbn [rest]; by rewrite prefix_app_stop).
      rewrite run_Alt, run_Lit_fails by (cbn [rest]; by rewrite prefix_app_stop).
      apply run_Lit_fails. cbn [rest]. by rewrite prefix_app_stop. }
    by rewrite run_Eps.
Qed.

(** X9: the text [extract_markdown_table] returns has no whitespace at its
    ends: stripping it again changes nothing. *)
Theorem extracted_text_is_stripped response_text :
  Py.strip (extract_markdown_table response_text) = extract_markdown_table response_text.
Proof.
  unfold extract_markdown_table. destruct (re_fullmatch _ _); apply strip_idem.
Qed.

(** X10: a text that holds no fence is returned as it is, without the
    whitespace at its ends. *)
Theorem unfenced_text_is_kept response_text :
  Py.contains "```" response_text = false →
  extract_markdown_table response_text = Py.strip response_text.
Proof.
  intros Hc. unfold extract_markdown_table.
  assert (re_fullmatch fence_pattern response_text = None) as ->; [|done].
  unfold re_fullmatch, fence_pattern, Cat. cbn [foldr].
  rewrite run_Group, run_Seq.
  rewrite run_fails; [done|]. intros st1 H1. rewrite run_Seq.
  apply run_fails. intros st2 H2. rewrite run_Seq.
  apply run_Lit_fails. eapply contains_suffix; [exact Hc|].
  eapply is_suffix_trans; [exact H2|exact H1].
Qed.

Lemma fence_match lead word body trail :
  blank lead → opens word body → tickless body → blank trail →
  let text := fenced_text lead word body trail in
  let n1 := (String.length lead + 3 + String.length word
             + String.length (Py.take_while Py.is_space body))%nat in
  let n := String.length text in
  re_fullmatch fence_pattern text
  = Some (Match text (MState n EmptyString
            [(0, (0, n)); (1, (n1, n1 + String.length (Py.strip body)))%nat])).
Proof.
  intros Hlead Hopen Htick Htrail. cbv zeta.
  assert (Hlen : String.length (fenced_text lead word body trail)
                 = (String.length lead + 3 + String.length word
                    + String.length body + 3 + String.length trail)%nat).
  { unfold fenced_text, fence. rewrite !length_app. cbn [String.length]. lia. }
  unfold re_fullmatch.
  match goal with |- _ <$> ?r = _ => assert (r = Some (MState
      (String.length (fenced_text lead word body trail)) EmptyString
      [(0, (0, String.length (fenced_text lead word body trail)));
       (1, (String.length lead + 3 + String.length word
            + String.length (Py.take_while Py.is_space body),
            String.length lead + 3 + String.length word
            + String.length (Py.take_while Py.is_space body)
            + String.length (Py.strip body)))%nat])) as ->; [|done] end.
  rewrite run_Group. unfold fence_pattern, Cat. cbn [foldr].
  rewrite run_Seq, run_Bol. unfold start. cbn [pos Nat.eqb].
  unfold space at 1. rewrite run_Seq, run_star_chr. cbn [pos rest caps].
  apply star_greedy_first. unfold fenced_text.
  change (fence +:+ word +:+ body +:+ fence +:+ trail)
    with (String backtick ("``" +:+ word +:+ body +:+ fence +:+ trail)).
  rewrite take_while_app_stop, drop_while_app_stop by apply space_not_backtick.
  rewrite take_while_all, drop_while_all by done. rewrite app_empty_l.
  change (String backtick ("``" +:+ word +:+ body +:+ fence +:+ trail))
    with ("```" +:+ word +:+ body +:+ fence +:+ trail).
  rewrite run_Seq, run_Lit_app, run_Seq.
  change (fence +:+ trail) with (String backtick ("``" +:+ trail)).
  apply word_matches; [done|done|].
  change (String backtick ("``" +:+ trail)) with (fence +:+ trail).
  apply (after_word_matches _ body trail); [done|done|].
  unfold close_group. cbn [pos rest caps String.length].
  change (lead +:+ "```" +:+ word +:+ body +:+ fence +:+ trail)
    with (fenced_text lead word body trail).
  rewrite Hlen. cbn [Nat.add]. reflexivity.
Qed.

Lemma unfenced_text_is_kept_witness :
  extract_markdown_table "  | a |  " = "| a |".
Proof. refine (unfenced_text_is_kept "  | a |  " _). reflexivity. Defined.

(** Group 1 of the match of [fence_pattern] on a fenced text. *)
Lemma fence_group lead word body trail :
  let n1 := (String.length lead + 3 + String.length word
             + String.length (Py.take_while Py.is_space body))%nat in
  String.substring n1 (n1 + String.length (Py.strip body) - n1)
    (fenced_text lead word body trail) = Py.strip body.
Proof.
  cbv zeta. destruct (strip_parts body) as (we & Hbody & _ & _).
  set (tw := Py.take_while Py.is_space body) in *.
  assert (fenced_text lead word body trail
          = (lead +:+ fence +:+ word +:+ tw) +:+ Py.strip body +:+ we +:+ fence +:+ trail)
    as ->.
  { unfold fenced_text. rewrite Hbody at 1. by rewrite !app_assoc. }
  replace (String.length lead + 3 + String.length word + String.length tw)%nat
    with (String.length (lead +:+ fence +:+ word +:+ tw)).
  2:{ unfold fence. rewrite !length_app. cbn [String.length]. lia. }
  replace (String.length (lead +:+ fence +:+ word +:+ tw)
           + String.length (Py.strip body)
           - String.length (lead +:+ fence +:+ word +:+ tw))%nat
    with (String.length (Py.strip body)) by lia.
  by rewrite substring_skip, substring_prefix.
Qed.

(** X11: a text without backticks inside one pair of fences, the opening
    fence followed by one of the words markdown, MARKDOWN, md and MD, or by
    no word when the text starts with none of them, with whitespace only
    around the fences, comes back without the fences, the word and the
    whitespace at its ends. *)
Theorem listed_fence_is_removed lead word body trail :
  blank lead → opens word body → tickless body → blank trail →
  extract_markdown_table (fenced_text lead word body trail) = Py.strip body.
Proof.
  intros Hlead Hopen Htick Htrail. unfold extract_markdown_table.
  rewrite fence_match by done. cbv zeta.
  unfold group_text, group. cbn [final caps span_of Nat.eqb subject default from_option id].
  rewrite fence_group. apply StripFacts.strip_idem.
Qed.

Lemma listed_fence_is_removed_witness :
  extract_markdown_table
    (fenced_text Examples.line_break "md" (Examples.line_break +:+ "| a |" +:+ Examples.line_break) " ")
  = "| a |".
Proof.
  refine (listed_fence_is_removed Examples.line_break "md"
            (Examples.line_break +:+ "| a |" +:+ Examples.line_break) " " _ _ _ _).
  - reflexivity.
  - left. unfold fence_words. set_solver.
  - reflexivity.
  - reflexivity.
Defined.

End FenceMore.

Module FetchMore.
Import Fetch FetchSpec FetchMoreSpec FetchFacts.

Lemma outcome_rows service image_name is_energy k data :
  outcome service image_name is_energy k = Ok data →
  data ≠ []
  ∧ ∃ content, service k = Ok content
      ∧ data = Parser.parse_markdown_table (Fence.extract_markdown_table content)
                 (columns_of is_energy).
Proof.
  unfold outcome, process_image, columns_of. destruct (service k) as [content|e]; [|done].
  cbv zeta. destruct (Parser.parse_markdown_table _ _) as [|row rows] eqn:Hp; [done|].
  cbn [snd]. intros [= <-]. split; [done|]. by exists content.
Qed.

Lemma first_success_fails attempt from n :
  first_success attempt from n = None →
  ∀ j, (from ≤ j < from + n)%nat → is_ok (attempt j) = false.
Proof.
  revert from. induction n as [|n IH]; intros from Hfs j Hj; [lia|].
  cbn [first_success] in Hfs. destruct (attempt from) as [d|e] eqn:Ha; [done|].
  destruct (decide (j = from)) as [->|Hne]; [by rewrite Ha|].
  apply (IH (S from)); [done|lia].
Qed.

(** X12: the retrying fetcher returns the empty list exactly when every
    attempt it is allowed failed, which is exactly when it leaves a
    quarantine file for the image; with a negative [max_retries] it makes no
    attempt at all, and the quarantine text names no error. *)
Theorem retry_empty_iff_exhausted service image_name is_energy max_retries w :
  let run := process_image_with_retry service image_name is_energy max_retries w in
  let attempt := outcome service image_name is_energy in
  let limit := Z.to_nat (max_retries + 1) in
  (run.2 = [] ↔ ∀ k, (k < limit)%nat → is_ok (attempt k) = false)
  ∧ (run.2 = [] ↔ is_Some (failed_dir run.1 !! error_path image_name))
  ∧ ((max_retries < 0)%Z →
       run.2 = [] ∧ trace run.1 = trace w
       ∧ failed_dir run.1 !! error_path image_name
         = Some ("Error after " +:+ pretty max_retries +:+ " retries: None")).
Proof.
  cbv zeta.
  pose proof (retry_spec service image_name is_energy max_retries w) as H.
  cbv zeta in H.
  destruct (first_success _ 0 _) as [[k data]|] eqn:Hfs.
  - destruct H as (H1 & H2 & H3).
    apply first_success_Some in Hfs as Hk. destruct Hk as (Hk & Hok & _).
    apply outcome_rows in Hok as Hrows. destruct Hrows as [Hne _].
    split; [|split].
    + rewrite H1. split; [done|]. intros Hall. specialize (Hall k).
      rewrite Hok in Hall. discriminate Hall. lia.
    + rewrite H1, H2, lookup_delete_eq. split; [done|]. by intros [? ?].
    + intros Hneg. replace (Z.to_nat (max_retries + 1)) with 0%nat in Hk by lia. lia.
  - destruct H as (H1 & H2 & H3). split; [|split].
    + split; [|done]. intros _ j Hj. apply (first_success_fails _ _ _ Hfs). lia.
    + rewrite H1, H2, lookup_insert_eq. split; [eauto|done].
    + intros Hneg. split; [done|].
      replace (Z.to_nat (max_retries + 1)) with 0%nat in * by lia.
      split; [by rewrite H3, app_nil_r|]. by rewrite H2, lookup_insert_eq.
Qed.

Lemma sum_backoff a n :
  (4 * foldr Z.add 0 (backoff <$> seq (S a) n)
   = 5 ^ (Z.of_nat a + Z.of_nat n) - 5 ^ Z.of_nat a)%Z.
Proof.
  revert a. induction n as [|n IH]; intros a.
  - cbn [seq fmap list_fmap foldr].
    replace (Z.of_nat a + Z.of_nat 0)%Z with (Z.of_nat a) by lia. lia.
  - cbn [seq fmap list_fmap foldr]. rewrite Z.mul_add_distr_l, IH.
    unfold backoff.
    replace (Z.of_nat (S a) - 1)%Z with (Z.of_nat a) by lia.
    replace (Z.of_nat (S a) + Z.of_nat n)%Z with (Z.of_nat a + Z.of_nat (S n))%Z by lia.
    assert (5 ^ Z.of_nat (S a) = 5 * 5 ^ Z.of_nat a)%Z as ->.
    { replace (Z.of_nat (S a)) with (Z.succ (Z.of_nat a)) by lia.
      apply Z.pow_succ_r. lia. }
    lia.
Qed.

(** X13: a run whose attempts all fail sleeps (5^(max_retries+1) - 5) / 4
    seconds in all: 155 seconds for the default of three retries. *)
Theorem exhausted_run_sleeps service image_name is_energy max_retries w :
  (0 ≤ max_retries)%Z →
  (∀ k, (k < Z.to_nat (max_retries + 1))%nat →
     is_ok (outcome service image_name is_energy k) = false) →
  let run := process_image_with_retry service image_name is_energy max_retries w in
  (4 * (total_sleep (trace run.1) - total_sleep (trace w))
   = 5 ^ (max_retries + 1) - 5)%Z.
Proof.
  intros Hmax Hall. cbv zeta.
  pose proof (retry_spec service image_name is_energy max_retries w) as H.
  cbv zeta in H. rewrite all_fail_first_success in H.
  2:{ intros j Hj. apply Hall. lia. }
  destruct H as (_ & _ & ->). unfold total_sleep, sleeps.
  rewrite omap_app, foldr_app. fold (sleeps (trace w)).
  fold (sleeps (events_of 0 (Z.to_nat (max_retries + 1)))).
  rewrite sleeps_events_of_0.
  assert (Hshift : ∀ l z, (foldr Z.add z l = foldr Z.add 0 l + z)%Z).
  { induction l as [|x l IH]; intros z; cbn [foldr]; [lia|]. rewrite IH. lia. }
  rewrite (Hshift (sleeps (trace w))).
  pose proof (sum_backoff 1 (Z.to_nat (max_retries + 1) - 1)) as Hsum.
  replace (Z.of_nat 1 + Z.of_nat (Z.to_nat (max_retries + 1) - 1))%Z
    with (max_retries + 1)%Z in Hsum by lia.
  change (5 ^ Z.of_nat 1)%Z with 5%Z in Hsum. lia.
Qed.

Lemma process_image_log response image_name is_energy w :
  temp_responses_dir (process_image response image_name is_energy w).1
  = match response with
    | Ok content =>
        <[response_log_path image_name := Fence.extract_markdown_table content]>
          (temp_responses_dir w)
    | Raise _ => temp_responses_dir w
    end.
Proof.
  unfold process_image. destruct response as [content|e]; [|done].
  cbv zeta. by destruct (Parser.parse_markdown_table _ _).
Qed.

Lemma retry_loop_log service image_name is_energy max_retries n :
  ∀ retries last w,
  let run := retry_loop service image_name is_energy max_retries n retries last w in
  (∀ name, name ≠ response_log_path image_name →
     temp_responses_dir run.1 !! name = temp_responses_dir w !! name)
  ∧ (∀ k data,
       first_success (outcome service image_name is_energy) retries n = Some (k, data) →
       ∃ content, service k = Ok content
         ∧ temp_responses_dir run.1 !! response_log_path image_name
           = Some (Fence.extract_markdown_table content)
         ∧ data = Parser.parse_markdown_table (Fence.extract_markdown_table content)
                    (columns_of is_energy)).
Proof.
  induction n as [|n IH]; intros retries last w; cbv zeta.
  - cbn [retry_loop first_success fst temp_responses_dir]. by split.
  - cbn [retry_loop first_success].
    set (w1 := log_event (Call (S retries)) _).
    assert (Hw1 : temp_responses_dir w1 = temp_responses_dir w).
    { unfold w1. by destruct (0 <? retries)%nat. }
    pose proof (process_image_log (service retries) image_name is_energy w1) as Hlog.
    destruct (process_image_world (service retries) image_name is_energy w1)
      as (_ & _ & Hr).
    destruct (process_image (service retries) image_name is_energy w1) as [w2 r] eqn:Hp.
    cbn [fst snd] in Hlog, Hr. fold (outcome service image_name is_energy retries) in Hr.
    rewrite <- Hr. rewrite Hw1 in Hlog.
    destruct r as [data|e].
    + cbn [fst temp_responses_dir]. symmetry in Hr.
      apply outcome_rows in Hr as (_ & content & Hc & Hd).
      rewrite Hc in Hlog. rewrite Hlog. split.
      * intros name Hname. by rewrite lookup_insert_ne.
      * intros k data' [= <- <-]. exists content. by rewrite lookup_insert_eq.
    + destruct (IH (S retries) (Some e) w2) as [IH1 IH2]. split.
      * intros name Hname. rewrite IH1 by done. rewrite Hlog.
        destruct (service retries); [by rewrite lookup_insert_ne|done].
      * exact IH2.
Qed.

Lemma exhausted_run_sleeps_witness :
  (4 * (total_sleep
          (trace (process_image_with_retry dead_service "fish-energy.png" true 3
                    stale_world).1)
        - total_sleep (trace stale_world))
   = 5 ^ (3 + 1) - 5)%Z.
Proof.
  apply (exhausted_run_sleeps dead_service "fish-energy.png" true 3 stale_world).
  - lia.
  - intros k _. reflexivity.
Defined.

(** X14: when the fetcher returns rows, the response log of the image holds
    the answer of the service, fences removed, that these rows were parsed
    from; no other file of the response directory is touched. *)
Theorem response_log_matches_rows service image_name is_energy max_retries w :
  let run := process_image_with_retry service image_name is_energy max_retries w in
  run.2 ≠ [] →
  (∃ content k, service k = Ok content ∧ (k < Z.to_nat (max_retries + 1))%nat
     ∧ temp_responses_dir run.1 !! response_log_path image_name
       = Some (Fence.extract_markdown_table content)
     ∧ run.2 = Parser.parse_markdown_table (Fence.extract_markdown_table content)
                 (columns_of is_energy))
  ∧ (∀ name, name ≠ response_log_path image_name →
       temp_responses_dir run.1 !! name = temp_responses_dir w !! name).
Proof.
  cbv zeta. intros Hrows.
  pose proof (retry_spec service image_name is_energy max_retries w) as H.
  cbv zeta in H.
  destruct (retry_loop_log service image_name is_energy max_retries
              (Z.to_nat (max_retries + 1)) 0 None w) as [Hframe Hlog].
  fold (process_image_with_retry service image_name is_energy max_retries w)
    in Hframe, Hlog.
  split; [|exact Hframe].
  destruct (first_success _ 0 _) as [[k data]|] eqn:Hfs.
  - destruct H as (H1 & _). destruct (Hlog k data eq_refl) as (content & Hc & Hl & Hd).
    apply first_success_Some in Hfs as (Hk & _).
    exists content, k. rewrite H1. repeat split; [done|lia|done|done].
  - by destruct H as (H1 & _).
Qed.

Lemma response_log_matches_rows_witness :
  let run := process_image_with_retry flaky_service "fish-energy.png" true 3
               stale_world in
  (∃ content k, flaky_service k = Ok content ∧ (k < Z.to_nat (3 + 1))%nat
     ∧ temp_responses_dir run.1 !! response_log_path "fish-energy.png"
       = Some (Fence.extract_markdown_table content)
     ∧ run.2 = Parser.parse_markdown_table (Fence.extract_markdown_table content)
                 (columns_of true))
  ∧ (∀ name, name ≠ response_log_path "fish-energy.png" →
       temp_responses_dir run.1 !! name = temp_responses_dir stale_world !! name).
Proof.
  apply (response_log_matches_rows flaky_service "fish-energy.png" true 3 stale_world).
  vm_compute. discriminate.
Defined.

End FetchMore.

Module SortFilesFacts.
Import Sort SortSpec SortOrder SortFiles SortFacts SortMore.

Lemma sort_file_again file : sort_file (sort_file file).1 = sort_file file ∨
  ∃ name data out, file = (name, JArray data)
    ∧ sort_food_data_by_code data = Ok out
    ∧ (sort_file file).1 = (name, JArray out)
    ∧ (sort_file (name, JArray out)).1 = (name, JArray out).
Proof.
  destruct file as [name [data| |]]; [|by left..].
  cbn [sort_file]. destruct (sort_food_data_by_code data) as [out|e] eqn:Hs.
  - right. exists name, data, out. split; [done|]. split; [done|]. split; [done|].
    cbn [sort_file fst]. apply sort_ok_inv in Hs as [Hsafe ->].
    by rewrite (sort_of_sorted _ Hsafe).
  - left. cbn [fst sort_file]. by rewrite Hs.
Qed.

Lemma sort_file_idem file : (sort_file (sort_file file).1).1 = (sort_file file).1.
Proof.
  destruct (sort_file_again file) as [->|(name & data & out & -> & _ & -> & ->)]; done.
Qed.

Lemma files_after_Some json_files :
  files_after (Some json_files) = Some ((sort_file <$> json_files).*1).
Proof. by destruct json_files. Qed.

(** X15: the sort-only mode is idempotent: a second run over the directory
    leaves every file as the first run left it. *)
Theorem sort_only_is_idempotent directory :
  files_after (files_after directory) = files_after directory.
Proof.
  destruct directory as [json_files|]; [|done].
  rewrite !files_after_Some. f_equal.
  rewrite <- !list_fmap_compose. apply list_fmap_ext. intros i file _.
  apply sort_file_idem.
Qed.

(** X16: a run of the sort-only mode keeps the names and the order of the
    JSON files; a file that holds an array of rows with safe codes holds,
    after the run, the same rows in ascending order of their keys; a file
    that holds no array, or an array on which the sort raises, is left as
    it was. The arrays are those of the model: objects whose values are
    texts of characters below U+0100. A code is safe when [isdigit] accepts
    it only if all its characters are decimal digits and it starts with at
    most 4300 decimal digits; rows with another code make the sort raise,
    and the handler of the loop leaves the file unsorted. *)
Theorem sort_only_sorts_in_place json_files :
  ∃ after,
    files_after (Some json_files) = Some after
    ∧ after.*1 = json_files.*1
    ∧ Forall2 (λ before after,
         match before.2 with
         | JArray data =>
             (Forall (λ item, safe_code (food_code item) = true) data →
                ∃ out, after.2 = JArray out ∧ out ≡ₚ data ∧ ascending out)
             ∧ (Exists unsafe_row data → after.2 = before.2)
         | _ => after.2 = before.2
         end) json_files after
    ∧ ∀ item,
        unsafe_row item ↔
        safe_code (food_code item) = false
        ∧ ((Py.isdigit (food_code item) = true
            ∧ Py.all Py.is_decimal (food_code item) = false)
           ∨ (4300 < Z.of_nat (String.length (leading_digits (food_code item))))%Z).
Proof.
  exists ((sort_file <$> json_files).*1). split; [apply files_after_Some|].
  split; [|split].
  3:{ intros item. split.
      - intros Hu. split; [exact Hu|]. by apply unsafe_row_spec.
      - by intros [Hu _]. }
  - rewrite <- !list_fmap_compose. apply list_fmap_ext.
    intros i [name [data| |]] _; cbn; [|done..].
    by destruct (sort_food_data_by_code data).
  - rewrite <- list_fmap_compose. apply Forall2_fmap_r, Forall_Forall2_diag.
    apply Forall_forall. intros [name [data| |]] _; cbn; [|done..].
    destruct (sort_cases data) as [[Hsafe Hs]|(item & Hex & Hs)]; rewrite Hs; cbn.
    + split.
      * intros _. destruct (sort_safe data Hsafe) as (out & Hout & Hp & Ha).
        rewrite Hs in Hout. injection Hout as Hout. exists out. by rewrite Hout.
      * intros (bad & Hin & Hu)%Exists_exists.
        apply (proj1 (Forall_forall _ _) Hsafe) in Hin. unfold unsafe_row in Hu. congruence.
    + split; [|done]. intros Hsafe.
      apply first_unsafe_elem in Hex as (Hin & Hu).
      apply (proj1 (Forall_forall _ _) Hsafe) in Hin. unfold unsafe_row in Hu. congruence.
Qed.

End SortFilesFacts.

Module CategoryMore.
Import Re Discover SecondPassSpec CategorySpec PyFacts ReFacts MatchFacts.

Lemma dash_before_app p a b :
  dash_before p (a +:+ b) = false → dash_before p b = false.
Proof.
  induction a as [|c a IH]; [done|]. rewrite app_cons. cbn [dash_before].
  intros [_ H]%orb_false_iff. by apply IH.
Qed.

Lemma dash_before_suffix p u v w :
  dash_before p (u +:+ v +:+ String "-" w) = false → v ≠ EmptyString →
  match v with
  | String a v' =>
      a = "-"%char →
      match v' +:+ String "-" w with
      | String b _ => p b = false
      | EmptyString => True
      end
  | EmptyString => True
  end.
Proof.
  intros H Hv. apply dash_before_app in H. destruct v as [|a v']; [done|].
  intros ->. rewrite app_cons in H. cbn [dash_before] in H.
  apply orb_false_iff in H as [H _]. rewrite Ascii.eqb_refl in H. cbn in H.
  by destruct (v' +:+ String "-" w).
Qed.

Lemma dash_next p u v' w :
  dash_before p (u +:+ String "-" v' +:+ "-") = false →
  match v' +:+ String "-" w with
  | String b _ => p b = false
  | EmptyString => True
  end.
Proof.
  intros H. apply dash_before_app in H. rewrite app_cons in H.
  cbn [dash_before] in H. apply orb_false_iff in H as [H _].
  rewrite Ascii.eqb_refl in H. cbn [andb] in H.
  destruct v' as [|b v']; [|by rewrite !app_cons in *].
  rewrite app_empty_l in *. done.
Qed.

Lemma one_line_cons c s : one_line (String c s) → dot_class c = true ∧ one_line s.
Proof.
  unfold one_line. cbn [Py.all]. by intros [? ?]%andb_true_iff.
Qed.

Lemma one_line_all s : one_line s → Py.all dot_class s = true.
Proof. done. Qed.

Lemma suffix_alt_matches kind n tail cs k m :
  kind ∈ kinds →
  k (MState (n + String.length kind) tail cs) = Some m →
  run suffix_alt (MState n (kind +:+ tail) cs) k = Some m.
Proof.
  intros Hkind Hk. unfold suffix_alt, kinds in *.
  apply elem_of_cons in Hkind as [->|Hkind].
  - by rewrite run_Alt, run_Lit_app, Hk.
  - apply list_elem_of_singleton in Hkind as ->.
    rewrite run_Alt, run_Lit_fails by reflexivity. by rewrite run_Lit_app.
Qed.

Lemma kind_head kind : kind ∈ kinds → ∃ t, kind = String "-" t.
Proof.
  unfold kinds. intros [->|H]%elem_of_cons; [by eexists|].
  apply list_elem_of_singleton in H as ->. by eexists.
Qed.

Lemma decimal_not_dash : Py.is_decimal "-" = false.
Proof. reflexivity. Qed.

Lemma numbered_match name digits kind tail :
  name ≠ EmptyString → one_line name →
  dash_before Py.is_decimal (name +:+ hyphen) = false →
  Py.nonempty digits = true → Py.all Py.is_decimal digits = true →
  kind ∈ kinds →
  let text := name +:+ hyphen +:+ digits +:+ kind +:+ tail in
  let n := (String.length name + 1 + String.length digits + String.length kind)%nat in
  re_match numbered_pattern text
  = Some (Match text (MState n tail [(0, (0, n)); (1, (0, String.length name))]%nat)).
Proof.
  intros Hne Hline Hdash Hd1 Hd2 Hkind. cbv zeta.
  destruct name as [|c0 name']; [done|].
  apply one_line_cons in Hline as [Hc0 Hline].
  destruct digits as [|d ds]; [done|]. cbn [Py.all] in Hd2.
  apply andb_true_iff in Hd2 as [Hd Hds].
  destruct (kind_head kind Hkind) as [kt Hkt].
  unfold re_match.
  match goal with |- _ <$> ?r = Some (Match _ ?m) => assert (r = Some m) as ->; [|done] end.
  rewrite run_Group. unfold numbered_pattern, Plus, dot, digit. fold dot_class.
  rewrite run_Seq, run_Group, run_Seq, run_Chr. unfold start. cbn [rest].
  rewrite app_cons, Hc0. unfold advance. cbn [pos rest caps].
  rewrite run_star_chr. cbn [pos rest caps].
  apply star_lazy_first; [by apply one_line_all| |].
  - intros u v Huv Hv. unfold close_group. cbn [pos rest caps].
    rewrite run_Seq. destruct v as [|a v']; [done|].
    destruct (Ascii.eqb_spec "-" a) as [<-|Hna].
    + change (Lit "-") with (Seq (Chr (Ascii.eqb "-")) Eps).
      rewrite run_Seq, run_Chr, app_cons. cbn [rest]. rewrite Ascii.eqb_refl.
      unfold advance. cbn [pos rest caps]. rewrite run_Eps, run_Seq, run_Seq, run_Chr.
      cbn [rest]. unfold hyphen.
      pose proof (dash_next Py.is_decimal (String c0 u) v'
                    (String d ds +:+ kind +:+ tail)) as Hnext.
      rewrite Huv, app_cons in Hdash. rewrite app_assoc, !app_cons in Hdash.
      rewrite !app_cons in Hnext. specialize (Hnext Hdash).
      change (v' +:+ "-" +:+ String d ds +:+ kind +:+ tail)
        with (v' +:+ String "-" (String d (ds +:+ kind +:+ tail))).
      destruct (v' +:+ String "-" (String d (ds +:+ kind +:+ tail))) as [|b t]; [done|].
      by rewrite Hnext.
    + apply run_Lit_fails. cbn [rest]. rewrite app_cons. cbn [String.prefix].
      by destruct (ascii_dec "-" a).
  - unfold close_group, hyphen. cbn [pos rest caps].
    rewrite run_Seq, run_Lit_app, run_Seq, run_Seq, run_Chr. cbn [rest].
    rewrite app_cons, Hd. unfold advance. cbn [pos rest caps].
    rewrite run_star_chr. cbn [pos rest caps]. apply star_greedy_first.
    rewrite Hkt, app_cons.
    rewrite take_while_app_stop, drop_while_app_stop by apply decimal_not_dash.
    rewrite take_while_all, drop_while_all by done. rewrite app_empty_l.
    rewrite <- app_cons, <- Hkt.
    apply suffix_alt_matches; [done|]. cbn [pos rest caps String.length].
    do 2 f_equal; [lia|]. do 3 f_equal; lia.
Qed.

Lemma group1_name name tail n m :
  group_text
    (Match (name +:+ tail)
       (MState n m [(0, (0, n)); (1, (0, String.length name))]%nat)) 1 = name.
Proof.
  unfold group_text, group. cbn [final caps span_of Nat.eqb subject default from_option id].
  rewrite Nat.sub_0_r. apply substring_prefix.
Qed.

(** X17: a file name made of a name, a hyphen, a number and one of the two
    suffixes has the name as its category, whatever follows the suffix,
    when no hyphen of the name is followed by a digit. *)
Theorem category_of_numbered_file name digits kind tail :
  name ≠ EmptyString → one_line name →
  dash_before Py.is_decimal (name +:+ hyphen) = false →
  Py.nonempty digits = true → Py.all Py.is_decimal digits = true →
  kind ∈ kinds →
  extract_category_from_filename (name +:+ hyphen +:+ digits +:+ kind +:+ tail) = name.
Proof.
  intros Hne Hline Hdash Hd1 Hd2 Hkind. unfold extract_category_from_filename.
  rewrite numbered_match by done. cbv zeta. apply group1_name.
Qed.

Lemma dash_before_is_suffix p u s :
  dash_before p s = false → is_suffix u s → dash_before p u = false.
Proof. intros H [pre ->]. by apply dash_before_app in H. Qed.

Lemma numbered_fails text :
  dash_before Py.is_decimal text = false → re_match numbered_pattern text = None.
Proof.
  intros Hdash. unfold re_match.
  assert (run (Group 0 numbered_pattern) (start text) Some = None) as ->; [|done].
  rewrite run_Group. unfold numbered_pattern. rewrite run_Seq.
  apply run_fails. intros st Hst. rewrite run_Seq.
  pose proof (dash_before_is_suffix _ _ _ Hdash Hst) as Hu.
  destruct (rest st) as [|a u'] eqn:Hrest.
  { apply run_Lit_fails. by rewrite Hrest. }
  destruct (Ascii.eqb_spec "-" a) as [<-|Hna].
  - change (Lit "-") with (Seq (Chr (Ascii.eqb "-")) Eps).
    rewrite run_Seq, run_Chr, Hrest, Ascii.eqb_refl, run_Eps.
    unfold Plus, digit. rewrite run_Seq, run_Seq, run_Chr. cbn [advance rest].
    cbn [dash_before] in Hu. apply orb_false_iff in Hu as [Hu _].
    rewrite Ascii.eqb_refl in Hu. cbn [andb] in Hu.
    destruct u' as [|b t]; [done|]. by rewrite Hu.
  - apply run_Lit_fails. rewrite Hrest. cbn [String.prefix].
    by destruct (ascii_dec "-" a).
Qed.

Lemma suffix_alt_stops a t n cs k :
  (a = "-"%char →
   match t with String b _ => kind_letter b = false | EmptyString => True end) →
  run suffix_alt (MState n (String a t) cs) k = None.
Proof.
  intros H. unfold suffix_alt. rewrite run_Alt.
  destruct (Ascii.eqb_spec "-" a) as [<-|Hna].
  - specialize (H eq_refl). destruct t as [|b t].
    + by rewrite !run_Lit_fails.
    + unfold kind_letter in H. apply orb_false_iff in H as [He Hn].
      apply Ascii.eqb_neq in He, Hn.
      rewrite !run_Lit_fails; [done|..]; cbn [rest String.prefix];
        destruct (ascii_dec "-" "-"); try done.
      * by destruct (ascii_dec "n" b) as [<-|].
      * by destruct (ascii_dec "e" b) as [<-|].
  - rewrite !run_Lit_fails; [done|..]; cbn [rest String.prefix];
      by destruct (ascii_dec "-" a).
Qed.

Lemma plain_match name kind tail :
  name ≠ EmptyString → one_line name →
  dash_before kind_letter (name +:+ hyphen) = false →
  kind ∈ kinds →
  let text := name +:+ kind +:+ tail in
  let n := (String.length name + String.length kind)%nat in
  re_match plain_pattern text
  = Some (Match text (MState n tail [(0, (0, n)); (1, (0, String.length name))]%nat)).
Proof.
  intros Hne Hline Hdash Hkind. cbv zeta.
  destruct name as [|c0 name']; [done|].
  apply one_line_cons in Hline as [Hc0 Hline].
  destruct (kind_head kind Hkind) as [kt Hkt].
  unfold re_match.
  match goal with |- _ <$> ?r = Some (Match _ ?m) => assert (r = Some m) as ->; [|done] end.
  rewrite run_Group. unfold plain_pattern, Plus, dot. fold dot_class.
  rewrite run_Seq, run_Group, run_Seq, run_Chr. unfold start. cbn [rest].
  rewrite app_cons, Hc0. unfold advance. cbn [pos rest caps].
  rewrite run_star_chr. cbn [pos rest caps].
  apply star_lazy_first; [by apply one_line_all| |].
  - intros u v Huv Hv. unfold close_group. cbn [pos rest caps].
    destruct v as [|a v']; [done|]. rewrite app_cons.
    apply suffix_alt_stops. intros ->.
    pose proof (dash_next kind_letter (String c0 u) v' (kt +:+ tail)) as Hnext.
    unfold hyphen in Hdash. rewrite Huv, app_cons in Hdash.
    rewrite app_assoc, !app_cons in Hdash. rewrite !app_cons in Hnext.
    specialize (Hnext Hdash). rewrite Hkt, app_cons. exact Hnext.
  - unfold close_group. cbn [pos rest caps].
    apply suffix_alt_matches; [done|]. cbn [pos rest caps String.length].
    reflexivity.
Qed.

Lemma category_of_numbered_file_witness :
  extract_category_from_filename "beef-1-energy.png" = "beef".
Proof.
  refine (category_of_numbered_file "beef" "1" "-energy" ".png" _ _ _ _ _ _);
    [done|reflexivity|reflexivity|reflexivity|reflexivity|].
  unfold kinds. set_solver.
Defined.

(** X18: a file name made of a name and one of the two suffixes, with no
    number and hyphen between them, has the name as its category, when no
    hyphen of the name is followed by the first letter of a suffix and no
    hyphen of the file name by a digit. A number at the end of the name
    stays in the category: "fish-carp1-energy.png" gives "fish-carp1". *)
Theorem category_of_plain_file name kind tail :
  name ≠ EmptyString → one_line name →
  dash_before kind_letter (name +:+ hyphen) = false →
  dash_before Py.is_decimal (name +:+ kind +:+ tail) = false →
  kind ∈ kinds →
  extract_category_from_filename (name +:+ kind +:+ tail) = name.
Proof.
  intros Hne Hline Hdash Hnum Hkind. unfold extract_category_from_filename.
  rewrite numbered_fails by done. rewrite plain_match by done. cbv zeta.
  apply group1_name.
Qed.

Lemma category_of_plain_file_witness :
  extract_category_from_filename "fish-carp1-energy.png" = "fish-carp1".
Proof.
  refine (category_of_plain_file "fish-carp1" "-energy" ".png" _ _ _ _ _);
    [done|reflexivity|reflexivity|reflexivity|].
  unfold kinds. set_solver.
Defined.

End CategoryMore.

Module PipelineFacts.
Import Fetch FetchSpec Discover Pipeline FetchFacts FetchMore.

Lemma retry_rows_world service image_name is_energy max_retries w w' :
  (process_image_with_retry service image_name is_energy max_retries w).2
  = (process_image_with_retry service image_name is_energy max_retries w').2.
Proof.
  pose proof (retry_spec service image_name is_energy max_retries w) as H.
  pose proof (retry_spec service image_name is_energy max_retries w') as H'.
  cbv zeta in H, H'.
  destruct (first_success _ 0 _) as [[k data]|].
  - destruct H as (-> & _), H' as (-> & _). done.
  - destruct H as (-> & _), H' as (-> & _). done.
Qed.

Lemma process_image_pair_spec service max_retries p st :
  total_images st ≠ 0%nat →
  process_image_pair service max_retries p st =
  let st' := with_files (fetched service max_retries p (files st)) st in
  match pair_records service max_retries p with
  | [] => (count_failure (pair_name p) st', Returned None)
  | data => (count_success (pair_name p) (category p) data st', Returned (Some data))
  end.
Proof.
  intros Htotal. unfold process_image_pair, fetched, pair_records, rows_of. cbv zeta.
  rewrite (retry_rows_world _ _ true _ (World ∅ ∅ []) (files st)).
  destruct (process_image_with_retry _ _ true _ (files st)) as [w1 energy_data].
  cbn [fst snd].
  rewrite (retry_rows_world _ _ false _ (World ∅ ∅ []) w1).
  destruct (process_image_with_retry _ _ false _ w1) as [w2 nutrient_data].
  cbn [fst snd]. unfold with_files.
  destruct (Merge.records _) as [|r rs]; cbn [total_images count_failure count_success];
    by rewrite (proj2 (Nat.eqb_neq _ _) Htotal).
Qed.


Lemma process_with_semaphore_spec service max_retries p st :
  total_images st ≠ 0%nat →
  process_with_semaphore service max_retries st p =
  let st' := with_files (fetched service max_retries p (files st)) st in
  match pair_records service max_retries p with
  | [] => count_failure (pair_name p) st'
  | data => count_success (pair_name p) (category p) data st'
  end.
Proof.
  intros Htotal. unfold process_with_semaphore.
  rewrite process_image_pair_spec by done. cbv zeta.
  by destruct (pair_records service max_retries p).
Qed.

Lemma step_fails service max_retries p st :
  total_images st ≠ 0%nat → fails service max_retries p →
  process_with_semaphore service max_retries st p
  = count_failure (pair_name p)
      (with_files (fetched service max_retries p (files st)) st).
Proof.
  intros Htotal Hf. rewrite process_with_semaphore_spec by done. cbv zeta.
  unfold fails in Hf. by rewrite Hf.
Qed.

Lemma step_succeeds service max_retries p st :
  total_images st ≠ 0%nat → ¬ fails service max_retries p →
  process_with_semaphore service max_retries st p
  = count_success (pair_name p) (category p) (pair_records service max_retries p)
      (with_files (fetched service max_retries p (files st)) st).
Proof.
  intros Htotal Hf. rewrite process_with_semaphore_spec by done. cbv zeta.
  unfold fails in Hf. by destruct (pair_records service max_retries p).
Qed.

(** What the loop over the tasks keeps and counts. *)
Lemma run_pairs_counts service max_retries pairs : ∀ st,
  total_images st ≠ 0%nat →
  let st' := foldl (process_with_semaphore service max_retries) st pairs in
  total_images st' = total_images st
  ∧ processed_images st' = (processed_images st + 2 * length pairs)%nat
  ∧ failed_images st'
    = (failed_images st + 2 * length (filter (fails service max_retries) pairs))%nat
  ∧ successful_pairs st'
    = successful_pairs st
      ∪ list_to_set (pair_name <$> filter (λ p, ¬ fails service max_retries p) pairs)
  ∧ failed_pairs st'
    = failed_pairs st
      ∪ list_to_set (pair_name <$> filter (fails service max_retries) pairs).
Proof.
  induction pairs as [|p pairs IH]; intros st Htotal; cbv zeta.
  - cbn [foldl length filter list_filter fmap list_fmap list_to_set].
    rewrite !Nat.add_0_r. split; [done|]. split; [done|]. split; [done|].
    split; set_solver.
  - cbn [foldl]. rewrite !filter_cons.
    destruct (decide (fails service max_retries p)) as [Hf|Hf].
    + rewrite step_fails by done. rewrite decide_False by (by intros H; apply H).
      destruct (IH (count_failure (pair_name p)
                      (with_files (fetched service max_retries p (files st)) st)))
        as (H1 & H2 & H3 & H4 & H5); [done|].
      rewrite H1, H2, H3, H4, H5. cbn [count_failure with_files total_images
        processed_images failed_images successful_pairs failed_pairs length
        fmap list_fmap list_to_set].
      split; [done|]. split; [lia|]. split; [lia|]. split; set_solver.
    + rewrite step_succeeds by done. rewrite decide_True by done.
      destruct (IH (count_success (pair_name p) (category p)
                      (pair_records service max_retries p)
                      (with_files (fetched service max_retries p (files st)) st)))
        as (H1 & H2 & H3 & H4 & H5); [done|].
      rewrite H1, H2, H3, H4, H5. cbn [count_success with_files total_images
        processed_images failed_images successful_pairs failed_pairs length
        fmap list_fmap list_to_set].
      split; [done|]. split; [lia|]. split; [lia|]. split; set_solver.
Qed.








Lemma pair_of_Some walk name :
  name ∈ pair_names walk → is_Some (pair_of (scan walk) name).
Proof.
  unfold pair_names, pair_of. intros [He Hn]%elem_of_intersection.
  apply elem_of_dom in He as [e ->], Hn as [n ->]. by eexists.
Qed.

Lemma pairs_in_length walk order :
  Forall (λ name, name ∈ pair_names walk) order →
  length (pairs_in walk order) = length order.
Proof.
  unfold pairs_in. induction 1 as [|name order Hname _ IH]; [done|].
  cbn [omap list_omap]. destruct (pair_of_Some walk name Hname) as [p ->].
  cbn [length]. by rewrite IH.
Qed.

Lemma order_length walk order :
  order ≡ₚ elements (pair_names walk) →
  length (pairs_in walk order) = size (pair_names walk).
Proof.
  intros Hp. rewrite pairs_in_length.
  - by rewrite Hp.
  - apply Forall_forall. intros name Hin. rewrite Hp in Hin.
    by apply elem_of_elements in Hin.
Qed.

Lemma save_categories_counts st :
  total_images (save_categories st) = total_images st
  ∧ processed_images (save_categories st) = processed_images st
  ∧ failed_images (save_categories st) = failed_images st
  ∧ successful_pairs (save_categories st) = successful_pairs st
  ∧ failed_pairs (save_categories st) = failed_pairs st.
Proof. done. Qed.

Lemma write_failed_pairs_counts st :
  total_images (write_failed_pairs st) = total_images st
  ∧ processed_images (write_failed_pairs st) = processed_images st
  ∧ failed_images (write_failed_pairs st) = failed_images st
  ∧ successful_pairs (write_failed_pairs st) = successful_pairs st
  ∧ failed_pairs (write_failed_pairs st) = failed_pairs st.
Proof. unfold write_failed_pairs. by case_decide. Qed.

Lemma processor_after_counts service max_retries walk order st output_dir :
  let st1 := foldl (process_with_semaphore service max_retries) (started walk st)
               (pairs_in walk order) in
  let st' := processor_after service max_retries walk order st output_dir in
  total_images st' = total_images st1
  ∧ processed_images st' = processed_images st1
  ∧ failed_images st' = failed_images st1
  ∧ successful_pairs st' = successful_pairs st1
  ∧ failed_pairs st' = failed_pairs st1.
Proof.
  cbv zeta. unfold processor_after, process_directory. cbv zeta.
  fold (started walk st).
  destruct (SecondPass.merge_similar_categories _ _) as [out [e|]]; cbn [fst].
  - apply save_categories_counts.
  - destruct (write_failed_pairs_counts
                (save_categories
                   (foldl (process_with_semaphore service max_retries) (started walk st)
                      (pairs_in walk order)))) as (-> & -> & -> & -> & ->).
    apply save_categories_counts.
Qed.


(** X20: after a run of [process_directory] over a fresh processor the
    counters add up: [total_images] is twice the number of pairs found and
    [processed_images] equals it; [failed_images] is twice the number of
    pairs whose merge has no record; [successful_pairs] and [failed_pairs]
    hold the names of the pairs with and without records. *)
Theorem run_counts_every_pair service max_retries walk order w middle output_dir :
  order ≡ₚ elements (pair_names walk) →
  let st := processor_after service max_retries walk order (fresh w middle) output_dir in
  let pairs := pairs_in walk order in
  total_images st = (2 * size (pair_names walk))%nat
  ∧ processed_images st = total_images st
  ∧ failed_images st = (2 * length (filter (fails service max_retries) pairs))%nat
  ∧ (failed_images st ≤ processed_images st)%nat
  ∧ successful_pairs st
    = list_to_set (pair_name <$> filter (λ p, ¬ fails service max_retries p) pairs)
  ∧ failed_pairs st
    = list_to_set (pair_name <$> filter (fails service max_retries) pairs).
Proof.
  intros Horder. cbv zeta.
  destruct (processor_after_counts service max_retries walk order (fresh w middle)
              output_dir) as (-> & -> & -> & -> & ->).
  pose proof (order_length walk order Horder) as Hlen.
  destruct (pairs_in walk order) as [|p pairs] eqn:Hpairs.
  - cbn [foldl started fresh total_images processed_images failed_images
         successful_pairs failed_pairs filter list_filter length fmap list_fmap
         list_to_set]. cbn [length] in Hlen. rewrite <- Hlen.
    repeat split; done.
  - destruct (run_pairs_counts service max_retries (p :: pairs)
                (started walk (fresh w middle))) as (H1 & H2 & H3 & H4 & H5).
    { cbn [started total_images]. rewrite <- Hlen. cbn [length]. lia. }
    rewrite H1, H2, H3, H4, H5.
    cbn [started fresh total_images processed_images failed_images
         successful_pairs failed_pairs]. rewrite <- Hlen.
    pose proof (length_filter (fails service max_retries) (p :: pairs)) as Hf.
    split; [lia|]. split; [lia|]. split; [lia|]. split; [lia|].
    split; by rewrite (left_id_L ∅ (∪)).
Qed.


Lemma run_counts_every_pair_witness :
  let st := processor_after sample_service 0 Examples.beef_walk ["beef-1"]
              (fresh (World ∅ ∅ []) ∅) ∅ in
  let pairs := pairs_in Examples.beef_walk ["beef-1"] in
  total_images st = (2 * size (pair_names Examples.beef_walk))%nat
  ∧ processed_images st = total_images st
  ∧ failed_images st = (2 * length (filter (fails sample_service 0) pairs))%nat
  ∧ (failed_images st ≤ processed_images st)%nat
  ∧ successful_pairs st
    = list_to_set (pair_name <$> filter (λ p, ¬ fails sample_service 0 p) pairs)
  ∧ failed_pairs st
    = list_to_set (pair_name <$> filter (fails sample_service 0) pairs).
Proof.
  apply (run_counts_every_pair sample_service 0 Examples.beef_walk ["beef-1"]).
  assert (elements (pair_names Examples.beef_walk) = ["beef-1"]) as ->; [|done].
  vm_compute. reflexivity.
Defined.

Lemma step_total service max_retries p st :
  total_images st ≠ 0%nat →
  total_images (process_with_semaphore service max_retries st p) = total_images st.
Proof.
  intros Htotal. rewrite process_with_semaphore_spec by done. cbv zeta.
  by destruct (pair_records service max_retries p).
Qed.

Lemma states_before_total service max_retries pairs : ∀ st,
  total_images st ≠ 0%nat →
  Forall (λ sp, total_images sp.1 = total_images st)
    (states_before service max_retries st pairs).
Proof.
  induction pairs as [|p pairs IH]; intros st Htotal; cbn [states_before]; [done|].
  constructor; [done|].
  pose proof (step_total service max_retries p st Htotal) as Hstep.
  rewrite <- Hstep. apply IH. by rewrite Hstep.
Qed.

(** X21: in a run of [process_directory] the division of the progress
    report by [total_images] is always defined: every call of
    [process_image_pair] returns, and no pair is counted through the
    handlers. Called on a processor whose [total_images] is zero,
    [process_image_pair] ends in the division by zero, after counting the
    pair twice. *)
Theorem progress_division_is_defined service max_retries walk order w middle :
  order ≡ₚ elements (pair_names walk) →
  Forall (λ sp, ∃ r, (process_image_pair service max_retries sp.2 sp.1).2 = Returned r)
    (states_before service max_retries (started walk (fresh w middle))
       (pairs_in walk order))
  ∧ (∀ p st, total_images st = 0%nat →
       (process_image_pair service max_retries p st).2 = ZeroDivision
       ∧ processed_images (process_image_pair service max_retries p st).1
         = (processed_images st + 4)%nat).
Proof.
  intros Horder. split.
  - pose proof (order_length walk order Horder) as Hlen.
    destruct (pairs_in walk order) as [|p pairs] eqn:Hpairs; [done|].
    assert (total_images (started walk (fresh w middle)) ≠ 0%nat) as Htotal.
    { cbn [started total_images]. rewrite <- Hlen. cbn [length]. lia. }
    eapply Forall_impl; [by apply states_before_total|].
    intros [st q] Hst. cbn [fst snd] in *.
    rewrite process_image_pair_spec by (by rewrite Hst). cbv zeta.
    destruct (pair_records service max_retries q); by eexists.
  - intros p st Htotal. unfold process_image_pair. cbv zeta.
    destruct (process_image_with_retry _ _ true _ _) as [w1 energy_data].
    destruct (process_image_with_retry _ _ false _ _) as [w2 nutrient_data].
    destruct (Merge.records _) as [|r rs];
      cbn [total_images count_failure count_success]; rewrite Htotal;
      cbn [Nat.eqb fst snd processed_images count_failure count_success]; split; [done|lia|done|lia].
Qed.

Lemma progress_division_is_defined_witness :
  Forall (λ sp, ∃ r, (process_image_pair sample_service 0 sp.2 sp.1).2 = Returned r)
    (states_before sample_service 0
       (started Examples.beef_walk (fresh (World ∅ ∅ []) ∅))
       (pairs_in Examples.beef_walk ["beef-1"]))
  ∧ (∀ p st, total_images st = 0%nat →
       (process_image_pair sample_service 0 p st).2 = ZeroDivision
       ∧ processed_images (process_image_pair sample_service 0 p st).1
         = (processed_images st + 4)%nat).
Proof.
  apply (progress_division_is_defined sample_service 0 Examples.beef_walk ["beef-1"]).
  assert (elements (pair_names Examples.beef_walk) = ["beef-1"]) as ->; [|done].
  vm_compute. reflexivity.
Defined.

End PipelineFacts.

Module TableFacts.
Import Re Parser SecondPassSpec TableSpec PyFacts ReFacts MatchFacts.

(** A greedy repetition whose continuation fails wherever it is tried. *)
Lemma star_greedy_none p n w tail cs k :
  Py.all p w = true →
  match tail with String c _ => p c = false | EmptyString => True end →
  (∀ u v, w = u +:+ v → k (MState (n + String.length u) (v +:+ tail) cs) = None) →
  star_chr true p n (w +:+ tail) cs k = None.
Proof.
  revert n. induction w as [|c w IH]; intros n Hw Htail Hk.
  - rewrite app_empty_l. pose proof (Hk EmptyString EmptyString eq_refl) as H0.
    cbn [String.length] in H0. rewrite Nat.add_0_r, app_empty_l in H0.
    destruct tail as [|c t]; cbn [star_chr]; [done|]. by rewrite Htail.
  - cbn [Py.all] in Hw. apply andb_true_iff in Hw as [Hc Hw].
    rewrite app_cons. cbn [star_chr]. rewrite Hc. rewrite IH; [|done|done|].
    + pose proof (Hk EmptyString (String c w) eq_refl) as H0.
      cbn [String.length] in H0. rewrite Nat.add_0_r in H0. exact H0.
    + intros u v -> . pose proof (Hk (String c u) v eq_refl) as H1.
      cbn [String.length] in H1.
      by replace (S n + String.length u)%nat with (n + S (String.length u))%nat by lia.
Qed.

(** A greedy repetition that gives back all it took: the continuation fails
    after every character of the run and succeeds in front of it. *)
Lemma star_greedy_back p n w tail cs k m :
  Py.all p w = true →
  match tail with String c _ => p c = false | EmptyString => True end →
  (∀ u v, w = u +:+ v → u ≠ EmptyString →
     k (MState (n + String.length u) (v +:+ tail) cs) = None) →
  k (MState n (w +:+ tail) cs) = Some m →
  star_chr true p n (w +:+ tail) cs k = Some m.
Proof.
  intros Hw Htail Hfail Hk. destruct w as [|c w].
  - rewrite app_empty_l in *. destruct tail as [|c t]; cbn [star_chr]; [done|].
    by rewrite Htail.
  - cbn [Py.all] in Hw. apply andb_true_iff in Hw as [Hc Hw].
    rewrite app_cons in *. cbn [star_chr]. rewrite Hc.
    rewrite star_greedy_none; [done|done|done|].
    intros u v ->. pose proof (Hfail (String c u) v eq_refl) as H1.
    cbn [String.length] in H1.
    replace (S n + String.length u)%nat with (n + S (String.length u))%nat by lia.
    by apply H1.
Qed.

(** A greedy repetition that gives back a part of what it took. *)
Lemma star_greedy_at p n w1 w2 tail cs k m :
  Py.all p w1 = true → Py.all p w2 = true →
  match tail with String c _ => p c = false | EmptyString => True end →
  (∀ u v, w2 = u +:+ v → u ≠ EmptyString →
     k (MState (n + String.length w1 + String.length u) (v +:+ tail) cs) = None) →
  k (MState (n + String.length w1) (w2 +:+ tail) cs) = Some m →
  star_chr true p n (w1 +:+ w2 +:+ tail) cs k = Some m.
Proof.
  revert n. induction w1 as [|c w1 IH]; intros n Hw1 Hw2 Htail Hfail Hk.
  - rewrite app_empty_l. cbn [String.length] in *. rewrite Nat.add_0_r in *.
    by apply star_greedy_back.
  - cbn [Py.all] in Hw1. apply andb_true_iff in Hw1 as [Hc Hw1].
    rewrite app_cons. cbn [star_chr]. rewrite Hc.
    rewrite (IH (S n)); [done|done|done|done| |].
    + intros u v Huv Hu. specialize (Hfail u v Huv Hu). cbn [String.length] in Hfail.
      by replace (S n + String.length w1)%nat with (n + S (String.length w1))%nat by lia.
    + cbn [String.length] in Hk.
      by replace (S n + String.length w1)%nat with (n + S (String.length w1))%nat by lia.
Qed.

Lemma newline_is_space : Py.is_space Py.newline = true.
Proof. reflexivity. Qed.

Lemma bar_not_space : Py.is_space "|" = false.
Proof. reflexivity. Qed.

Lemma nl_fails c R n cs X k :
  c ≠ Py.newline → run (Seq Fence.nl X) (MState n (String c R) cs) k = None.
Proof.
  intros Hc. rewrite run_Seq. unfold Fence.nl. apply run_Lit_fails.
  cbn [rest String.prefix].
  destruct (ascii_dec Py.newline c) as [<-|]; done.
Qed.

Lemma line_end_fails c R n cs X k :
  c ≠ Py.newline → run (Seq (Alt Fence.nl Eol) X) (MState n (String c R) cs) k = None.
Proof.
  intros Hc. rewrite run_Seq, run_Alt. unfold Fence.nl. rewrite run_Lit_fails.
  - rewrite run_Eol. cbn [rest]. destruct R; [|done].
    by rewrite (proj2 (Ascii.eqb_neq _ _) Hc).
  - cbn [rest String.prefix]. destruct (ascii_dec Py.newline c) as [<-|]; done.
Qed.

(** Whitespace inside a line is followed by a character of the line: a
    continuation that needs the end of the line fails after it. *)
Lemma star_space_line y tail n cs k :
  one_line y →
  (∀ n' c R, c ≠ Py.newline → k (MState n' (String c R) cs) = None) →
  star_chr true Py.is_space n (y +:+ bar +:+ tail) cs k = None.
Proof.
  intros Hy Hk. revert n. induction y as [|c y IH]; intros n.
  - rewrite app_empty_l. unfold bar. rewrite app_cons. cbn [star_chr].
    rewrite bar_not_space. by apply Hk.
  - apply CategoryMore.one_line_cons in Hy as [Hc Hy].
    assert (c ≠ Py.newline) as Hne.
    { intros ->. by vm_compute in Hc. }
    rewrite app_cons. cbn [star_chr]. destruct (Py.is_space c).
    + rewrite (IH Hy). by apply Hk.
    + by apply Hk.
Qed.

(** In front of a line that goes on, the pattern cannot take the pipe for
    the end of a line. *)
Lemma inside_line_fails v tail n cs X k :
  v ≠ EmptyString → one_line v →
  (∀ n' c R cs' k', c ≠ Py.newline → run X (MState n' (String c R) cs') k' = None) →
  run (Seq pipe (Seq (Star true space) X)) (MState n (v +:+ bar +:+ tail) cs) k = None.
Proof.
  intros Hv Hline HX. destruct v as [|a v]; [done|].
  apply CategoryMore.one_line_cons in Hline as [Ha Hline].
  rewrite run_Seq. unfold pipe. destruct (Ascii.eqb_spec "|" a) as [<-|Hna].
  - change (String "|" v +:+ bar +:+ tail) with ("|" +:+ v +:+ bar +:+ tail).
    rewrite run_Lit_app. unfold space. rewrite run_Seq, run_star_chr. cbn [pos rest caps].
    apply star_space_line; [done|]. intros n' c R Hc. by apply HX.
  - apply run_Lit_fails. cbn [rest]. rewrite app_cons. cbn [String.prefix].
    by destruct (ascii_dec "|" a).
Qed.

Lemma line_tail_fails v tail n cs k :
  v ≠ EmptyString → one_line v →
  run line_tail (MState n (v +:+ bar +:+ tail) cs) k = None.
Proof.
  intros Hv Hline. apply inside_line_fails; [done|done|].
  intros n' c R cs' k' Hc. by apply line_end_fails.
Qed.

(** The end of a line that is followed by another line, and of the last
    line. *)
Lemma line_tail_mid more n cs k m :
  match more with String c _ => Py.is_space c = false | EmptyString => False end →
  k (MState (n + 2) more cs) = Some m →
  run line_tail (MState n (bar +:+ line_end +:+ more) cs) k = Some m.
Proof.
  intros Hmore Hk. unfold line_tail, pipe, bar. rewrite run_Seq, run_Lit_app.
  unfold space. rewrite run_Seq, run_star_chr. cbn [pos rest caps String.length].
  destruct more as [|c more']; [done|].
  apply star_greedy_back.
  - reflexivity.
  - done.
  - intros u v Huv Hu. destruct u as [|a u]; [done|].
    unfold line_end in Huv. injection Huv as <- Huv.
    destruct u; [|done]. rewrite app_empty_l in Huv. subst v. rewrite app_empty_l.
    apply line_end_fails. intros ->. by vm_compute in Hmore.
  - rewrite run_Seq, run_Alt. unfold Fence.nl, line_end. rewrite run_Lit_app, run_Eps.
    cbn [String.length]. replace (n + 1 + 1)%nat with (n + 2)%nat by lia. by rewrite Hk.
Qed.

Lemma line_tail_last n cs k m :
  k (MState (n + 1) EmptyString cs) = Some m →
  run line_tail (MState n bar cs) k = Some m.
Proof.
  intros Hk. unfold line_tail, pipe, bar.
  change "|" with ("|" +:+ EmptyString) at 2.
  rewrite run_Seq, run_Lit_app. unfold space.
  rewrite run_Seq, run_star_chr. cbn [pos rest caps String.length star_chr].
  rewrite run_Seq, run_Alt. unfold Fence.nl. rewrite run_Lit_fails by done.
  by rewrite run_Eol, run_Eps.
Qed.

(** One line of the table, taken by one pass of the repetition. *)
Lemma row_pattern_line r rest' n cs k m :
  one_line r →
  run line_tail (MState (n + 1 + String.length r) (bar +:+ rest') cs) k = Some m →
  run row_pattern (MState n (bar +:+ r +:+ bar +:+ rest') cs) k = Some m.
Proof.
  intros Hr Hk. unfold row_pattern, Cat. cbn [foldr]. fold line_tail.
  rewrite run_Seq. unfold pipe at 1. unfold bar at 1. rewrite run_Lit_app.
  rewrite run_Seq. unfold dotall. rewrite run_star_chr. cbn [pos rest caps String.length].
  apply star_lazy_first.
  - apply FenceMore.all_true.
  - intros u v Huv Hv. apply line_tail_fails; [done|].
    rewrite Huv in Hr. unfold one_line in *. rewrite all_app in Hr.
    by apply andb_true_iff in Hr as [_ ?].
  - exact Hk.
Qed.

Lemma lines_text_cons r r2 inner :
  lines_text (r :: r2 :: inner)
  = bar +:+ r +:+ bar +:+ line_end +:+ lines_text (r2 :: inner).
Proof. unfold lines_text. cbn [fmap list_fmap Py.join]. by rewrite !app_assoc. Qed.

Lemma lines_text_one r : lines_text [r] = bar +:+ r +:+ bar +:+ EmptyString.
Proof. unfold lines_text. cbn [fmap list_fmap Py.join]. by rewrite app_empty_r. Qed.

Lemma row_pattern_empty n cs k : run row_pattern (MState n EmptyString cs) k = None.
Proof.
  unfold row_pattern, Cat. cbn [foldr]. rewrite run_Seq. by apply run_Lit_fails.
Qed.

(** The repetition of [row_pattern] takes the lines to the last. *)
Lemma rows_loop inner : ∀ n cs fuel k m,
  Forall one_line inner →
  (String.length (lines_text inner) < fuel)%nat →
  k (MState (n + String.length (lines_text inner)) EmptyString cs) = Some m →
  star_loop (run row_pattern) true k fuel (MState n (lines_text inner) cs) = Some m.
Proof.
  induction inner as [|r inner IH]; intros n cs fuel k m Hlines Hfuel Hk.
  - change (lines_text []) with EmptyString in *. cbn [String.length] in Hk.
    rewrite Nat.add_0_r in Hk.
    destruct fuel as [|fuel]; cbn [star_loop]; [done|].
    by rewrite row_pattern_empty.
  - apply Forall_cons in Hlines as [Hr Hlines].
    destruct fuel as [|fuel]; [lia|]. cbn [star_loop].
    match goal with |- match ?x with _ => _ end = _ => assert (x = Some m) as ->; [|done] end.
    destruct inner as [|r2 inner].
    + rewrite lines_text_one in *. apply row_pattern_line; [done|].
      change (bar +:+ EmptyString) with bar. apply line_tail_last.
      cbn [pos]. rewrite !length_app in Hfuel, Hk. cbn [String.length bar] in Hfuel, Hk.
      replace (n <? n + 1 + String.length r + 1)%nat with true
        by (symmetry; apply Nat.ltb_lt; lia).
      apply (IH _ cs fuel k m); [done|cbn; lia|].
      change (lines_text []) with EmptyString. cbn [String.length].
      rewrite Nat.add_0_r. rewrite <- Hk. do 2 f_equal. rewrite Nat.add_0_r. lia.
    + rewrite lines_text_cons in *. apply row_pattern_line; [done|].
      apply line_tail_mid.
      { unfold lines_text. cbn [fmap list_fmap Py.join].
        destruct inner; reflexivity. }
      cbn [pos]. rewrite !length_app in Hfuel, Hk.
      cbn [String.length bar line_end] in Hfuel, Hk.
      replace (n <? n + 1 + String.length r + 2)%nat with true
        by (symmetry; apply Nat.ltb_lt; lia).
      apply (IH _ cs fuel k m); [done|lia|].
      rewrite <- Hk. do 2 f_equal. lia.
Qed.

Lemma lines_text_head r inner :
  ∃ X, lines_text (r :: inner) = bar +:+ r +:+ bar +:+ X
       ∧ (X = EmptyString ∧ inner = []
          ∨ ∃ r2 inner', inner = r2 :: inner'
              ∧ X = line_end +:+ lines_text (r2 :: inner')).
Proof.
  destruct inner as [|r2 inner'].
  - exists EmptyString. split; [apply lines_text_one|by left].
  - exists (line_end +:+ lines_text (r2 :: inner')). split; [apply lines_text_cons|].
    right. by exists r2, inner'.
Qed.

Lemma lines_text_bar r inner :
  match lines_text (r :: inner) with
  | String c _ => Py.is_space c = false
  | EmptyString => False
  end.
Proof. destruct (lines_text_head r inner) as (X & -> & _). reflexivity. Qed.

(** The lines of the rows, taken by group 3. *)
Lemma rows_match r inner n cs k m :
  Forall one_line (r :: inner) →
  k (MState (n + String.length (lines_text (r :: inner))) EmptyString
       ((3, (n, n + String.length (lines_text (r :: inner)))) :: cs)%nat) = Some m →
  run (Group 3 (Plus true row_pattern)) (MState n (lines_text (r :: inner)) cs) k = Some m.
Proof.
  intros Hlines Hk. apply Forall_cons in Hlines as Hl. destruct Hl as [Hr Hinner].
  rewrite run_Group. unfold Plus. rewrite run_Seq.
  destruct (lines_text_head r inner) as (X & HX & [[-> ->]|(r2 & inner' & -> & ->)]).
  - rewrite HX in *. apply row_pattern_line; [done|].
    change (bar +:+ EmptyString) with bar. apply line_tail_last.
    cbn [run rest String.length star_loop]. rewrite row_pattern_empty.
    unfold close_group. cbn [pos rest caps].
    rewrite !length_app in Hk. cbn [String.length bar] in Hk.
    rewrite <- Hk. do 2 f_equal; [lia|]. do 3 f_equal. lia.
  - rewrite HX in *. apply row_pattern_line; [done|].
    apply line_tail_mid; [apply lines_text_bar|].
    cbn [run rest]. apply rows_loop; [done|lia|].
    unfold close_group. cbn [pos rest caps].
    rewrite !length_app in Hk. cbn [String.length bar line_end] in Hk.
    rewrite <- Hk. do 2 f_equal; [lia|]. do 3 f_equal. lia.
Qed.

Lemma after_separator_matches r inner n cs k m :
  Forall one_line (r :: inner) →
  k (MState (n + 2 + String.length (lines_text (r :: inner))) EmptyString
       ((3, (n + 2, n + 2 + String.length (lines_text (r :: inner)))) :: cs)%nat)
    = Some m →
  run after_separator (MState n (bar +:+ line_end +:+ lines_text (r :: inner)) cs) k
    = Some m.
Proof.
  intros Hlines Hk. unfold after_separator, pipe, bar at 1.
  rewrite run_Seq, run_Lit_app. unfold space. rewrite run_Seq, run_star_chr.
  cbn [pos rest caps String.length].
  pose proof (lines_text_bar r inner) as Hbar.
  destruct (lines_text (r :: inner)) as [|c L] eqn:HL; [done|].
  apply star_greedy_back.
  - reflexivity.
  - done.
  - intros u v Huv Hu. destruct u as [|a u]; [done|].
    unfold line_end in Huv. injection Huv as <- Huv.
    destruct u; [|done]. rewrite app_empty_l in Huv. subst v. rewrite app_empty_l.
    apply nl_fails. intros ->. by vm_compute in Hbar.
  - rewrite run_Seq. unfold Fence.nl, line_end. rewrite run_Lit_app, run_Seq.
    rewrite <- HL. apply rows_match; [done|]. rewrite run_Eps.
    cbn [String.length]. rewrite <- Hk. rewrite HL.
    do 2 f_equal; [lia|]. do 3 f_equal; lia.
Qed.

Lemma after_separator_inside v tail n cs k :
  v ≠ EmptyString → one_line v →
  run after_separator (MState n (v +:+ bar +:+ tail) cs) k = None.
Proof.
  intros Hv Hline. apply inside_line_fails; [done|done|].
  intros n' c R cs' k' Hc. by apply nl_fails.
Qed.

Lemma after_header_inside v tail n cs k :
  v ≠ EmptyString → one_line v →
  run after_header (MState n (v +:+ bar +:+ tail) cs) k = None.
Proof.
  intros Hv Hline. apply inside_line_fails; [done|done|].
  intros n' c R cs' k' Hc. by apply nl_fails.
Qed.

Lemma class_bar : separator_class "|" = true.
Proof. reflexivity. Qed.

Lemma class_newline : separator_class Py.newline = true.
Proof. reflexivity. Qed.

Lemma drop_while_nonempty p s :
  Py.all p s = false →
  ∃ c t, Py.drop_while p s = String c t ∧ p c = false.
Proof.
  induction s as [|a s IH]; [done|]. cbn [Py.all Py.drop_while].
  destruct (p a) eqn:Ha; [|by eauto]. rewrite andb_true_l. exact IH.
Qed.

Lemma one_line_app a b : one_line (a +:+ b) ↔ one_line a ∧ one_line b.
Proof. unfold one_line. rewrite all_app. apply andb_true_iff. Qed.

Lemma one_line_bar : one_line bar.
Proof. reflexivity. Qed.

(** The separator line: group 2 runs on into the first row and gives back
    all but the separator. *)
Lemma separator_matches sep r inner n cs k m :
  sep ≠ EmptyString → Py.all separator_class sep = true →
  Forall one_line (r :: inner) → Py.all separator_class r = false →
  let lines := lines_text (r :: inner) in
  let n3 := (n + String.length sep + 2)%nat in
  k (MState (n3 + String.length lines) EmptyString
       ((3, (n3, n3 + String.length lines)) :: (2, (n, n + String.length sep)) :: cs)%nat)
    = Some m →
  run (Seq (Group 2 (Plus true separator_char)) after_separator)
    (MState n (sep +:+ bar +:+ line_end +:+ lines) cs) k = Some m.
Proof.
  intros Hne Hsep Hlines Hr. cbv zeta. intros Hk.
  destruct sep as [|s0 sep]; [done|]. cbn [Py.all] in Hsep.
  apply andb_true_iff in Hsep as [Hs0 Hsep].
  apply Forall_cons in Hlines as Hl. destruct Hl as [Hrline _].
  destruct (lines_text_head r inner) as (X & HX & _).
  destruct (drop_while_nonempty _ _ Hr) as (x & d & Hd & Hx).
  pose proof (take_drop_while separator_class r) as Hsplit.
  set (c1 := Py.take_while separator_class r) in *.
  rewrite run_Seq, run_Group. unfold Plus, separator_char. fold separator_class.
  rewrite run_Seq, run_Chr. cbn [rest]. rewrite app_cons, Hs0.
  unfold advance. cbn [pos rest caps]. rewrite run_star_chr. cbn [pos rest caps].
  assert (bar +:+ line_end +:+ lines_text (r :: inner)
          = (bar +:+ line_end +:+ bar +:+ c1) +:+ String x (d +:+ bar +:+ X)) as Hshape.
  { rewrite HX, <- Hsplit at 1. rewrite Hd. by rewrite !app_assoc. }
  rewrite Hshape.
  apply star_greedy_at.
  - done.
  - unfold bar, line_end. rewrite !app_cons, app_empty_l. cbn [Py.all].
    rewrite class_bar, class_newline. cbn [andb]. apply all_take_while.
  - exact Hx.
  - intros u v Huv Hu. unfold close_group. cbn [pos rest caps].
    destruct u as [|a u1]; [done|]. unfold bar at 1 in Huv.
    rewrite !app_cons, app_empty_l in Huv. injection Huv as <- Huv.
    destruct u1 as [|b u2].
    + rewrite app_empty_l in Huv. subst v. unfold after_separator.
      rewrite run_Seq. apply run_Lit_fails. reflexivity.
    + unfold line_end in Huv. rewrite !app_cons, app_empty_l in Huv.
      injection Huv as <- Huv.
      replace (v +:+ String x (d +:+ bar +:+ X))
        with ((v +:+ String x d) +:+ bar +:+ X) by (by rewrite !app_assoc).
      apply after_separator_inside.
      * by destruct v.
      * assert (one_line (bar +:+ r)) as Hbr.
        { apply one_line_app. split; [apply one_line_bar|done]. }
        rewrite <- Hsplit, Hd in Hbr. fold c1 in Hbr.
        rewrite <- app_assoc, Huv, app_assoc in Hbr.
        by apply one_line_app in Hbr as [_ ?].
  - unfold close_group. cbn [pos rest caps]. rewrite <- Hshape.
    apply after_separator_matches; [done|].
    rewrite <- Hk. cbn [String.length].
    do 2 f_equal; [lia|]. f_equal; [do 2 f_equal; lia|]. do 3 f_equal. lia.
Qed.

(** The header line: group 1 stops at the pipe that ends the line. *)
Lemma header_matches header sep r inner n cs k m :
  one_line header →
  sep ≠ EmptyString → Py.all separator_class sep = true →
  Forall one_line (r :: inner) → Py.all separator_class r = false →
  let lines := lines_text (r :: inner) in
  let n2 := (n + String.length header + 3)%nat in
  let n3 := (n2 + String.length sep + 2)%nat in
  k (MState (n3 + String.length lines) EmptyString
       ((3, (n3, n3 + String.length lines)) :: (2, (n2, n2 + String.length sep))
          :: (1, (n, n + String.length header)) :: cs)%nat) = Some m →
  run (Seq (Group 1 (Star false dotall)) after_header)
    (MState n (header +:+ bar +:+ line_end +:+ bar +:+ sep +:+ bar +:+ line_end
               +:+ lines) cs) k = Some m.
Proof.
  intros Hheader Hne Hsep Hlines Hr. cbv zeta. intros Hk.
  rewrite run_Seq, run_Group. unfold dotall. rewrite run_star_chr. cbn [pos rest caps].
  apply star_lazy_first.
  - apply FenceMore.all_true.
  - intros u v Huv Hv. unfold close_group. cbn [pos rest caps].
    apply after_header_inside; [done|]. rewrite Huv in Hheader.
    by apply one_line_app in Hheader as [_ ?].
  - unfold close_group. cbn [pos rest caps]. unfold after_header, pipe, bar at 1.
    rewrite run_Seq, run_Lit_app. unfold space. rewrite run_Seq, run_star_chr.
    cbn [pos rest caps String.length].
    change (bar +:+ sep +:+ bar +:+ line_end +:+ lines_text (r :: inner))
      with (String "|" (sep +:+ bar +:+ line_end +:+ lines_text (r :: inner))).
    apply star_greedy_back.
    + reflexivity.
    + reflexivity.
    + intros u v Huv Hu. destruct u as [|a u]; [done|].
      unfold line_end in Huv. injection Huv as <- Huv.
      destruct u; [|done]. rewrite app_empty_l in Huv. subst v. rewrite app_empty_l.
      by apply nl_fails.
    + rewrite run_Seq. unfold Fence.nl, line_end. rewrite run_Lit_app.
      change (String "|" (sep +:+ bar +:+ String Py.newline EmptyString
                          +:+ lines_text (r :: inner)))
        with ("|" +:+ sep +:+ bar +:+ line_end +:+ lines_text (r :: inner)).
      rewrite run_Seq, run_Lit_app. cbn [String.length].
      apply separator_matches; [done|done|done|done|].
      rewrite <- Hk. do 2 f_equal; [lia|].
      f_equal; [do 2 f_equal; lia|]. f_equal. do 2 f_equal; lia.
Qed.

Lemma table_length header sep inner :
  String.length (table_text_of header sep inner)
  = (String.length header + String.length sep + 6 + String.length (lines_text inner))%nat.
Proof.
  unfold table_text_of. fold (lines_text inner). unfold bar, line_end.
  rewrite !length_app. cbn [String.length]. lia.
Qed.

(** A match at the first position tried is the one [search_from] returns. *)
Lemma search_from_here r fuel st m :
  run (Group 0 r) st Some = Some m → search_from r fuel st = Some m.
Proof. intros H. destruct fuel; cbn [search_from]; by rewrite H. Qed.

(** The match object of [table_pattern] on a table. *)
Lemma table_match header sep r inner :
  one_line header →
  sep ≠ EmptyString → Py.all separator_class sep = true →
  Forall one_line (r :: inner) → Py.all separator_class r = false →
  let text := table_text_of header sep (r :: inner) in
  let n2 := (String.length header + 4)%nat in
  let n3 := (n2 + String.length sep + 2)%nat in
  re_search table_pattern text
  = Some (Match text
            (MState (String.length text) EmptyString
               [(0, (0, String.length text)); (3, (n3, String.length text));
                (2, (n2, n2 + String.length sep)); (1, (1, 1 + String.length header))]%nat)).
Proof.
  intros Hheader Hne Hsep Hlines Hr. cbv zeta. unfold re_search.
  match goal with |- _ <$> ?x = Some (Match _ ?m) => assert (x = Some m) as ->; [|done] end.
  apply search_from_here.
  rewrite run_Group. unfold table_pattern, Cat. cbn [foldr].
  fold row_pattern. fold after_separator. fold after_header.
  rewrite run_Seq, run_Bol. unfold start. cbn [pos Nat.eqb].
  unfold space. rewrite run_Seq, run_star_chr. cbn [pos rest caps].
  unfold table_text_of at 1. unfold bar at 1. rewrite app_cons, app_empty_l.
  cbn [star_chr]. rewrite bar_not_space.
  fold (lines_text (r :: inner)).
  match goal with
  | |- context [MState 0 (String "|" ?t) []] =>
      change (MState 0 (String "|" t) []) with (MState 0 ("|" +:+ t) [])
  end.
  unfold pipe at 1. rewrite run_Seq, run_Lit_app. cbn [String.length Nat.add].
  apply header_matches; [done|done|done|done|done|].
  unfold close_group. cbn [pos rest caps]. rewrite table_length.
  set (h := String.length header). set (s := String.length sep).
  set (l := String.length (lines_text (r :: inner))).
  replace (1 + h + 3 + s + 2 + l)%nat with (h + s + 6 + l)%nat by lia.
  replace (1 + h + 3 + s + 2)%nat with (h + 4 + s + 2)%nat by lia.
  replace (1 + h + 3 + s)%nat with (h + 4 + s)%nat by lia.
  replace (1 + h + 3)%nat with (h + 4)%nat by lia.
  reflexivity.
Qed.

Lemma split_free c a : free_of c a → Py.split c a = [a].
Proof.
  unfold free_of. induction a as [|x a IH]; [done|]. cbn [Py.all Py.split].
  intros [Hx Ha]%andb_true_iff. apply negb_true_iff in Hx. rewrite Hx.
  by rewrite (IH Ha).
Qed.

Lemma split_app_sep c a b :
  free_of c a → Py.split c (a +:+ String c b) = a :: Py.split c b.
Proof.
  unfold free_of. induction a as [|x a IH].
  - intros _. rewrite app_empty_l. cbn [Py.split]. by rewrite Ascii.eqb_refl.
  - cbn [Py.all]. intros [Hx Ha]%andb_true_iff. apply negb_true_iff in Hx.
    rewrite app_cons. cbn [Py.split]. by rewrite Hx, (IH Ha).
Qed.

(** [sep.join(parts).split(sep)] gives the parts back when none of them
    holds the separator. *)
Lemma split_join c l ls :
  Forall (free_of c) (l :: ls) →
  Py.split c (Py.join (String c EmptyString) (l :: ls)) = l :: ls.
Proof.
  revert l. induction ls as [|l2 ls IH]; intros l Hall.
  - cbn [Py.join]. apply split_free. by inversion Hall.
  - inversion Hall as [|? ? Hl Hrest]; subst.
    change (Py.join (String c EmptyString) (l :: l2 :: ls))
      with (l +:+ String c EmptyString +:+ Py.join (String c EmptyString) (l2 :: ls)).
    rewrite app_cons, app_empty_l, (split_app_sep _ _ _ Hl). by rewrite (IH _ Hrest).
Qed.

Lemma drop_while_end_keep p a c :
  p c = false →
  Py.drop_while_end p (a +:+ String c EmptyString) = a +:+ String c EmptyString.
Proof.
  intros Hc. induction a as [|x a IH].
  - rewrite app_empty_l. cbn [Py.drop_while_end]. by rewrite Hc.
  - rewrite app_cons. cbn [Py.drop_while_end]. rewrite IH.
    destruct (a +:+ String c EmptyString) eqn:E; [by destruct a|done].
Qed.

(** A text between two pipes has nothing to strip. *)
Lemma strip_bars X : Py.strip (bar +:+ X +:+ bar) = bar +:+ X +:+ bar.
Proof.
  unfold Py.strip, Py.lstrip, Py.rstrip, bar. rewrite app_cons, app_empty_l.
  cbn [Py.drop_while]. rewrite bar_not_space.
  change (String "|" (X +:+ "|")) with (String "|" X +:+ "|").
  by apply drop_while_end_keep.
Qed.

Lemma lines_text_bars r inner : ∃ X, lines_text (r :: inner) = bar +:+ X +:+ bar.
Proof.
  revert r. induction inner as [|r2 inner IH]; intros r.
  - exists r. by rewrite lines_text_one, app_empty_r.
  - destruct (IH r2) as (X & HX). rewrite lines_text_cons, HX.
    exists (r +:+ bar +:+ line_end +:+ bar +:+ X). by rewrite !app_assoc.
Qed.

Lemma free_of_newline s : free_of Py.newline s ↔ one_line s.
Proof. done. Qed.

(** The lines of the rows, split at the line breaks. *)
Lemma split_lines r inner :
  Forall one_line (r :: inner) →
  Py.split Py.newline (Py.strip (lines_text (r :: inner)))
  = (λ r, bar +:+ r +:+ bar) <$> (r :: inner).
Proof.
  intros Hall. destruct (lines_text_bars r inner) as (X & HX).
  rewrite HX, strip_bars, <- HX. unfold lines_text, line_end.
  rewrite fmap_cons. apply split_join.
  change (Forall (free_of Py.newline) ((λ r, bar +:+ r +:+ bar) <$> (r :: inner))).
  apply Forall_fmap. eapply Forall_impl; [exact Hall|].
  intros l Hl. cbn. apply free_of_newline.
  apply one_line_app. split; [apply one_line_bar|].
  apply one_line_app. split; [done|apply one_line_bar].
Qed.

(** Group 3 of the match on a table. *)
Lemma group_lines header sep r inner final :
  let text := table_text_of header sep (r :: inner) in
  let n3 := (String.length header + 4 + String.length sep + 2)%nat in
  span_of 3 (caps final) = Some (n3, String.length text) →
  group_text (Match text final) 3 = lines_text (r :: inner).
Proof.
  cbv zeta. intros Hspan. unfold group_text, group. cbn [Re.final subject].
  rewrite Hspan. cbn [default]. rewrite table_length.
  unfold table_text_of. fold (lines_text (r :: inner)).
  set (l := lines_text (r :: inner)).
  replace (bar +:+ header +:+ bar +:+ line_end +:+ bar +:+ sep +:+ bar +:+ line_end +:+ l)
    with ((bar +:+ header +:+ bar +:+ line_end +:+ bar +:+ sep +:+ bar +:+ line_end) +:+ l)
    by (by rewrite !app_assoc).
  replace (String.length header + 4 + String.length sep + 2)%nat
    with (String.length (bar +:+ header +:+ bar +:+ line_end +:+ bar +:+ sep
                         +:+ bar +:+ line_end)).
  2:{ unfold bar, line_end. rewrite !length_app. cbn [String.length]. lia. }
  rewrite substring_skip.
  replace (String.length header + String.length sep + 6 + String.length l
           - String.length (bar +:+ header +:+ bar +:+ line_end +:+ bar +:+ sep
                            +:+ bar +:+ line_end))%nat
    with (String.length l).
  2:{ unfold bar, line_end. rewrite !length_app. cbn [String.length]. lia. }
  rewrite <- (app_empty_r l) at 2. apply substring_prefix.
Qed.

Lemma all_impl (p q : ascii → bool) s :
  (∀ c, p c = true → q c = true) → Py.all p s = true → Py.all q s = true.
Proof.
  intros Hpq. induction s as [|c s IH]; [done|]. cbn [Py.all].
  intros [Hc Hs]%andb_true_iff. by rewrite (Hpq _ Hc), (IH Hs).
Qed.

Lemma cell_ok_free cell : cell_ok cell → free_of "|" cell.
Proof. apply all_impl. by intros c [? _]%andb_true_iff. Qed.

Lemma cell_ok_one_line cell : cell_ok cell → one_line cell.
Proof. apply all_impl. by intros c [_ ?]%andb_true_iff. Qed.

Lemma split_cells cell cells :
  Forall cell_ok (cell :: cells) →
  Py.split "|" (Py.join bar (cell :: cells) +:+ bar) = (cell :: cells) ++ [EmptyString].
Proof.
  revert cell. induction cells as [|c2 cells IH]; intros cell Hall;
    inversion Hall as [|? ? Hcell Hrest]; subst.
  - cbn [Py.join]. unfold bar. by rewrite split_app_sep by by apply cell_ok_free.
  - change (Py.join bar (cell :: c2 :: cells))
      with (cell +:+ bar +:+ Py.join bar (c2 :: cells)).
    rewrite !app_assoc. unfold bar at 1. rewrite app_cons, app_empty_l.
    rewrite split_app_sep by by apply cell_ok_free. by rewrite (IH _ Hrest).
Qed.

(** The cells of a line of the table. *)
Lemma row_cells cell cells :
  Forall cell_ok (cell :: cells) →
  inner (Py.split "|" (row_line (cell :: cells))) = cell :: cells.
Proof.
  intros Hall. unfold row_line. unfold bar at 1. rewrite app_cons, app_empty_l.
  cbn [Py.split]. rewrite Ascii.eqb_refl, (split_cells _ _ Hall).
  unfold inner. cbn [tail]. apply removelast_last.
Qed.

Lemma parse_row_line columns cells :
  Forall cell_ok cells → parse_row columns (row_line cells) = cells_to_row columns cells.
Proof.
  intros Hall. destruct cells as [|cell cells]; [done|].
  unfold parse_row, cells_to_row. rewrite (row_cells _ _ Hall).
  by rewrite length_fmap.
Qed.

Lemma join_one_line cells : Forall cell_ok cells → one_line (Py.join bar cells).
Proof.
  induction cells as [|cell cells IH]; [done|]. intros Hall.
  inversion Hall as [|? ? Hcell Hrest]; subst. destruct cells as [|c2 cells].
  - by apply cell_ok_one_line.
  - change (Py.join bar (cell :: c2 :: cells))
      with (cell +:+ bar +:+ Py.join bar (c2 :: cells)).
    apply one_line_app. split; [by apply cell_ok_one_line|].
    apply one_line_app. split; [apply one_line_bar|by apply IH].
Qed.

Lemma join_outside p cells :
  Exists (λ cell, Py.all p cell = false) cells → Py.all p (Py.join bar cells) = false.
Proof.
  induction cells as [|cell cells IH]; [by intros ?%Exists_nil|].
  intros Hex. destruct cells as [|c2 cells].
  - apply Exists_cons in Hex as [?|?%Exists_nil]; done.
  - change (Py.join bar (cell :: c2 :: cells))
      with (cell +:+ bar +:+ Py.join bar (c2 :: cells)).
    rewrite !all_app. apply Exists_cons in Hex as [->|Hex]; [done|].
    by rewrite (IH Hex), !andb_false_r.
Qed.

Lemma table_text_inner header separator rows :
  table_text header separator rows
  = table_text_of header separator (Py.join bar <$> rows).
Proof.
  unfold table_text, table_text_of. do 8 f_equal.
  rewrite <- list_fmap_compose. done.
Qed.

(** The lines of a table, found and handed to the loop over the rows. *)
Lemma table_lines header separator first rows columns :
  one_line header →
  separator ≠ EmptyString → Py.all separator_class separator = true →
  Forall (Forall cell_ok) (first :: rows) →
  Exists (λ cell, Py.all separator_class cell = false) first →
  parse_markdown_table (table_text header separator (first :: rows)) columns
  = omap (parse_row columns) (row_line <$> (first :: rows)).
Proof.
  intros Hheader Hne Hsep Hcells Hfirst.
  assert (Hlines : Forall one_line (Py.join bar first :: (Py.join bar <$> rows))).
  { change (Forall one_line (Py.join bar <$> (first :: rows))).
    apply Forall_fmap. eapply Forall_impl; [exact Hcells|]. apply join_one_line. }
  pose proof (join_outside _ _ Hfirst) as Hout.
  unfold parse_markdown_table. rewrite table_text_inner, fmap_cons.
  rewrite (table_match _ _ _ _ Hheader Hne Hsep Hlines Hout).
  rewrite group_lines by (cbn [caps span_of Nat.eqb]; reflexivity).
  rewrite (split_lines _ _ Hlines).
  change (Py.join bar first :: (Py.join bar <$> rows))
    with (Py.join bar <$> (first :: rows)).
  by rewrite <- list_fmap_compose.
Qed.

(** The loop over the cells, for distinct column names: cell [i] goes to
    column [offset + i], the cells beyond the columns are dropped. *)
Lemma bind_from (columns : list string) offset cells : ∀ j (item : Row),
  NoDup (drop (j + offset) columns) →
  foldl (λ (m : Row) (ic : nat * string),
           match columns !! (ic.1 + offset)%nat with
           | Some column => <[column := ic.2]> m
           | None => m
           end) item (imap (λ i cell, ((j + i)%nat, cell)) cells)
  = list_to_map (zip (drop (j + offset) columns) cells) ∪ item.
Proof.
  induction cells as [|x xs IH]; intros j item Hnd.
  - cbn [imap foldl]. rewrite zip_with_nil_r. cbn [list_to_map foldr].
    by rewrite (left_id_L ∅ (∪)).
  - rewrite imap_cons. cbn [foldl fst snd].
    rewrite (imap_ext _ (λ i cell, ((S j + i)%nat, cell))) by (intros; cbn; f_equal; lia).
    rewrite Nat.add_0_r.
    destruct (columns !! (j + offset)%nat) as [c|] eqn:Hc.
    + rewrite (drop_S _ _ _ Hc) in Hnd |- *. apply NoDup_cons in Hnd as [Hnotin Hnd].
      rewrite (IH (S j)) by done. cbn [zip_with list_to_map foldr uncurry Datatypes.uncurry].
      change (S j + offset)%nat with (S (j + offset)).
      rewrite <- insert_union_l, <- insert_union_r; [done|].
      apply not_elem_of_list_to_map_1. intros ([c' y] & -> & Hin)%list_elem_of_fmap.
      by apply elem_of_zip_l in Hin.
    + apply lookup_ge_None in Hc.
      rewrite (IH (S j)); rewrite !drop_ge by (cbn; lia); [done|constructor].
Qed.

Lemma bind_cells_zip columns offset cells (item : Row) :
  NoDup (drop offset columns) →
  bind_cells columns offset cells item
  = list_to_map (zip (drop offset columns) cells) ∪ item.
Proof. intros Hnd. by apply (bind_from columns offset cells 0 item). Qed.

(** The row of the cells of a line, under column names that are distinct
    and start with the two identity columns. *)
Lemma cells_to_row_zip rest cells :
  let columns := "foodCode" :: "foodName" :: rest in
  NoDup columns → (2 ≤ length cells)%nat →
  cells_to_row columns cells = Some (list_to_map (zip columns (Py.strip <$> cells))).
Proof.
  cbv zeta. intros Hnd Hlen. unfold cells_to_row.
  destruct (Nat.ltb_spec (length cells) 2) as [?|_]; [lia|].
  rewrite bind_cells_zip by done. cbn [drop]. rewrite (right_id_L ∅ (∪)).
  match goal with
  | |- (if has_identity ?m then _ else _) = _ =>
      assert (has_identity m = true) as ->; [|done]
  end.
  destruct cells as [|a [|b cells]]; cbn [length] in Hlen; [lia|lia|].
  rewrite !fmap_cons. cbn [zip_with list_to_map foldr uncurry Datatypes.uncurry].
  unfold has_identity. apply andb_true_iff. split; apply MergeFacts.has_key_spec.
  - by rewrite lookup_insert_eq.
  - rewrite lookup_insert_ne by done. by rewrite lookup_insert_eq.
Qed.

Lemma rows_as_cells columns rows :
  Forall (Forall cell_ok) rows →
  omap (parse_row columns) (row_line <$> rows) = omap (cells_to_row columns) rows.
Proof.
  induction 1 as [|cells more Hc Hmore IH]; [done|].
  rewrite fmap_cons. cbn [omap list_omap]. rewrite (parse_row_line _ _ Hc).
  change (list_omap ?f ?l) with (omap f l). by rewrite IH.
Qed.

Lemma rows_by_column rest rows :
  let columns := "foodCode" :: "foodName" :: rest in
  NoDup columns →
  Forall (λ cells, 2 ≤ length cells)%nat rows →
  omap (cells_to_row columns) rows
  = (λ cells, list_to_map (zip columns (Py.strip <$> cells))) <$> rows.
Proof.
  cbv zeta. intros Hnd. induction 1 as [|cells more Hl Hls IH]; [done|].
  rewrite fmap_cons. cbn [omap list_omap]. rewrite (cells_to_row_zip _ _ Hnd Hl).
  change (list_omap ?f ?l) with (omap f l). by rewrite IH.
Qed.

(** X22: a Markdown table written with one header line, one separator line
    and one line per row, cells between pipes, is read back line by line:
    every line gives the row of its cells, in order, and a line of fewer
    than two cells gives none. No cell may hold a pipe or a line break, and
    the first row needs a cell with a character outside the separator's
    class, or the separator pattern takes that row too. *)
Theorem markdown_table_round_trip header separator first rows columns :
  one_line header →
  separator ≠ EmptyString → Py.all separator_class separator = true →
  Forall (Forall cell_ok) (first :: rows) →
  Exists (λ cell, Py.all separator_class cell = false) first →
  parse_markdown_table (table_text header separator (first :: rows)) columns
  = omap (cells_to_row columns) (first :: rows).
Proof.
  intros Hheader Hne Hsep Hcells Hfirst.
  rewrite table_lines by done. by apply rows_as_cells.
Qed.

Lemma markdown_table_round_trip_witness :
  parse_markdown_table
    (table_text " code | name | kcal " "---|---|---"
       [[" 011101 "; " wheat "; " 338 "]; [" 011201 "; " flour "; " 359 "]])
    ["foodCode"; "foodName"; "energyKCal"]
  = omap (cells_to_row ["foodCode"; "foodName"; "energyKCal"])
      [[" 011101 "; " wheat "; " 338 "]; [" 011201 "; " flour "; " 359 "]].
Proof.
  refine (markdown_table_round_trip " code | name | kcal " "---|---|---"
            [" 011101 "; " wheat "; " 338 "] [[" 011201 "; " flour "; " 359 "]]
            ["foodCode"; "foodName"; "energyKCal"] _ _ _ _ _);
    [reflexivity|done|reflexivity| |].
  - repeat constructor.
  - apply Exists_cons_hd. reflexivity.
Defined.

(** X23: under column names that are distinct and start with foodCode and
    foodName, as both column lists of the program do, a Markdown table
    whose lines all have at least two cells is read back in full: one row
    per line, in order, each column name bound to the stripped cell at its
    position, the cells beyond the last column dropped and the columns
    beyond the last cell absent. *)
Theorem table_rows_by_column header separator first rows rest :
  let columns := "foodCode" :: "foodName" :: rest in
  NoDup columns →
  one_line header →
  separator ≠ EmptyString → Py.all separator_class separator = true →
  Forall (Forall cell_ok) (first :: rows) →
  Forall (λ cells, 2 ≤ length cells)%nat (first :: rows) →
  Exists (λ cell, Py.all separator_class cell = false) first →
  parse_markdown_table (table_text header separator (first :: rows)) columns
  = (λ cells, list_to_map (zip columns (Py.strip <$> cells))) <$> (first :: rows).
Proof.
  cbv zeta. intros Hnd Hheader Hne Hsep Hcells Hlen Hfirst.
  rewrite table_lines by done. rewrite rows_as_cells by done.
  by apply rows_by_column.
Qed.

Lemma table_rows_by_column_witness :
  parse_markdown_table
    (table_text " code | name | kcal " "---|---|---"
       [[" 011101 "; " wheat "; " 338 "]; [" 011201 "; " flour " ]])
    ["foodCode"; "foodName"; "energyKCal"]
  = [ {[ "foodCode" := "011101"; "foodName" := "wheat"; "energyKCal" := "338" ]};
      {[ "foodCode" := "011201"; "foodName" := "flour" ]} ].
Proof.
  refine (table_rows_by_column " code | name | kcal " "---|---|---"
            [" 011101 "; " wheat "; " 338 "] [[" 011201 "; " flour "]]
            ["energyKCal"] _ _ _ _ _ _ _).
  - repeat constructor; set_solver.
  - reflexivity.
  - done.
  - reflexivity.
  - repeat constructor.
  - repeat constructor.
  - apply Exists_cons_hd. reflexivity.
Defined.

End TableFacts.

Module FallbackFacts.
Import Re Parser TableSpec PyFacts ReFacts MatchFacts TableFacts.

(** No offset but the first lets a pattern that starts with [^] match. *)
Lemma search_after_start r fuel : ∀ n s,
  search_from (Seq Bol r) fuel (MState (S n) s []) = None.
Proof.
  induction fuel as [|fuel IH]; intros n s; cbn [search_from];
    rewrite run_Group, run_Seq, run_Bol; cbn [pos Nat.eqb rest]; [by destruct s|].
  destruct s as [|c s]; [done|]. apply IH.
Qed.

Lemma search_at_start r s :
  run (Group 0 (Seq Bol r)) (start s) Some = None →
  re_search (Seq Bol r) s = None.
Proof.
  intros Hrun. unfold re_search.
  assert (search_from (Seq Bol r) (String.length s) (start s) = None) as ->; [|done].
  destruct s as [|c s]; cbn [String.length search_from]; rewrite Hrun; [done|].
  unfold start. cbn [rest pos]. apply search_after_start.
Qed.

Lemma space_then_pipe_fails text r n cs k :
  String.prefix "|" (Py.lstrip text) = false →
  run (Star true space) (MState n text cs) (λ st, run (Seq pipe r) st k) = None.
Proof.
  intros Hp. unfold space. rewrite run_star_chr. cbn [pos rest caps].
  rewrite <- (take_drop_while Py.is_space text).
  apply star_greedy_none.
  - apply all_take_while.
  - destruct (StripFacts.drop_while_head Py.is_space text) as [->|(c & t & -> & Hc)]; done.
  - intros u v Huv. rewrite run_Seq. apply run_Lit_fails. cbn [rest].
    destruct v as [|c v]; [exact Hp|]. rewrite app_cons. cbn [String.prefix].
    pose proof (all_take_while Py.is_space text) as Hall.
    rewrite Huv, all_app in Hall. apply andb_true_iff in Hall as [_ Hv].
    cbn [Py.all] in Hv. apply andb_true_iff in Hv as [Hc _].
    destruct (ascii_dec "|" c) as [<-|]; [done|done].
Qed.

(** X24: a text whose first character after its leading whitespace is not a
    pipe is not read as a Markdown table, whatever follows: the pattern is
    anchored at the start of the text, so a table below a line of prose is
    left to the plain-text strategies. *)
Theorem table_must_open_the_text text columns :
  String.prefix "|" (Py.lstrip text) = false →
  parse_markdown_table text columns = parse_table_data text columns.
Proof.
  intros Hp. unfold parse_markdown_table.
  assert (re_search table_pattern text = None) as ->; [|done].
  unfold table_pattern, Cat. cbn [foldr]. apply search_at_start.
  rewrite run_Group, run_Seq, run_Bol. unfold start. cbn [pos Nat.eqb].
  rewrite run_Seq. by apply space_then_pipe_fails.
Qed.

Lemma table_must_open_the_text_witness :
  parse_markdown_table "rows: |a|b|" ["foodCode"; "foodName"]
  = parse_table_data "rows: |a|b|" ["foodCode"; "foodName"].
Proof.
  apply (table_must_open_the_text "rows: |a|b|" ["foodCode"; "foodName"]). reflexivity.
Defined.

(** ** A text without digits *)

Lemma any_drop_while p q s : Py.any p s = false → Py.any p (Py.drop_while q s) = false.
Proof.
  induction s as [|c s IH]; [done|]. cbn [Py.drop_while]. destruct (q c); [|done].
  cbn [Py.any]. intros [_ ?]%orb_false_iff. by apply IH.
Qed.

Lemma any_drop_while_end p q s :
  Py.any p s = false → Py.any p (Py.drop_while_end q s) = false.
Proof.
  induction s as [|c s IH]; [done|]. cbn [Py.any]. intros [Hc Hs]%orb_false_iff.
  cbn [Py.drop_while_end]. specialize (IH Hs).
  destruct (Py.drop_while_end q s) as [|a t].
  - destruct (q c); [done|]. cbn [Py.any]. by rewrite Hc.
  - cbn [Py.any] in *. by rewrite Hc, IH.
Qed.

Lemma any_strip p s : Py.any p s = false → Py.any p (Py.strip s) = false.
Proof. intros H. by apply any_drop_while_end, any_drop_while. Qed.

Lemma any_split p sep s :
  Py.any p s = false → Forall (λ l, Py.any p l = false) (Py.split sep s).
Proof.
  induction s as [|c s IH]; [by repeat constructor|].
  cbn [Py.any]. intros [Hc Hs]%orb_false_iff. specialize (IH Hs). cbn [Py.split].
  destruct (Ascii.eqb c sep); [by constructor|].
  destruct (Py.split sep s) as [|w ws].
  - repeat constructor. cbn [Py.any]. by rewrite Hc.
  - inversion IH as [|? ? Hw Hws]; subst. constructor; [|done].
    cbn [Py.any]. by rewrite Hc, Hw.
Qed.

Lemma any_split_spaces p s :
  Py.any p s = false → Forall (λ l, Py.any p l = false) (split_spaces s).
Proof.
  induction s as [|c s IH]; [by repeat constructor|].
  cbn [Py.any]. intros [Hc Hs]%orb_false_iff. specialize (IH Hs). cbn [split_spaces].
  destruct (Py.is_space c).
  - destruct s as [|c' s']; [by repeat constructor|].
    destruct (Py.is_space c'); [done|by constructor].
  - destruct (split_spaces s) as [|w ws].
    + repeat constructor. cbn [Py.any]. by rewrite Hc.
    + inversion IH as [|? ? Hw Hws]; subst. constructor; [|done].
      cbn [Py.any]. by rewrite Hc, Hw.
Qed.

Lemma isdigit_any s : Py.isdigit s = true → Py.any Py.is_digit s = true.
Proof.
  unfold Py.isdigit. destruct s as [|c s]; [done|]. cbn [Py.nonempty Py.all Py.any andb].
  by intros [-> _]%andb_true_iff.
Qed.

Lemma any_but_last p s : Py.any p s = false → Py.any p (Py.but_last s) = false.
Proof.
  induction s as [|c s IH]; [done|]. cbn [Py.any]. intros [Hc Hs]%orb_false_iff.
  cbn [Py.but_last]. destruct s as [|c' s']; [done|].
  change (Py.any p (String c (Py.but_last (String c' s'))) = false).
  cbn [Py.any]. by rewrite Hc, (IH Hs).
Qed.

Lemma Forall_filter_bool {A} (P : A → Prop) (f : A → bool) l :
  Forall P l → Forall P (List.filter f l).
Proof.
  induction 1 as [|x l Hx _ IH]; [constructor|]. cbn [List.filter].
  destruct (f x); [by constructor|done].
Qed.

Lemma data_lines_any p text :
  Py.any p text = false → Forall (λ l, Py.any p l = false) (data_lines text).
Proof.
  intros H. unfold data_lines. apply Forall_fmap, Forall_filter_bool.
  eapply Forall_impl; [apply any_split, any_strip, H|].
  intros l Hl. by apply any_strip.
Qed.

Lemma parse_line_digit columns line :
  Py.any Py.is_digit line = false → parse_line columns line = None.
Proof. intros H. unfold parse_line. by rewrite H, orb_true_r. Qed.

Lemma parse_parts_digit columns line :
  Py.any Py.is_digit line = false → parse_parts columns line = None.
Proof.
  intros H. unfold parse_parts. cbv zeta.
  destruct (_ <? 3)%nat; [done|].
  pose proof (any_split_spaces Py.is_digit _ (any_strip _ _ H)) as Hparts.
  destruct (split_spaces (Py.strip line)) as [|first others]; [done|].
  inversion Hparts as [|? ? Hfirst _]; subst.
  destruct (Py.isdigit first) eqn:E1.
  { apply isdigit_any in E1. congruence. }
  destruct (Py.isdigit (Py.but_last first)) eqn:E2.
  { apply isdigit_any in E2. rewrite any_but_last in E2 by done. done. }
  done.
Qed.

Lemma omap_none {A B} (f : A → option B) l :
  Forall (λ x, f x = None) l → omap f l = [].
Proof. induction 1 as [|x l Hx _ IH]; [done|]. cbn. by rewrite Hx. Qed.

(** X25: the plain-text strategies find no row in a text without a digit:
    both look for a food code, which starts with digits. *)
Theorem text_without_digits_has_no_rows text columns :
  Py.any Py.is_digit text = false → parse_table_data text columns = [].
Proof.
  intros H. unfold parse_table_data. cbv zeta.
  pose proof (data_lines_any _ _ H) as Hlines.
  rewrite (omap_none (parse_line columns)).
  - apply omap_none. eapply Forall_impl; [exact Hlines|]. apply parse_parts_digit.
  - eapply Forall_impl; [exact Hlines|]. apply parse_line_digit.
Qed.

Lemma text_without_digits_has_no_rows_witness :
  parse_table_data "no table here" ["foodCode"; "foodName"] = [].
Proof.
  apply (text_without_digits_has_no_rows "no table here" ["foodCode"; "foodName"]).
  reflexivity.
Defined.

End FallbackFacts.

Module ReadFacts.
Import Re Fence Parser Fetch FenceSpec FetchMoreSpec SecondPassSpec TableSpec ReadSpec.
Import PyFacts ReFacts MatchFacts FenceMore TableFacts.

Lemma drop_while_end_all p s : Py.all p s = true → Py.drop_while_end p s = EmptyString.
Proof.
  induction s as [|c s IH]; [done|]. cbn [Py.all Py.drop_while_end].
  intros [Hc Hs]%andb_true_iff. by rewrite (IH Hs), Hc.
Qed.

Lemma drop_while_end_app_all p a b :
  Py.all p b = true → Py.drop_while_end p (a +:+ b) = Py.drop_while_end p a.
Proof.
  intros Hb. induction a as [|c a IH].
  - rewrite app_empty_l. by apply drop_while_end_all.
  - rewrite app_cons. cbn [Py.drop_while_end]. by rewrite IH.
Qed.

(** A text between two pipes, with whitespace around it, stripped. *)
Lemma strip_padded pad1 X pad2 :
  blank pad1 → blank pad2 →
  Py.strip (pad1 +:+ (bar +:+ X +:+ bar) +:+ pad2) = bar +:+ X +:+ bar.
Proof.
  intros H1 H2. unfold Py.strip, Py.lstrip, Py.rstrip.
  unfold bar at 1. rewrite !app_cons, app_empty_l.
  rewrite drop_while_app_stop by apply bar_not_space.
  rewrite drop_while_all, app_empty_l by done.
  change (String "|" ((X +:+ bar) +:+ pad2)) with ((String "|" X +:+ bar) +:+ pad2).
  rewrite drop_while_end_app_all by done.
  by apply drop_while_end_keep.
Qed.

Lemma table_text_bars header separator r inner :
  ∃ X, table_text_of header separator (r :: inner) = bar +:+ X +:+ bar.
Proof.
  destruct (lines_text_bars r inner) as (X & HX).
  exists (header +:+ bar +:+ line_end +:+ bar +:+ separator +:+ bar +:+ line_end
          +:+ bar +:+ X).
  unfold table_text_of. fold (lines_text (r :: inner)). rewrite HX.
  by rewrite !app_assoc.
Qed.

Lemma blank_tickless s : blank s → tickless s.
Proof.
  unfold blank, tickless. induction s as [|c s IH]; [done|]. cbn [Py.all Py.any].
  intros [Hc Hs]%andb_true_iff. rewrite (IH Hs), orb_false_r.
  destruct (Ascii.eqb_spec backtick c) as [<-|]; [done|done].
Qed.

(** A text that starts with whitespace or a pipe starts with none of the
    words of the fence. *)
Lemma no_word_opens pad1 X tail :
  blank pad1 → opens EmptyString (pad1 +:+ (bar +:+ X) +:+ tail).
Proof.
  intros Hpad. right. split; [done|].
  destruct pad1 as [|c pad1].
  - rewrite app_empty_l. unfold fence_words. by repeat constructor.
  - unfold blank in Hpad. cbn [Py.all] in Hpad. apply andb_true_iff in Hpad as [Hc _].
    rewrite app_cons. unfold fence_words, Py.startswith.
    repeat constructor; cbn [String.prefix];
      match goal with |- (if ascii_dec ?a c then _ else _) = false =>
        destruct (ascii_dec a c) as [<-|]; [done|done] end.
Qed.

Lemma columns_of_shape is_energy :
  ∃ rest, columns_of is_energy = "foodCode" :: "foodName" :: rest
          ∧ NoDup (columns_of is_energy).
Proof.
  destruct is_energy; eexists; (split; [reflexivity|]);
    apply (bool_decide_unpack _); vm_compute; reflexivity.
Qed.

(** X26: an answer of the service that holds a Markdown table in a fence is
    read in full: [process_image] logs the text of the table and returns
    one row per line of the table, in order, each column of the schema of
    the image bound to the stripped cell at its position. The fence opens
    with one of the listed words or with none; whitespace may surround the
    fences and the table; the table has no backtick, cells without pipes
    and line breaks, at least two cells per line, and a first row with a
    cell that has a character outside the class of the separator line. *)
Theorem fenced_table_is_read lead word pad1 pad2 trail header separator first rows
    image_name is_energy w :
  let table := table_text header separator (first :: rows) in
  blank lead → blank trail → blank pad1 → blank pad2 →
  word ∈ EmptyString :: fence_words →
  tickless table →
  one_line header →
  separator ≠ EmptyString → Py.all separator_class separator = true →
  Forall (Forall cell_ok) (first :: rows) →
  Forall (λ cells, 2 ≤ length cells)%nat (first :: rows) →
  Exists (λ cell, Py.all separator_class cell = false) first →
  process_image (Ok (fenced_table lead word pad1 table pad2 trail)) image_name is_energy w
  = (World (failed_dir w)
           (<[response_log_path image_name := table]> (temp_responses_dir w))
           (trace w),
     Ok ((λ cells, list_to_map (zip (columns_of is_energy) (Py.strip <$> cells)))
           <$> (first :: rows))).
Proof.
  cbv zeta. intros Hlead Htrail Hpad1 Hpad2 Hword Htick Hheader Hne Hsep Hcells Hlen Hfirst.
  destruct (columns_of_shape is_energy) as (rest & Hcols & Hnd).
  destruct (table_text_bars header separator (Py.join bar first) (Py.join bar <$> rows))
    as (X & HX).
  assert (Htable : table_text header separator (first :: rows) = bar +:+ X +:+ bar).
  { by rewrite table_text_inner, fmap_cons. }
  assert (Hextract :
    extract_markdown_table
      (fenced_table lead word pad1 (table_text header separator (first :: rows)) pad2 trail)
    = table_text header separator (first :: rows)).
  { unfold fenced_table, extract_markdown_table. rewrite fence_match; [| done | | | done].
    - cbv zeta. unfold group_text, group.
      cbn [final caps span_of Nat.eqb subject default from_option id].
      rewrite fence_group, StripFacts.strip_idem, Htable. by apply strip_padded.
    - apply elem_of_cons in Hword as [->|Hword]; [|by left].
      rewrite Htable, app_assoc. by apply no_word_opens.
    - apply tickless_app. split; [by apply blank_tickless|].
      apply tickless_app. split; [done|by apply blank_tickless]. }
  unfold process_image. rewrite Hextract. cbv zeta.
  fold (columns_of is_energy). rewrite Hcols in Hnd |- *.
  rewrite table_lines, rows_as_cells, rows_by_column by done.
  by rewrite fmap_cons.
Qed.

Lemma fenced_table_is_read_witness :
  process_image
    (Ok (fenced_table "" "markdown" Examples.line_break
           (table_text " code | name | edible " "---|---|---"
              [[" 011101 "; " wheat "; " 100 "]; [" 011201 "; " flour "]])
           Examples.line_break ""))
    "wheat-1-energy.png" true (World ∅ ∅ [])
  = (World ∅
       {[ "wheat-1-energy_response.md" :=
            table_text " code | name | edible " "---|---|---"
              [[" 011101 "; " wheat "; " 100 "]; [" 011201 "; " flour "]] ]}
       [],
     Ok [ {[ "foodCode" := "011101"; "foodName" := "wheat"; "edible" := "100" ]};
          {[ "foodCode" := "011201"; "foodName" := "flour" ]} ]).
Proof.
  refine (fenced_table_is_read "" "markdown" Examples.line_break Examples.line_break ""
            " code | name | edible " "---|---|---"
            [" 011101 "; " wheat "; " 100 "] [[" 011201 "; " flour "]]
            "wheat-1-energy.png" true (World ∅ ∅ []) _ _ _ _ _ _ _ _ _ _ _ _).
  - reflexivity.
  - reflexivity.
  - reflexivity.
  - reflexivity.
  - unfold fence_words. set_solver.
  - reflexivity.
  - reflexivity.
  - done.
  - reflexivity.
  - repeat constructor.
  - repeat constructor.
  - apply Exists_cons_hd. reflexivity.
Defined.

End ReadFacts.

Module BaseMore.
Import Re SecondPass SecondPassSpec PyFacts ReFacts MatchFacts BaseFacts TableFacts ReadFacts.

Lemma decimal_one_line digits : Py.all Py.is_decimal digits = true → one_line digits.
Proof.
  apply all_impl. intros c Hc.
  destruct (Ascii.eqb_spec c Py.newline) as [->|]; [done|done].
Qed.

Lemma keep_first_one_line stem : one_line stem → one_line (keep_first_strip stem).
Proof.
  destruct stem as [|c s]; [done|]. unfold one_line. cbn [keep_first_strip Py.all].
  intros [Hc Hs]%andb_true_iff. rewrite Hc. cbn [andb].
  destruct (drop_while_end_split Py.is_decimal s) as (t & Hsplit & _).
  rewrite Hsplit in Hs. fold (one_line (Py.drop_while_end Py.is_decimal s +:+ t)) in Hs.
  by apply one_line_app in Hs as [? _].
Qed.

(** X27: the base category ignores a number that ends the name: a name and
    the name followed by decimal digits have the same base category, so the
    numbered files of a category and its plain file fall under one name; and
    the base category of a base category is itself. *)
Theorem base_category_ignores_number name digits :
  name ≠ EmptyString → one_line name → Py.all Py.is_decimal digits = true →
  extract_base_category (name +:+ digits) = extract_base_category name
  ∧ extract_base_category (extract_base_category name) = extract_base_category name.
Proof.
  intros Hne Hline Hdigits.
  assert (Hboth : one_line (name +:+ digits)).
  { apply one_line_app. split; [done|by apply decimal_one_line]. }
  rewrite !extract_base_category_keep_first by done.
  rewrite extract_base_category_keep_first by by apply keep_first_one_line.
  destruct name as [|c s]; [done|]. rewrite app_cons. cbn [keep_first_strip].
  unfold strip_trailing_digits. split.
  - by rewrite drop_while_end_app_all.
  - by rewrite StripFacts.drop_while_end_idem.
Qed.

Lemma base_category_ignores_number_witness :
  extract_base_category "beef12" = extract_base_category "beef"
  ∧ extract_base_category (extract_base_category "beef") = extract_base_category "beef".
Proof.
  refine (base_category_ignores_number "beef" "12" _ _ _); [done|reflexivity|reflexivity].
Defined.

End BaseMore.

Module LineFacts.
Import Re Parser SecondPassSpec TableSpec LineSpec PyFacts ReFacts MatchFacts TableFacts.

Lemma join_tail x l : Py.join " " (x :: l) = x +:+ tail_of l.
Proof.
  revert x. induction l as [|y l IH]; intros x.
  - cbn [Py.join tail_of]. by rewrite app_empty_r.
  - change (Py.join " " (x :: y :: l)) with (x +:+ " " +:+ Py.join " " (y :: l)).
    by rewrite IH.
Qed.

Lemma line_of_tail code name values :
  line_of code name values = code +:+ " " +:+ name +:+ tail_of values.
Proof. unfold line_of. rewrite join_tail. cbn [tail_of]. done. Qed.

Lemma value_token_head v t : value_token v → token_head (v +:+ t).
Proof.
  intros [d [Hne Hd]|a b [Hne Ha] _| |].
  - destruct d as [|c d]; [done|]. cbn [Py.all] in Hd.
    apply andb_true_iff in Hd as [Hc _]. rewrite app_cons. by constructor.
  - destruct a as [|c a]; [done|]. cbn [Py.all] in Ha.
    apply andb_true_iff in Ha as [Hc _]. rewrite !app_cons. by constructor.
  - apply head_trace.
  - apply head_dash.
Qed.

Lemma decimal_not_space c : Py.is_decimal c = true → Py.is_space c = false.
Proof. destruct c as [[] [] [] [] [] [] [] []]; vm_compute; congruence. Qed.

Lemma letter_not_space c : Py.is_ascii_letter c = true → Py.is_space c = false.
Proof. destruct c as [[] [] [] [] [] [] [] []]; vm_compute; congruence. Qed.

Lemma letter_not_decimal c : Py.is_ascii_letter c = true → Py.is_decimal c = false.
Proof. destruct c as [[] [] [] [] [] [] [] []]; vm_compute; congruence. Qed.

Lemma token_head_space s :
  token_head s → match s with String c _ => Py.is_space c = false | EmptyString => False end.
Proof.
  intros [c t Hc|t|t]; [|done|done]. by apply decimal_not_space.
Qed.

Lemma spaces_one n t cs k :
  no_space_head t → run spaces (MState n (" " +:+ t) cs) k = k (MState (S n) t cs).
Proof.
  intros Ht. unfold spaces, Plus, space. rewrite run_Seq, run_Chr.
  cbn [rest app_cons]. rewrite app_cons, app_empty_l.
  change (Py.is_space " ") with true. cbn match. unfold advance. cbn [pos caps].
  rewrite run_star_chr. cbn [pos rest caps].
  destruct t as [|c t]; cbn [star_chr]; [done|]. cbn in Ht. by rewrite Ht.
Qed.

Lemma spaces_none n s cs k :
  no_space_head s → run spaces (MState n s cs) k = None.
Proof.
  intros Hs. unfold spaces, Plus, space. rewrite run_Seq, run_Chr. cbn [rest].
  destruct s as [|c s]; [done|]. cbn in Hs. by rewrite Hs.
Qed.

Lemma token_head_no_space t : token_head t → no_space_head t.
Proof. intros H. apply token_head_space in H. by destruct t. Qed.

(** The look-ahead succeeds in front of the values and at the end of the
    line, and leaves the groups as they are. *)
Lemma ahead_matches n s cs :
  s = EmptyString ∨ (∃ t, s = " " +:+ t ∧ token_head t) →
  ∃ n' r', run value_ahead (MState n s cs) Some = Some (MState n' r' cs).
Proof.
  unfold value_ahead. intros [->|(t & -> & Ht)].
  - exists n, EmptyString. rewrite !run_Alt, !run_Seq.
    by rewrite !spaces_none by done.
  - pose proof (token_head_no_space _ Ht) as Hns.
    rewrite !run_Alt, !run_Seq, !spaces_one by done.
    destruct Ht as [c t Hc|t|t].
    + exists (S (S n)), t. unfold digit. rewrite run_Chr. cbn [rest]. by rewrite Hc.
    + exists (S n + 2)%nat, t. unfold digit. rewrite run_Chr. cbn [rest].
      rewrite app_cons. change (Py.is_decimal "T") with false. cbn match.
      change (String "T" ("r" +:+ t)) with ("Tr" +:+ t). by rewrite run_Lit_app.
    + exists (S n + 1)%nat, t. unfold digit, beyond. rewrite !run_Chr. cbn [rest].
      rewrite app_cons, app_empty_l. change (Py.is_decimal "-") with false. cbn match.
      rewrite run_Lit_fails by done.
      change (String "-" t) with ("-" +:+ t). by rewrite run_Lit_app.
Qed.

(** Inside the name the look-ahead fails. *)
Lemma ahead_fails n c v cs k :
  Py.is_space c = false → run value_ahead (MState n (String c v) cs) k = None.
Proof.
  intros Hc. unfold value_ahead. rewrite !run_Alt, !run_Seq.
  rewrite !spaces_none by done. rewrite run_Eol. cbn [rest].
  destruct v; [|done].
  destruct (Ascii.eqb_spec c Py.newline) as [->|]; [done|done].
Qed.

Lemma run_Ahead a st k :
  run (Ahead a) st k =
  match run a st Some with
  | Some st' => k (MState (pos st) (rest st) (caps st'))
  | None => None
  end.
Proof. reflexivity. Qed.

Lemma tail_of_shape values :
  Forall value_token values →
  tail_of values = EmptyString ∨ (∃ t, tail_of values = " " +:+ t ∧ token_head t).
Proof.
  intros [|v vs Hv _]; [by left|]. right. exists (v +:+ tail_of vs).
  split; [done|]. by apply value_token_head.
Qed.

Lemma word_head name :
  word name → ∃ c t, name = String c t ∧ word_char c = true ∧ Py.all word_char t = true.
Proof.
  intros [Hne Hall]. destruct name as [|c t]; [done|]. cbn [Py.all] in Hall.
  apply andb_true_iff in Hall as [? ?]. by exists c, t.
Qed.

Lemma word_char_space c : word_char c = true → Py.is_space c = false.
Proof. unfold word_char. intros [_ H]%andb_true_iff. by apply negb_true_iff. Qed.

Lemma word_char_decimal c : word_char c = true → negb (Py.is_decimal c) = true.
Proof. unfold word_char. by intros [H _]%andb_true_iff. Qed.

(** The pattern after the code: the blank, the name, the look-ahead. *)
Lemma after_code n name values cs k m :
  word name → Forall value_token values →
  k (MState (S n + String.length name) (tail_of values)
       ((2, (S n, S n + String.length name)%nat) :: cs)) = Some m →
  run (Seq spaces
        (Seq (Group 2 (Plus false (Chr (λ c, negb (Py.is_decimal c)))))
          (Seq (Ahead value_ahead) Eps)))
    (MState n (" " +:+ name +:+ tail_of values) cs) k = Some m.
Proof.
  intros Hname Hvalues Hk.
  destruct (word_head _ Hname) as (c & t & -> & Hc & Ht).
  rewrite run_Seq, spaces_one by (rewrite app_cons; by apply word_char_space).
  rewrite run_Seq, run_Group. unfold Plus. rewrite run_Seq, run_Chr. cbn [rest].
  rewrite app_cons, (word_char_decimal _ Hc). unfold advance. cbn [pos caps].
  rewrite run_star_chr. cbn [pos rest caps].
  apply star_lazy_first.
  - eapply all_impl; [|exact Ht]. apply word_char_decimal.
  - intros u v -> Hv. rewrite run_Seq, run_Ahead. unfold close_group. cbn [pos rest caps].
    destruct v as [|x v]; [done|]. rewrite app_cons.
    rewrite ahead_fails; [done|]. apply word_char_space.
    rewrite all_app in Ht. apply andb_true_iff in Ht as [_ Hv'].
    cbn [Py.all] in Hv'. by apply andb_true_iff in Hv' as [? _].
  - rewrite run_Seq, run_Ahead. unfold close_group. cbn [pos rest caps].
    destruct (ahead_matches (S (S n) + String.length t) (tail_of values)
                ((2, (S n, S (S n) + String.length t)%nat) :: cs)
                (tail_of_shape _ Hvalues)) as (n' & r' & ->).
    cbn [caps]. rewrite run_Eps. rewrite <- Hk. cbn [String.length].
    do 2 f_equal; [lia|]. do 3 f_equal. lia.
Qed.

(** The match of [line_pattern] on a line. *)
Lemma line_match d l name values :
  digits d → letter_opt l → word name → Forall value_token values →
  let line := (d +:+ l) +:+ " " +:+ name +:+ tail_of values in
  let n1 := String.length (d +:+ l) in
  let n2 := (S n1 + String.length name)%nat in
  re_match line_pattern line
  = Some (Match line (MState n2 (tail_of values)
                        [(0, (0, n2)); (2, (S n1, n2)); (1, (0, n1))]%nat)).
Proof.
  intros [Hne Hd] Hl Hname Hvalues. cbv zeta. unfold re_match.
  match goal with |- _ <$> ?x = Some (Match _ ?m) => assert (x = Some m) as ->; [|done] end.
  rewrite run_Group. unfold line_pattern, Cat. cbn [foldr]. fold value_ahead.
  rewrite run_Seq, run_Group, run_Seq. unfold Plus at 1. rewrite run_Seq.
  destruct d as [|c d]; [done|]. cbn [Py.all] in Hd. apply andb_true_iff in Hd as [Hc Hd].
  unfold digit at 1. rewrite run_Chr. unfold start. cbn [rest].
  rewrite !app_cons, Hc. unfold advance. cbn [pos caps].
  unfold digit. rewrite run_star_chr. cbn [pos rest caps].
  apply star_greedy_first. rewrite !app_assoc.
  destruct Hl as [->|(x & -> & Hx)].
  - rewrite app_empty_l.
    change (" " +:+ name +:+ tail_of values) with (String " " (name +:+ tail_of values)).
    rewrite take_while_app_stop, drop_while_app_stop by done.
    rewrite take_while_all, drop_while_all, app_empty_l by done.
    unfold Opt, letter. rewrite run_Alt, run_Chr. cbn [rest].
    change (Py.is_ascii_letter " ") with false. cbn match. rewrite run_Eps.
    unfold close_group. cbn [pos rest caps].
    change (String " " (name +:+ tail_of values)) with (" " +:+ name +:+ tail_of values).
    apply after_code; [done|done|]. unfold close_group. cbn [pos rest caps].
    rewrite app_empty_r. cbn [String.length]. reflexivity.
  - rewrite app_cons, app_empty_l.
    rewrite take_while_app_stop, drop_while_app_stop by by apply letter_not_decimal.
    rewrite take_while_all, drop_while_all, app_empty_l by done.
    unfold Opt, letter. rewrite run_Alt, run_Chr. cbn [rest]. rewrite Hx.
    unfold advance, close_group. cbn [pos rest caps].
    match goal with |- match ?r with _ => _ end = Some ?m =>
      assert (r = Some m) as ->; [|done] end.
    apply after_code; [done|done|]. unfold close_group. cbn [pos rest caps].
    cbn [String.length]. rewrite length_app. cbn [String.length].
    replace (String.length d + 1)%nat with (1 + String.length d)%nat by lia.
    reflexivity.
Qed.

Lemma after_value_head s :
  after_value s → match s with String c _ => Py.is_decimal c = false | EmptyString => True end.
Proof. intros [->|(t & -> & _)]; done. Qed.

Lemma after_value_prefix w s :
  after_value s → w ≠ EmptyString → Py.all (λ c, negb (Py.is_space c)) w = true →
  String.prefix w s = false.
Proof.
  intros Hs Hne Hw. destruct w as [|c w]; [done|]. cbn [Py.all] in Hw.
  apply andb_true_iff in Hw as [Hc _]. apply negb_true_iff in Hc.
  destruct Hs as [->|(t & -> & _)]; [done|]. rewrite app_cons. cbn [String.prefix].
  destruct (ascii_dec c " ") as [->|]; [done|done].
Qed.

(** Digits in front of a text that starts with no digit. *)
Lemma digits_match d s n cs k m :
  digits d →
  match s with String c _ => Py.is_decimal c = false | EmptyString => True end →
  k (MState (n + String.length d) s cs) = Some m →
  run (Plus true digit) (MState n (d +:+ s) cs) k = Some m.
Proof.
  intros [Hne Hd] Hs Hk. destruct d as [|c d]; [done|]. cbn [Py.all] in Hd.
  apply andb_true_iff in Hd as [Hc Hd].
  unfold Plus, digit. rewrite run_Seq, run_Chr. cbn [rest]. rewrite app_cons, Hc.
  unfold advance. cbn [pos caps]. rewrite run_star_chr. cbn [pos rest caps].
  apply star_greedy_first.
  assert (Py.take_while Py.is_decimal (d +:+ s) = d ∧ Py.drop_while Py.is_decimal (d +:+ s) = s)
    as [-> ->].
  { destruct s as [|x s].
    - rewrite app_empty_r. by rewrite take_while_all, drop_while_all.
    - rewrite take_while_app_stop, drop_while_app_stop by done.
      by rewrite take_while_all, drop_while_all. }
  rewrite <- Hk. cbn [String.length]. do 2 f_equal. lia.
Qed.

(** Digits with no point after them: the first alternative fails. *)
Lemma decimal_alt_fails d s n cs k :
  digits d → after_value s →
  run (Cat [Plus true digit; Lit "."; Plus true digit]) (MState n (d +:+ s) cs) k = None.
Proof.
  intros [Hne Hd] Hs. destruct d as [|c d]; [done|]. cbn [Py.all] in Hd.
  apply andb_true_iff in Hd as [Hc Hd].
  unfold Cat. cbn [foldr]. unfold Plus at 1, digit at 1 2.
  rewrite !run_Seq, run_Chr. cbn [rest]. rewrite app_cons, Hc.
  unfold advance. cbn [pos caps]. rewrite run_star_chr. cbn [pos rest caps].
  apply star_greedy_none; [done|by apply after_value_head|].
  intros u v Huv. rewrite run_Seq. apply run_Lit_fails. cbn [rest].
  destruct v as [|x v].
  - rewrite app_empty_l. by apply after_value_prefix.
  - rewrite app_cons. cbn [String.prefix].
    rewrite Huv, all_app in Hd. apply andb_true_iff in Hd as [_ Hv].
    cbn [Py.all] in Hv. apply andb_true_iff in Hv as [Hx _].
    destruct (ascii_dec "." x) as [<-|]; [done|done].
Qed.

(** A value, in front of what follows it. *)
Lemma value_matches v s n cs k m :
  value_token v → after_value s →
  k (MState (n + String.length v) s cs) = Some m →
  run value_alt (MState n (v +:+ s) cs) k = Some m.
Proof.
  intros Hv Hs Hk. unfold value_alt. destruct Hv as [d Hd|a b Ha Hb| |].
  - rewrite run_Alt, decimal_alt_fails by done. rewrite run_Alt.
    rewrite (digits_match d s n cs k m); [done|done| |done].
    by apply after_value_head.
  - rewrite run_Alt.
    match goal with |- match ?r with _ => _ end = Some ?m =>
      assert (r = Some m) as ->; [|done] end.
    unfold Cat. cbn [foldr]. rewrite run_Seq, !app_assoc.
    apply digits_match; [done|done|].
    rewrite run_Seq, run_Lit_app, run_Seq.
    apply digits_match; [done|by apply after_value_head|].
    rewrite run_Eps, <- Hk. rewrite !length_app. cbn [String.length].
    do 2 f_equal. lia.
  - unfold Cat. cbn [foldr]. unfold Plus, digit.
    rewrite !run_Alt, !run_Seq, !run_Chr. cbn [rest]. rewrite !app_cons.
    change (Py.is_decimal "T") with false. cbn match.
    change (String "T" (String "r" (EmptyString +:+ s))) with ("Tr" +:+ s).
    rewrite run_Lit_app. by rewrite Hk.
  - unfold Cat. cbn [foldr]. unfold Plus, digit, beyond.
    rewrite !run_Alt, !run_Seq, !run_Chr. cbn [rest]. rewrite !app_cons, app_empty_l.
    change (Py.is_decimal "-") with false. cbn match.
    rewrite run_Lit_fails by done.
    change (String "-" s) with ("-" +:+ s).
    rewrite run_Lit_app. by rewrite Hk.
Qed.

Lemma value_token_word v :
  value_token v → v ≠ EmptyString ∧ Py.all (λ c, negb (Py.is_space c)) v = true.
Proof.
  assert (Hdigits : ∀ d, Py.all Py.is_decimal d = true →
                         Py.all (λ c, negb (Py.is_space c)) d = true).
  { intros d. apply all_impl. intros c Hc. by rewrite (decimal_not_space _ Hc). }
  intros [d [Hne Hd]|a b [Hne Ha] [_ Hb]| |]; [by auto| |done|done].
  split; [by destruct a|]. rewrite !all_app, (Hdigits _ Ha), (Hdigits _ Hb). done.
Qed.

Lemma join_shape v vs :
  Forall value_token (v :: vs) → after_value (tail_of vs).
Proof.
  intros Hall. inversion Hall as [|? ? _ Hvs]; subst.
  destruct vs as [|v2 vs]; [by left|]. right. exists (v2 +:+ tail_of vs).
  split; [done|]. apply token_head_no_space, value_token_head. by inversion Hvs.
Qed.

(** One match of [value_pattern] at a value. *)
Lemma value_pattern_match v vs n :
  Forall value_token (v :: vs) →
  let n' := (n + String.length v + match vs with [] => 0 | _ => 1 end)%nat in
  run (Group 0 value_pattern) (MState n (Py.join " " (v :: vs)) []) Some
  = Some (MState n' (Py.join " " vs) [(0, (n, n')); (1, (n, n'))]).
Proof.
  intros Hall. cbv zeta. pose proof (join_shape _ _ Hall) as Hs.
  inversion Hall as [|? ? Hv Hvs]; subst.
  rewrite join_tail, run_Group. unfold value_pattern. fold value_alt.
  rewrite run_Group, run_Seq.
  apply value_matches; [done|done|]. rewrite run_Alt.
  destruct vs as [|v2 vs].
  - cbn [tail_of Py.join]. rewrite spaces_none by done. rewrite run_Eol. cbn [rest].
    unfold close_group. cbn [pos rest caps]. by rewrite Nat.add_0_r.
  - change (tail_of (v2 :: vs)) with (" " +:+ v2 +:+ tail_of vs).
    rewrite spaces_one by (apply token_head_no_space, value_token_head; by inversion Hvs).
    unfold close_group. cbn [pos rest caps]. rewrite join_tail.
    replace (n + String.length v + 1)%nat with (S (n + String.length v)) by lia.
    reflexivity.
Qed.

Lemma value_pattern_empty n cs k : run value_pattern (MState n EmptyString cs) k = None.
Proof. reflexivity. Qed.

Lemma substring_middle pre a b :
  String.substring (String.length pre) (String.length a) (pre +:+ a +:+ b) = a.
Proof. by rewrite substring_skip, substring_prefix. Qed.

(** [re.findall] on the values of a line. *)
Lemma findall_values vs : ∀ pre fuel,
  Forall value_token vs → (length vs ≤ fuel)%nat →
  findall_from value_pattern fuel (pre +:+ Py.join " " vs)
    (MState (String.length pre) (Py.join " " vs) []) = pieces vs.
Proof.
  induction vs as [|v vs IH]; intros pre fuel Hall Hfuel.
  - destruct fuel as [|fuel]; [done|]. cbn [findall_from Py.join rest String.length search_from].
    by rewrite run_Group, value_pattern_empty.
  - destruct fuel as [|fuel]; [cbn [length] in Hfuel; lia|]. cbn [findall_from].
    rewrite (search_from_here _ _ _ _ (value_pattern_match v vs (String.length pre) Hall)).
    cbn [pos rest].
    pose proof (value_token_word v ltac:(by inversion Hall)) as [Hne _].
    assert (String.length v ≠ 0)%nat by (by destruct v).
    destruct (Nat.ltb_spec (String.length pre)
                (String.length pre + String.length v
                 + match vs with [] => 0 | _ => 1 end)) as [_|?]; [|lia].
    unfold group_text, group. cbn [final caps span_of Nat.eqb subject default].
    inversion Hall as [|? ? Hv Hvs]; subst. cbn [length] in Hfuel.
    destruct vs as [|v2 vs].
    + rewrite Nat.add_0_r.
      replace (String.length pre + String.length v - String.length pre)%nat
        with (String.length v) by lia.
      cbn [Py.join pieces]. rewrite <- (app_empty_r v) at 2.
      rewrite substring_middle. f_equal.
      destruct fuel; [done|]. cbn [findall_from rest String.length search_from].
      by rewrite run_Group, value_pattern_empty.
    + replace (String.length pre + String.length v + 1 - String.length pre)%nat
        with (String.length (v +:+ " ")) by (rewrite length_app; cbn; lia).
      change (pieces (v :: v2 :: vs)) with ((v +:+ " ") :: pieces (v2 :: vs)).
      assert (pre +:+ Py.join " " (v :: v2 :: vs)
              = (pre +:+ v +:+ " ") +:+ Py.join " " (v2 :: vs)) as Htext.
      { change (Py.join " " (v :: v2 :: vs)) with (v +:+ " " +:+ Py.join " " (v2 :: vs)).
        by rewrite !app_assoc. }
      f_equal.
      * rewrite Htext, app_assoc.
        replace ((pre +:+ v +:+ " ") +:+ Py.join " " (v2 :: vs))
          with (pre +:+ (v +:+ " ") +:+ Py.join " " (v2 :: vs)) by (by rewrite !app_assoc).
        apply substring_middle.
      * rewrite Htext.
        replace (String.length pre + String.length v + 1)%nat
          with (String.length (pre +:+ v +:+ " "))
          by (rewrite !length_app; cbn; lia).
        apply IH; [done|lia].
Qed.

(** ** Stripping *)

Lemma strip_trimmed s : trimmed s → Py.strip s = s.
Proof.
  intros [Hhead Hlast]. unfold Py.strip, Py.lstrip, Py.rstrip.
  assert (Py.drop_while Py.is_space s = s) as ->.
  { destruct s as [|c s]; [done|]. cbn in Hhead. cbn [Py.drop_while]. by rewrite Hhead. }
  destruct Hlast as [->|(a & c & -> & Hc)]; [done|]. by apply drop_while_end_keep.
Qed.

Lemma spaceless_last s :
  spaceless s → s = EmptyString ∨ ∃ a c, s = a +:+ String c EmptyString ∧ Py.is_space c = false.
Proof.
  unfold spaceless. induction s as [|x s IH]; [by left|]. cbn [Py.all].
  intros [Hx Hs]%andb_true_iff. right. destruct (IH Hs) as [->|(a & c & -> & Hc)].
  - exists EmptyString, x. split; [done|]. by apply negb_true_iff.
  - by exists (String x a), c.
Qed.

Lemma spaceless_trimmed s : spaceless s → trimmed s.
Proof.
  intros Hs. split; [|by apply spaceless_last].
  destruct s as [|c s]; [done|]. unfold spaceless in Hs. cbn [Py.all] in Hs.
  apply andb_true_iff in Hs as [Hc _]. by apply negb_true_iff.
Qed.

(** A text that ends with no whitespace still does so behind any text. *)
Lemma last_app p s :
  s ≠ EmptyString →
  (s = EmptyString ∨ ∃ a c, s = a +:+ String c EmptyString ∧ Py.is_space c = false) →
  ∃ a c, p +:+ s = a +:+ String c EmptyString ∧ Py.is_space c = false.
Proof.
  intros Hne [->|(a & c & -> & Hc)]; [done|]. exists (p +:+ a), c.
  by rewrite app_assoc.
Qed.

Lemma strip_piece v : spaceless v → v ≠ EmptyString → Py.strip (v +:+ " ") = v.
Proof.
  intros Hv Hne. unfold Py.strip, Py.lstrip, Py.rstrip.
  assert (Py.drop_while Py.is_space (v +:+ " ") = v +:+ " ") as ->.
  { destruct v as [|c v]; [done|]. unfold spaceless in Hv. cbn [Py.all] in Hv.
    apply andb_true_iff in Hv as [Hc _]. apply negb_true_iff in Hc.
    rewrite app_cons. cbn [Py.drop_while]. by rewrite Hc. }
  rewrite ReadFacts.drop_while_end_app_all by done.
  destruct (spaceless_last v Hv) as [->|(a & c & -> & Hc)]; [done|].
  by apply drop_while_end_keep.
Qed.

Lemma word_spaceless name : word name → spaceless name.
Proof.
  intros [_ H]. eapply all_impl; [|exact H]. intros c Hc.
  by rewrite (word_char_space _ Hc).
Qed.

Lemma join_trimmed sep l :
  Forall (λ s, s ≠ EmptyString ∧ trimmed s) l → trimmed (Py.join sep l).
Proof.
  induction 1 as [|x l [Hne [Hhead Hlast]] Hl IH]; [by split; [|left]|].
  destruct l as [|y l]; [done|].
  change (Py.join sep (x :: y :: l)) with (x +:+ sep +:+ Py.join sep (y :: l)).
  split.
  - destruct x as [|c x]; [done|]. by rewrite app_cons.
  - right. rewrite <- app_assoc. apply last_app; [|apply IH].
    inversion Hl as [|? ? [Hy _] _]; subst. destruct l as [|z l]; [done|].
    change (Py.join sep (y :: z :: l)) with (y +:+ sep +:+ Py.join sep (z :: l)).
    by destruct y.
Qed.

Lemma value_token_trimmed v : value_token v → v ≠ EmptyString ∧ trimmed v.
Proof.
  intros Hv. destruct (value_token_word _ Hv) as [Hne Hsp].
  split; [done|by apply spaceless_trimmed].
Qed.

Lemma tail_trimmed vs :
  Forall value_token vs → trimmed (Py.join " " vs).
Proof.
  intros Hall. apply join_trimmed. eapply Forall_impl; [exact Hall|].
  apply value_token_trimmed.
Qed.

(** What is left of the line after the name, stripped. *)
Lemma strip_tail vs :
  Forall value_token vs → Py.strip (tail_of vs) = Py.join " " vs.
Proof.
  intros Hall. destruct vs as [|v vs]; [done|].
  pose proof (tail_trimmed _ Hall) as Htrim. rewrite join_tail in Htrim.
  cbn [tail_of]. rewrite join_tail.
  rewrite <- (strip_trimmed _ Htrim) at 2.
  unfold Py.strip, Py.lstrip. rewrite app_cons, app_empty_l. cbn [Py.drop_while].
  change (Py.is_space " ") with true. cbn match. done.
Qed.

Lemma strip_pieces vs :
  Forall value_token vs →
  List.filter Py.nonempty (Py.strip <$> pieces vs) = vs.
Proof.
  induction 1 as [|v vs Hv Hvs IH]; [done|].
  destruct (value_token_word _ Hv) as [Hne Hsp].
  assert (Py.nonempty v = true) as Hn by (by destruct v).
  destruct vs as [|v2 vs].
  - cbn [pieces fmap list_fmap List.filter].
    by rewrite (strip_trimmed _ (spaceless_trimmed _ Hsp)), Hn.
  - change (pieces (v :: v2 :: vs)) with ((v +:+ " ") :: pieces (v2 :: vs)).
    rewrite fmap_cons. cbn [List.filter].
    by rewrite (strip_piece _ Hsp Hne), Hn, IH.
Qed.

Lemma drop_app a b : Py.drop (String.length a) (a +:+ b) = b.
Proof. induction a as [|c a IH]; [by destruct b|]. rewrite app_cons. by cbn. Qed.

Lemma length_join_ge vs :
  Forall value_token vs → (length vs ≤ String.length (Py.join " " vs))%nat.
Proof.
  induction 1 as [|v vs Hv Hvs IH]; [done|].
  destruct (value_token_word _ Hv) as [Hne _].
  assert (1 ≤ String.length v)%nat by (destruct v; [done|cbn; lia]).
  rewrite join_tail. destruct vs as [|v2 vs].
  - cbn [tail_of length]. rewrite app_empty_r. lia.
  - rewrite join_tail in IH. cbn [tail_of]. rewrite !length_app in *.
    cbn [length String.length] in *. lia.
Qed.

Lemma code_spaceless d l : digits d → letter_opt l → spaceless (d +:+ l).
Proof.
  intros [_ Hd] Hl. unfold spaceless. rewrite all_app. apply andb_true_iff. split.
  - eapply all_impl; [|exact Hd]. intros c Hc. by rewrite (decimal_not_space _ Hc).
  - destruct Hl as [->|(c & -> & Hc)]; [done|]. cbn [Py.all].
    by rewrite (letter_not_space _ Hc).
Qed.

Lemma decimal_digit c : Py.is_decimal c = true → Py.is_digit c = true.
Proof. intros H. unfold Py.is_digit. by rewrite H. Qed.

(** The second strategy on a plain line. *)
Lemma parse_line_plain columns d l name values :
  digits d → letter_opt l → word name → Forall value_token values →
  (10 ≤ String.length (line_of (d +:+ l) name values))%nat →
  parse_line columns (line_of (d +:+ l) name values)
  = Some (bind_cells columns 2 values
            (<["foodName" := name]> (<["foodCode" := d +:+ l]> ∅))).
Proof.
  intros Hd Hl Hname Hvalues Hlen. rewrite line_of_tail in *. unfold parse_line.
  destruct (Nat.ltb_spec (String.length ((d +:+ l) +:+ " " +:+ name +:+ tail_of values)) 10)
    as [?|_]; [lia|].
  assert (Py.any Py.is_digit ((d +:+ l) +:+ " " +:+ name +:+ tail_of values) = true) as ->.
  { destruct Hd as [Hne Hall]. destruct d as [|c d]; [done|]. cbn [Py.all] in Hall.
    apply andb_true_iff in Hall as [Hc _]. rewrite !app_cons. cbn [Py.any].
    by rewrite (decimal_digit _ Hc). }
  cbn [negb orb]. rewrite line_match by done. cbv zeta.
  unfold match_end, group_text, group.
  cbn [final pos caps span_of Nat.eqb subject default].
  rewrite Nat.sub_0_r, substring_prefix.
  replace (S (String.length (d +:+ l)) + String.length name - S (String.length (d +:+ l)))%nat
    with (String.length name) by lia.
  assert (Hgroup2 : String.substring (S (String.length (d +:+ l))) (String.length name)
                      ((d +:+ l) +:+ " " +:+ name +:+ tail_of values) = name).
  { replace ((d +:+ l) +:+ " " +:+ name +:+ tail_of values)
      with (((d +:+ l) +:+ " ") +:+ name +:+ tail_of values) by (by rewrite !app_assoc).
    replace (S (String.length (d +:+ l))) with (String.length ((d +:+ l) +:+ " "))
      by (rewrite (length_app (d +:+ l)); cbn [String.length]; lia).
    apply substring_middle. }
  assert (Hdrop : Py.drop (S (String.length (d +:+ l)) + String.length name)
                    ((d +:+ l) +:+ " " +:+ name +:+ tail_of values) = tail_of values).
  { replace ((d +:+ l) +:+ " " +:+ name +:+ tail_of values)
      with (((d +:+ l) +:+ " " +:+ name) +:+ tail_of values) by (by rewrite !app_assoc).
    replace (S (String.length (d +:+ l)) + String.length name)%nat
      with (String.length ((d +:+ l) +:+ " " +:+ name)).
    2:{ rewrite (length_app (d +:+ l)), (length_app " "). cbn [String.length]. lia. }
    apply drop_app. }
  rewrite Hgroup2, Hdrop. unfold id.
  rewrite (strip_trimmed (d +:+ l)) by by apply spaceless_trimmed, code_spaceless.
  rewrite (strip_trimmed name) by by apply spaceless_trimmed, word_spaceless.
  rewrite strip_tail by done.
  unfold re_findall, start.
  rewrite (findall_values values EmptyString) by (by try apply length_join_ge).
  rewrite strip_pieces by done.
  match goal with
  | |- (if has_identity ?m then _ else _) = _ =>
      assert (has_identity m = true) as ->; [|done]
  end.
  apply ParserFacts.has_identity_spec.
  etrans; [|apply ParserFacts.bind_cells_dom].
  rewrite !dom_insert. unfold ParserSpec.identity_set. set_solver.
Qed.

(** ** The lines of a text *)

Lemma code_shape_parts code :
  code_shape code → ∃ d l, code = d +:+ l ∧ digits d ∧ letter_opt l.
Proof. intros (d & l & -> & Hd & Hl). by exists d, l. Qed.

Lemma entry_line_head e :
  entry_ok e → ∃ c t, entry_line e = String c t ∧ Py.is_decimal c = true.
Proof.
  intros (Hcode & _). destruct (code_shape_parts _ Hcode) as (d & l & Heq & [Hne Hd] & _).
  unfold entry_line. rewrite line_of_tail, Heq.
  destruct d as [|c d]; [done|]. cbn [Py.all] in Hd. apply andb_true_iff in Hd as [Hc _].
  rewrite !app_cons. eauto.
Qed.

Lemma entry_line_trimmed e : entry_ok e → entry_line e ≠ EmptyString ∧ trimmed (entry_line e).
Proof.
  intros Hok. split.
  { destruct (entry_line_head _ Hok) as (c & t & -> & _). done. }
  destruct Hok as (Hcode & Hname & Hvalues & _).
  destruct (code_shape_parts _ Hcode) as (d & l & Heq & Hd & Hl).
  unfold entry_line, line_of. apply join_trimmed.
  constructor; [|constructor].
  - rewrite Heq. split; [destruct Hd as [? _]; by destruct d|].
    by apply spaceless_trimmed, code_spaceless.
  - split; [apply Hname|by apply spaceless_trimmed, word_spaceless].
  - eapply Forall_impl; [exact Hvalues|]. apply value_token_trimmed.
Qed.

Lemma spaceless_one_line s : spaceless s → one_line s.
Proof.
  apply all_impl. intros c Hc. apply negb_true_iff in Hc. apply negb_true_iff.
  destruct (Ascii.eqb_spec c Py.newline) as [->|]; [done|done].
Qed.

Lemma join_blank_one_line l : Forall spaceless l → one_line (Py.join " " l).
Proof.
  induction 1 as [|x l Hx Hl IH]; [done|]. destruct l as [|y l].
  - by apply spaceless_one_line.
  - change (Py.join " " (x :: y :: l)) with (x +:+ " " +:+ Py.join " " (y :: l)).
    apply one_line_app. split; [by apply spaceless_one_line|].
    apply one_line_app. by split.
Qed.

Lemma entry_line_one_line e : entry_ok e → one_line (entry_line e).
Proof.
  intros (Hcode & Hname & Hvalues & _).
  destruct (code_shape_parts _ Hcode) as (d & l & Heq & Hd & Hl).
  unfold entry_line, line_of. apply join_blank_one_line.
  constructor; [|constructor].
  - rewrite Heq. by apply code_spaceless.
  - by apply word_spaceless.
  - eapply Forall_impl; [exact Hvalues|]. intros v Hv. by apply value_token_word.
Qed.

(** The lines the strategies look at are the lines of the entries. *)
Lemma data_lines_entries entries :
  Forall entry_ok entries → data_lines (text_of entries) = entry_line <$> entries.
Proof.
  intros Hall. unfold data_lines, text_of.
  destruct entries as [|e entries]; [done|].
  rewrite strip_trimmed.
  2:{ apply join_trimmed, Forall_fmap. eapply Forall_impl; [exact Hall|].
      apply entry_line_trimmed. }
  rewrite fmap_cons, split_join.
  2:{ change (Forall (free_of Py.newline) (entry_line <$> e :: entries)).
      apply Forall_fmap. eapply Forall_impl; [exact Hall|].
      intros x Hx. apply free_of_newline. by apply entry_line_one_line. }
  change (entry_line e :: (entry_line <$> entries)) with (entry_line <$> (e :: entries)).
  induction Hall as [|x l Hx Hl IH]; [done|].
  rewrite fmap_cons. cbn [List.filter].
  destruct (entry_line_trimmed _ Hx) as [Hne Htrim].
  rewrite (strip_trimmed _ Htrim).
  destruct (entry_line_head _ Hx) as (c & t & Heq & Hc). rewrite Heq in *.
  assert (Py.startswith "---" (String c t) = false) as ->.
  { unfold Py.startswith. cbn [String.prefix].
    destruct (ascii_dec "-" c) as [<-|]; [done|done]. }
  assert (Py.startswith "|" (String c t) = false) as ->.
  { unfold Py.startswith. cbn [String.prefix].
    destruct (ascii_dec "|" c) as [<-|]; [done|done]. }
  cbn [Py.nonempty negb andb]. rewrite fmap_cons, (strip_trimmed _ Htrim).
  f_equal. exact IH.
Qed.

Lemma parse_line_entry columns e :
  NoDup (drop 2 columns) → entry_ok e →
  parse_line columns (entry_line e) = Some (entry_row columns e).
Proof.
  intros Hnd (Hcode & Hname & Hvalues & Hlen).
  destruct (code_shape_parts _ Hcode) as (d & l & Heq & Hd & Hl).
  unfold entry_line, entry_row in *. rewrite Heq in *.
  rewrite parse_line_plain by done. by rewrite bind_cells_zip.
Qed.

Lemma parse_lines_entries columns entries :
  NoDup (drop 2 columns) → Forall entry_ok entries →
  omap (parse_line columns) (entry_line <$> entries) = entry_row columns <$> entries.
Proof.
  intros Hnd. induction 1 as [|e l He Hl IH]; [done|].
  rewrite !fmap_cons. cbn [omap list_omap]. rewrite (parse_line_entry _ _ Hnd He).
  change (list_omap ?f ?l) with (omap f l). by rewrite IH.
Qed.

Lemma text_of_head entries :
  Forall entry_ok entries → String.prefix "|" (Py.lstrip (text_of entries)) = false.
Proof.
  intros Hall. destruct Hall as [|e l He Hl]; [done|].
  destruct (entry_line_head _ He) as (c & t & Heq & Hc).
  unfold text_of. rewrite fmap_cons.
  assert (∃ t', Py.join (String Py.newline EmptyString) (entry_line e :: (entry_line <$> l))
                = String c t') as (t' & ->).
  { rewrite Heq. destruct (entry_line <$> l); [by eexists|].
    eexists. cbn [Py.join]. by rewrite app_cons. }
  unfold Py.lstrip. cbn [Py.drop_while]. rewrite (decimal_not_space _ Hc).
  cbn [String.prefix]. destruct (ascii_dec "|" c) as [<-|]; [done|done].
Qed.

(** X28: a text of plain lines, each made of a food code, a name of one
    word and values, with one blank between them, is read line by line by
    the second strategy: every line gives the row with its code, its name,
    and its values under the columns from the third on. The code is a run
    of digits with at most one letter after it, the name has no digit and
    no whitespace, a value is a number, a number with a decimal point, "Tr"
    or "-", the columns after the second are distinct, and every line has
    ten characters or more: a shorter line is not read by this strategy. *)
Theorem plain_lines_are_read entries columns :
  NoDup (drop 2 columns) → Forall entry_ok entries →
  parse_markdown_table (text_of entries) columns = entry_row columns <$> entries.
Proof.
  intros Hnd Hall. unfold parse_markdown_table.
  assert (re_search table_pattern (text_of entries) = None) as ->.
  { unfold table_pattern, Cat. cbn [foldr]. apply FallbackFacts.search_at_start.
    rewrite run_Group, run_Seq, run_Bol. unfold start. cbn [pos Nat.eqb].
    rewrite run_Seq. by apply FallbackFacts.space_then_pipe_fails, text_of_head. }
  unfold parse_table_data. cbv zeta.
  rewrite data_lines_entries, parse_lines_entries by done.
  by destruct entries.
Qed.

Lemma plain_lines_are_read_witness :
  parse_markdown_table
    (text_of [Entry "011101" "wheat" ["338"; "1.5"; "Tr"; "-"]; Entry "081201x" "beef" ["125"]])
    Merge.energy_cols
  = entry_row Merge.energy_cols <$>
      [Entry "011101" "wheat" ["338"; "1.5"; "Tr"; "-"]; Entry "081201x" "beef" ["125"]].
Proof.
  refine (plain_lines_are_read
            [Entry "011101" "wheat" ["338"; "1.5"; "Tr"; "-"]; Entry "081201x" "beef" ["125"]]
            Merge.energy_cols _ _).
  - apply (bool_decide_unpack _). vm_compute. reflexivity.
  - constructor; [|constructor; [|constructor]].
    + split; [|split; [|split]].
      * exists "011101", EmptyString. split; [done|]. split; [by split|by left].
      * by split.
      * constructor; [apply token_number; by split|].
        constructor; [apply (token_decimal "1" "5"); by split|].
        constructor; [apply token_trace|].
        constructor; [apply token_dash|constructor].
      * vm_compute. lia.
    + split; [|split; [|split]].
      * exists "081201", "x". split; [done|]. split; [by split|].
        right. by exists "x"%char.
      * by split.
      * constructor; [apply token_number; by split|constructor].
      * vm_compute. lia.
Defined.

End LineFacts.
